(** * regex_labeler: the annotation core, embedded and verified

    A shallow embedding of [regex_labeler/regex_labeler.py]: the overlap
    test [_HasOverlap], the annotator [_AnnotateExample] with its nested
    [_AddAnnotation], and the dictionary parser [_ParseDictionary].
    The functions that work on files ([ConvertOneFile], [ConvertFiles],
    [AnnotateFiles], [export] and [generate]) follow, over an interface
    of the operating system.

    Python values are represented as follows.
    - [str] is [string]; a character is a code point in 0..255 and the
      character classes below follow CPython on that range.
    - [int] is [Z].
    - An exception is a value of [exn]; a call that can raise returns a
      [result], and the statements of a function body are sequenced in the
      monad [M], which threads the object the function mutates and the
      records handed to [logging].
    - [re.finditer] belongs to the Python standard library, not to this
      repository: the annotator takes it as a parameter, and the module
      [sre] gives a backtracking implementation of a fragment of the
      pattern language for the statements that need to run a pattern. *)

From Stdlib Require Import ZArith List String Ascii Bool Lia.
From Stdlib Require Import DecimalString DecimalPos DecimalFacts.
From stdpp Require Import base gmap strings list.
Import ListNotations.
Local Open Scope Z_scope.

(** ** Python strings *)

Module Py.

Definition ord (c : ascii) : Z := Z.of_nat (nat_of_ascii c).

Definition between (lo hi n : Z) : bool := (lo <=? n) && (n <=? hi).

(** [str.isspace] on one character, which is also the class [\s] of [re]
    for [str] patterns. *)
Definition isspace (c : ascii) : bool :=
  let n := ord c in
  between 9 13 n || between 28 32 n || (n =? 133) || (n =? 160).

(** The class [\d]. *)
Definition isdecimal (c : ascii) : bool := between 48 57 (ord c).

(** The class [\w] under [re.UNICODE]: alphanumeric or underscore. *)
Definition isword (c : ascii) : bool :=
  let n := ord c in
  between 48 57 n || between 65 90 n || (n =? 95) || between 97 122 n
  || (n =? 170) || between 178 179 n || (n =? 181) || between 185 186 n
  || between 188 190 n || between 192 214 n || between 216 246 n
  || between 248 255 n.

Definition lower_char (c : ascii) : ascii :=
  let n := ord c in
  if between 65 90 n || between 192 214 n || between 216 222 n
  then ascii_of_nat (nat_of_ascii c + 32)
  else c.

(** [str.lower]. *)
Fixpoint lower (s : string) : string :=
  match s with
  | EmptyString => EmptyString
  | String c s' => String (lower_char c) (lower s')
  end.

Fixpoint lstrip_by (sp : ascii -> bool) (s : list ascii) : list ascii :=
  match s with
  | [] => []
  | c :: s' => if sp c then lstrip_by sp s' else s
  end.

Definition strip_by (sp : ascii -> bool) (s : list ascii) : list ascii :=
  rev (lstrip_by sp (rev (lstrip_by sp s))).

(** [str.strip] with no argument. *)
Definition strip (s : string) : string :=
  string_of_list_ascii (strip_by isspace (list_ascii_of_string s)).

(** The white space [int] skips around a numeral: it differs from
    [isspace] on the separators 28..31. *)
Definition int_space (c : ascii) : bool :=
  let n := ord c in
  between 9 13 n || (n =? 32) || (n =? 133) || (n =? 160).

(** Decimal digits with single underscores between them. *)
Fixpoint int_digits (s : list ascii) (acc : Z) (after_digit : bool)
  : option Z :=
  match s with
  | [] => if after_digit then Some acc else None
  | c :: s' =>
      if isdecimal c then int_digits s' (10 * acc + (ord c - 48)) true
      else if (ord c =? 95) && after_digit then int_digits s' acc false
      else None
  end.

(** [int(s)] for a [str] argument; [None] stands for [ValueError]. *)
Definition int (s : string) : option Z :=
  match strip_by int_space (list_ascii_of_string s) with
  | c :: s' =>
      if ord c =? 45 then Z.opp <$> int_digits s' 0 false
      else if ord c =? 43 then int_digits s' 0 false
      else int_digits (c :: s') 0 false
  | [] => None
  end.

(** The slice the match object takes of its subject string for a group
    whose marks are [i] and [j], [0 <= i]. *)
Definition getslice (s : string) (i j : Z) : string :=
  let n := Z.of_nat (String.length s) in
  let i := Z.min i n in
  let j := Z.min j n in
  substring (Z.to_nat i) (Z.to_nat (j - i)) s.

(** [len(list(filter(None, re.split(r'\s+', s))))]: the number of maximal
    runs of characters that are not white space. *)
Fixpoint count_runs (s : list ascii) (in_run : bool) : Z :=
  match s with
  | [] => 0
  | c :: s' =>
      if isspace c then count_runs s' false
      else (if in_run then 0 else 1) + count_runs s' true
  end.

Definition count_tokens (s : string) : Z :=
  count_runs (list_ascii_of_string s) false.

(** [re.match(r'\w+', s)]: the leading run of word characters, [None] when
    the string does not start with one. *)
Fixpoint word_run (s : string) : string :=
  match s with
  | EmptyString => EmptyString
  | String c s' => if isword c then String c (word_run s') else EmptyString
  end.

Definition match_word_run (s : string) : option string :=
  match word_run s with
  | EmptyString => None
  | w => Some w
  end.

End Py.

(** ** Exceptions, logging and the statement monad *)

Inductive exn : Set :=
| IndexError
| ValueError
| TypeError
| UnboundLocalError
| re_error.

Inductive result (A : Type) : Type :=
| Ok (a : A)
| Raise (e : exn).
Arguments Ok {A} a.
Arguments Raise {A} e.

Inductive level : Set := INFO | WARNING.

(** One constructor per logging call of the module that is at or above
    the level the module sets for its logger; the fields are the
    arguments formatted into the message. *)
Inductive message : Type :=
| SkippedEmptyMatch (at_ : Z)
| SkippedEmptyMatchGroup (at_ : Z)
| Matched (group1 : option string) (at_ : Z) (is_added : bool)
| ProbablyInvalid (group1 : string)
| SkippedMalformedLine (line : nat) (row : list string)
| SkippedDuplicatePattern (line : nat) (row : list string)
| SkippedInvalidLabel (line : nat) (row : list string) (limit : option Z)
| ParsedLabelPatterns (count : nat) (file_path : string).

Definition LogRecord : Type := level * message.

(** A statement runs on the object the function was handed ([St]) and on
    the log, and either yields a value or raises. *)
Definition M (St A : Type) : Type :=
  St * list LogRecord -> result A * (St * list LogRecord).

#[global] Instance M_ret {St : Type} : MRet (M St) :=
  fun A (a : A) w => (Ok a, w).

#[global] Instance M_bind {St : Type} : MBind (M St) :=
  fun A B (k : A -> M St B) (c : M St A) w =>
    match c w with
    | (Ok a, w') => k a w'
    | (Raise e, w') => (Raise e, w')
    end.

Definition raise {St A : Type} (e : exn) : M St A := fun w => (Raise e, w).

Definition lift {St A : Type} (r : result A) : M St A := fun w => (r, w).

Definition emit {St : Type} (lvl : level) (msg : message) : M St unit :=
  fun w => (Ok tt, (fst w, snd w ++ [(lvl, msg)])).

Definition get_object {St : Type} : M St St := fun w => (Ok (fst w), w).

Definition set_object {St : Type} (s : St) : M St unit := fun w => (Ok tt, (s, snd w)).

(** [for x in xs: acc = body(acc, x)], where [continue] is the body
    returning early. *)
Fixpoint for_each {St A X : Type} (xs : list X) (body : A -> X -> M St A) (acc : A)
  : M St A :=
  match xs with
  | [] => mret acc
  | x :: xs' => acc' ← body acc x; for_each xs' body acc'
  end.

(** [limit and n > limit] for a limit that is [None] or an [int]. *)
Definition exceeds (n : Z) (limit : option Z) : bool :=
  match limit with
  | Some l => negb (l =? 0) && (n >? l)
  | None => false
  end.

(** ** Match objects *)

Module re.

(** A match object: the subject string and the marks of the groups, as in
    [match.regs]; [m_span] is group 0, [m_marks] are the capture groups
    1..n, and a group that did not take part has marks [(-1, -1)]. *)
Record Match : Type := mkMatch {
  m_string : string;
  m_span : Z * Z;
  m_marks : list (Z * Z)
}.

Definition regs (m : Match) : list (Z * Z) := m_span m :: m_marks m.

Definition reg (m : Match) (g : Z) : result (Z * Z) :=
  if g <? 0 then Raise IndexError
  else match nth_error (regs m) (Z.to_nat g) with
       | Some r => Ok r
       | None => Raise IndexError
       end.

(** [match.start(g)] *)
Definition start (m : Match) (g : Z) : result Z :=
  match reg m g with Ok r => Ok (fst r) | Raise e => Raise e end.

(** [match.end(g)] *)
Definition end_ (m : Match) (g : Z) : result Z :=
  match reg m g with Ok r => Ok (snd r) | Raise e => Raise e end.

Definition slice_of (m : Match) (r : Z * Z) : option string :=
  if fst r <? 0 then None else Some (Py.getslice (m_string m) (fst r) (snd r)).

(** [match.group(g)] *)
Definition group (m : Match) (g : Z) : result (option string) :=
  match reg m g with Ok r => Ok (slice_of m r) | Raise e => Raise e end.

(** [match.groups()] *)
Definition groups (m : Match) : list (option string) :=
  map (slice_of m) (m_marks m).

(** [not v] for the value of a group: [None] and the empty string. *)
Definition falsy (v : option string) : bool :=
  match v with
  | None => true
  | Some s => (String.length s =? 0)%nat
  end.

End re.

(** ** The module's data *)

Record LabelPattern : Type := mkLabelPattern {
  pattern : string;
  label_ : string;
  matching_mode : string;
  matching_group : string
}.

Definition EXACT_MATCH : string := "e".
Definition IGNORE_CASE : string := "i".
Definition REGEX : string := "r".
Definition MATCHING_MODES : list string := [EXACT_MATCH; IGNORE_CASE; REGEX].

Record Annotation : Type := mkAnnotation {
  start : Z;
  end_ : Z;
  label : string
}.

(** The example record of a jsonl line. *)
Record text_segment : Type := { start_offset : Z; end_offset : Z }.
Record text_extraction_t : Type := { text_segment_ : text_segment }.
Record annotation_json : Type := {
  text_extraction : text_extraction_t;
  display_name : string
}.
Record text_snippet_t : Type := { content : string }.
Record Example : Type := {
  annotations : list annotation_json;
  text_snippet : text_snippet_t
}.

Definition _HasOverlap (a1 a2 : Annotation) : bool :=
  (start a1 >=? start a2) && (start a1 <? end_ a2)
  || (end_ a1 >? start a2) && (end_ a1 <=? end_ a2).

Definition _AnnotationToJson (annotation : Annotation) : annotation_json :=
  {| text_extraction :=
       {| text_segment_ :=
            {| start_offset := start annotation;
               end_offset := end_ annotation |} |};
     display_name := label annotation |}.

Definition annotation_of_json (a : annotation_json) : Annotation :=
  {| start := start_offset (text_segment_ (text_extraction a));
     end_ := end_offset (text_segment_ (text_extraction a));
     label := display_name a |}.

(** The closure [_AddAnnotation] of [_AnnotateExample], with the list it
    appends to made explicit. *)
Definition _AddAnnotation (annotations : list Annotation)
  (annotation : Annotation) : bool * list Annotation :=
  if existsb (_HasOverlap annotation) annotations
  then (false, annotations)
  else (true, annotations ++ [annotation]).

(** ** The annotator *)

Section Annotator.

(** [re.finditer(regex, text, flags)] with [flags] either [re.UNICODE] or
    [re.UNICODE | re.IGNORECASE]: the matches in the order the iterator
    yields them, or the exception raised when the pattern is compiled. *)
Variable finditer : string -> string -> bool -> result (list re.Match).

(** The module-level limit [MAX_ANNOTATION_TOKENS] ([None] in the source). *)
Variable MAX_ANNOTATION_TOKENS : option Z.

(** Lines 148-161: the iterator the rule's mode selects. A mode outside
    [MATCHING_MODES] assigns nothing, so [matcher] keeps what it was bound
    to: nothing on the first rule, the spent iterator of the previous rule
    afterwards. *)
Definition select_matcher (label_pattern : LabelPattern)
  (example_text : string) (matcher : option (list re.Match))
  : result (option (list re.Match)) :=
  if String.eqb (matching_mode label_pattern) EXACT_MATCH then
    match finditer ("\b" +:+ pattern label_pattern +:+ "\b") example_text false with
    | Ok ms => Ok (Some ms)
    | Raise e => Raise e
    end
  else if String.eqb (matching_mode label_pattern) IGNORE_CASE then
    match finditer (pattern label_pattern) example_text true with
    | Ok ms => Ok (Some ms)
    | Raise e => Raise e
    end
  else if String.eqb (matching_mode label_pattern) REGEX then
    match finditer (pattern label_pattern) example_text false with
    | Ok ms => Ok (Some ms)
    | Raise e => Raise e
    end
  else Ok matcher.

(** Lines 163-166. *)
Definition select_group (label_pattern : LabelPattern) : result Z :=
  if (String.length (matching_group label_pattern) =? 0)%nat then Ok 0
  else match Py.int (matching_group label_pattern) with
       | Some g => Ok g
       | None => Raise ValueError
       end.

(** Lines 168-185: the body of [for match in matcher], on the list
    [annotations] of the enclosing call. *)
Definition match_body {St : Type} (label_pattern : LabelPattern) (label_group : Z)
  (annotations : list Annotation) (m : re.Match) : M St (list Annotation) :=
  s ← lift (re.start m label_group);
  e ← lift (re.end_ m label_group);
  if s >=? e then
    whole ← lift (re.start m 0);
    emit WARNING (SkippedEmptyMatch whole);; mret annotations
  else if Z.of_nat (length (re.groups m)) <? label_group then
    whole ← lift (re.start m 0);
    emit WARNING (SkippedEmptyMatchGroup whole);; mret annotations
  else
    g ← lift (re.group m label_group);
    if re.falsy g then
      whole ← lift (re.start m 0);
      emit WARNING (SkippedEmptyMatchGroup whole);; mret annotations
    else
      let annotation := mkAnnotation s e (label_ label_pattern) in
      let '(is_added, annotations') := _AddAnnotation annotations annotation in
      g1 ← lift (re.group m 1);
      emit INFO (Matched g1 s is_added);;
      if is_added then
        match g1 with
        | None => raise TypeError
        | Some t =>
            let tokens := Py.count_tokens t in
            (if (tokens =? 0) || exceeds tokens MAX_ANNOTATION_TOKENS
             then emit WARNING (ProbablyInvalid t) else mret tt);;
            mret annotations'
        end
      else mret annotations'.

(** Lines 144-185: the body of [for label_pattern in label_patterns]. The
    loop carries the list [annotations] and the binding of [matcher]. *)
Definition rule_body {St : Type} (example_text : string)
  (acc : list Annotation * option (list re.Match))
  (label_pattern : LabelPattern)
  : M St (list Annotation * option (list re.Match)) :=
  matcher ← lift (select_matcher label_pattern example_text (snd acc));
  label_group ← lift (select_group label_pattern);
  match matcher with
  | None => raise UnboundLocalError
  | Some ms =>
      annotations' ← for_each ms (match_body label_pattern label_group) (fst acc);
      mret (annotations', Some [])
  end.

(** [_AnnotateExample(example, label_patterns)]; the object is the
    dictionary [example], changed by the assignment of line 187 only. *)
Definition _AnnotateExample (label_patterns : list LabelPattern)
  : M Example Example :=
  example ← get_object;
  let example_text := content (text_snippet example) in
  let annotations0 := map annotation_of_json (annotations example) in
  acc ← for_each label_patterns (rule_body example_text) (annotations0, None);
  set_object {| annotations := map _AnnotationToJson (fst acc);
                text_snippet := text_snippet example |};;
  get_object.

End Annotator.

(** ** The dictionary parser *)

Section Parser.

(** The module-level limit [MAX_LABEL_LENGTH] ([None] in the source). *)
Variable MAX_LABEL_LENGTH : option Z.

(** A row as [csv.reader] yields it, with [csv_reader.line_num] after it
    was read. *)
Record csv_row : Type := { line_num : nat; fields : list string }.

(** [row[i]] *)
Definition getitem (row : list string) (i : nat) : result string :=
  match nth_error row i with
  | Some f => Ok f
  | None => Raise IndexError
  end.

Definition in_modes (mode : string) : bool :=
  existsb (String.eqb mode) MATCHING_MODES.

(** Lines 206-234: the body of [for row in csv_reader], on the list
    [label_patterns] and the dictionary [pattern_and_mode]. *)
Definition row_body {St : Type}
  (acc : list LabelPattern * gmap (string * string) Z) (r : csv_row)
  : M St (list LabelPattern * gmap (string * string) Z) :=
  let row := fields r in
  if (length row <? 2)%nat then
    emit WARNING (SkippedMalformedLine (line_num r) row);; mret acc
  else
    f0 ← lift (getitem row 0);
    let pattern := Py.strip f0 in
    f1 ← lift (getitem row 1);
    let label := Py.strip f1 in
    f2 ← lift (getitem row 2);
    let mode := Py.lower (Py.strip f2) in
    group ← (if (3 <? length row)%nat
             then f3 ← lift (getitem row 3); mret (Py.strip f3)
             else mret ""%string);
    let mode := if in_modes mode then mode else EXACT_MATCH in
    if (String.length pattern =? 0)%nat || (String.length label =? 0)%nat then
      emit WARNING (SkippedMalformedLine (line_num r) row);; mret acc
    else if bool_decide (is_Some (snd acc !! (pattern, mode))) then
      emit WARNING (SkippedDuplicatePattern (line_num r) row);; mret acc
    else
      let too_long :=
        match Py.match_word_run label with
        | Some w => exceeds (Z.of_nat (String.length w)) MAX_LABEL_LENGTH
        | None => false
        end in
      if too_long then
        emit WARNING (SkippedInvalidLabel (line_num r) row MAX_LABEL_LENGTH);;
        mret acc
      else
        mret (fst acc ++ [mkLabelPattern pattern label mode group],
              <[(pattern, mode) := 1]> (snd acc)).

(** [_ParseDictionary(file_path)], on the rows the reader yields for the
    file. *)
Definition _ParseDictionary {St : Type} (file_path : string) (dict_file : list csv_row)
  : M St (list LabelPattern) :=
  acc ← for_each dict_file row_body ([], ∅);
  emit INFO (ParsedLabelPatterns (length (fst acc)) file_path);;
  mret (fst acc).

End Parser.

(** ** A backtracking matcher for a fragment of the pattern language

    The fragment: literal characters, [.], the classes [\w \W \d \D \s \S],
    the escapes [\a \f \n \r \t \v] and escaped punctuation, the
    assertion [\b], capture groups, alternation, and the greedy
    quantifiers [* + ?] on a single character or class. A pattern
    outside the fragment is not interpreted. *)

Module sre.

Inductive charset : Set :=
| Any
| Literal (c : ascii)
| Word (negate : bool)
| Digit (negate : bool)
| Space (negate : bool).

Inductive regex : Set :=
| Empty
| Char (cs : charset)
| Boundary
| Repeat (cs : charset) (lo : nat) (hi : option nat)
| Seq (r1 r2 : regex)
| Alt (r1 r2 : regex)
| Group (g : nat) (r : regex).

Inductive token : Set :=
| TChar (cs : charset)
| TBoundary
| TRepeat (lo : nat) (hi : option nat)
| TOpen
| TClose
| TBar
| TOther.

Definition is_ascii_alnum (c : ascii) : bool :=
  let n := Py.ord c in
  Py.between 48 57 n || Py.between 65 90 n || Py.between 97 122 n.

(** The token of [\c]. *)
Definition escape (c : ascii) : token :=
  match c with
  | "b"%char => TBoundary
  | "w"%char => TChar (Word false)
  | "W"%char => TChar (Word true)
  | "d"%char => TChar (Digit false)
  | "D"%char => TChar (Digit true)
  | "s"%char => TChar (Space false)
  | "S"%char => TChar (Space true)
  | "a"%char => TChar (Literal "007"%char)
  | "f"%char => TChar (Literal "012"%char)
  | "n"%char => TChar (Literal "010"%char)
  | "r"%char => TChar (Literal "013"%char)
  | "t"%char => TChar (Literal "009"%char)
  | "v"%char => TChar (Literal "011"%char)
  | _ => if is_ascii_alnum c then TOther else TChar (Literal c)
  end.

(** The token of an unescaped character. *)
Definition plain (c : ascii) : token :=
  match c with
  | "."%char => TChar Any
  | "("%char => TOpen
  | ")"%char => TClose
  | "|"%char => TBar
  | "*"%char => TRepeat 0 None
  | "+"%char => TRepeat 1 None
  | "?"%char => TRepeat 0 (Some 1%nat)
  | "["%char | "{"%char | "^"%char | "$"%char => TOther
  | _ => TChar (Literal c)
  end.

Fixpoint tokenize (s : list ascii) : list token :=
  match s with
  | [] => []
  | c :: s' =>
      if Ascii.eqb c "\"%char then
        match s' with
        | [] => [TOther]
        | d :: s'' => escape d :: tokenize s''
        end
      else plain c :: tokenize s'
  end.

(** An open subpattern while parsing: its group number, the alternatives
    already closed and the items of the alternative being read, both most
    recent first. *)
Record frame : Set := mkFrame {
  f_group : nat;
  f_alts : list regex;
  f_items : list regex
}.

Definition seq_of (items : list regex) : regex :=
  fold_left (fun acc r => Seq r acc) items Empty.

Definition close (f : frame) : regex :=
  fold_left (fun acc r => Alt r acc) (f_alts f) (seq_of (f_items f)).

Definition push (r : regex) (f : frame) : frame :=
  mkFrame (f_group f) (f_alts f) (r :: f_items f).

(** Groups are numbered from 1 in the order of their opening parenthesis. *)
Fixpoint parse_tokens (ts : list token) (next_group : nat) (cur : frame)
  (stack : list frame) : option (regex * nat) :=
  match ts with
  | [] =>
      match stack with
      | [] => Some (close cur, Nat.pred next_group)
      | _ :: _ => None
      end
  | t :: ts' =>
      match t with
      | TChar cs => parse_tokens ts' next_group (push (Char cs) cur) stack
      | TBoundary => parse_tokens ts' next_group (push Boundary cur) stack
      | TRepeat lo hi =>
          match f_items cur with
          | Char cs :: items =>
              parse_tokens ts' next_group
                (mkFrame (f_group cur) (f_alts cur) (Repeat cs lo hi :: items))
                stack
          | _ => None
          end
      | TOpen =>
          parse_tokens ts' (Datatypes.S next_group) (mkFrame next_group [] [])
            (cur :: stack)
      | TClose =>
          match stack with
          | [] => None
          | parent :: stack' =>
              parse_tokens ts' next_group
                (push (Group (f_group cur) (close cur)) parent) stack'
          end
      | TBar =>
          parse_tokens ts' next_group
            (mkFrame (f_group cur) (seq_of (f_items cur) :: f_alts cur) [])
            stack
      | TOther => None
      end
  end.

(** The compiled pattern and its number of groups. *)
Definition parse (pattern : string) : option (regex * nat) :=
  parse_tokens (tokenize (list_ascii_of_string pattern)) 1 (mkFrame 0 [] []) [].

Section Matching.

Variable text : list ascii.
Variable ignorecase : bool.

Definition word_at (i : nat) : bool :=
  match nth_error text i with
  | Some c => Py.isword c
  | None => false
  end.

(** [\b] at [pos]: exactly one of the characters around it is a word
    character. *)
Definition at_boundary (pos : nat) : bool :=
  xorb (match pos with O => false | Datatypes.S p => word_at p end) (word_at pos).

Definition in_charset (cs : charset) (c : ascii) : bool :=
  match cs with
  | Any => negb (Py.ord c =? 10)
  | Literal l =>
      if ignorecase then Ascii.eqb (Py.lower_char l) (Py.lower_char c)
      else Ascii.eqb l c
  | Word n => xorb n (Py.isword c)
  | Digit n => xorb n (Py.isdecimal c)
  | Space n => xorb n (Py.isspace c)
  end.

Fixpoint run_length (cs : charset) (s : list ascii) : nat :=
  match s with
  | [] => O
  | c :: s' => if in_charset cs c then Datatypes.S (run_length cs s') else O
  end.

Definition marks : Set := list (Z * Z).

(** What follows in the pattern: called with the position reached and the
    marks set so far. *)
Definition cont : Set := nat -> marks -> option (nat * marks).

(** Greedy repetition gives back one character at a time, down to [lo]. *)
Fixpoint give_back (k : cont) (pos lo n : nat) (caps : marks)
  : option (nat * marks) :=
  match k (pos + n)%nat caps with
  | Some res => Some res
  | None =>
      match n with
      | O => None
      | Datatypes.S n' => if (lo <=? n')%nat then give_back k pos lo n' caps else None
      end
  end.

Fixpoint run (r : regex) (pos : nat) (caps : marks) (k : cont)
  : option (nat * marks) :=
  match r with
  | Empty => k pos caps
  | Char cs =>
      match nth_error text pos with
      | Some c => if in_charset cs c then k (Datatypes.S pos) caps else None
      | None => None
      end
  | Boundary => if at_boundary pos then k pos caps else None
  | Repeat cs lo hi =>
      let avail := run_length cs (skipn pos text) in
      let n := match hi with Some h => Nat.min h avail | None => avail end in
      if (n <? lo)%nat then None else give_back k pos lo n caps
  | Seq r1 r2 => run r1 pos caps (fun p c => run r2 p c k)
  | Alt r1 r2 =>
      match run r1 pos caps k with
      | Some res => Some res
      | None => run r2 pos caps k
      end
  | Group g r1 =>
      run r1 pos caps
        (fun p c => k p (<[Nat.pred g := (Z.of_nat pos, Z.of_nat p)]> c))
  end.

(** The end of the pattern: an empty match is refused where the previous
    match was empty and ended. *)
Definition accept (from : nat) (must_advance : bool) : cont :=
  fun p c => if must_advance && (p =? from)%nat then None else Some (p, c).

(** The first position from [pos] on at which the pattern matches, trying
    [n] further positions after [pos]. *)
Fixpoint search (r : regex) (ngroups : nat) (n pos : nat) (must_advance : bool)
  : option (nat * nat * marks) :=
  match run r pos (replicate ngroups (-1, -1)) (accept pos must_advance) with
  | Some (e, caps) => Some (pos, e, caps)
  | None =>
      match n with
      | O => None
      | Datatypes.S n' => search r ngroups n' (Datatypes.S pos) false
      end
  end.

(** The successive searches of the iterator; [None] when [fuel] runs out
    before the subject is exhausted. *)
Fixpoint scan (r : regex) (ngroups : nat) (fuel pos : nat) (must_advance : bool)
  : option (list (nat * nat * marks)) :=
  match fuel with
  | O => None
  | Datatypes.S fuel' =>
      match search r ngroups (length text - pos) pos must_advance with
      | None => Some []
      | Some (s, e, caps) =>
          match scan r ngroups fuel' e (e =? s)%nat with
          | Some rest => Some ((s, e, caps) :: rest)
          | None => None
          end
      end
  end.

End Matching.

Definition to_match (subject : string) (m : nat * nat * marks) : re.Match :=
  re.mkMatch subject (Z.of_nat (fst (fst m)), Z.of_nat (snd (fst m))) (snd m).

(** [re.finditer] on the fragment. Two searches at most end at each
    position of the subject, which bounds the fuel. *)
Definition finditer (pattern subject : string) (ignorecase : bool)
  : result (list re.Match) :=
  match parse pattern with
  | None => Raise re_error
  | Some (r, ngroups) =>
      let text := list_ascii_of_string subject in
      match scan text ignorecase r ngroups (2 * length text + 2) 0 false with
      | Some found => Ok (map (to_match subject) found)
      | None => Raise re_error
      end
  end.

End sre.

(** * Vocabulary of the statements *)

(** ** Reading the annotation loops as functions on lists *)

(** The annotation a match proposes for a rule with label [lbl] and group
    [g]: the one built on line 174 when both offsets exist. *)
Definition candidate_of (lbl : string) (g : Z) (m : re.Match)
  : list Annotation :=
  match re.start m g, re.end_ m g with
  | Ok s, Ok e => [mkAnnotation s e lbl]
  | _, _ => []
  end.

(** The annotations a rule proposes on a text, in the order of its
    matches. *)
Definition rule_candidates
  (finditer : string -> string -> bool -> result (list re.Match))
  (example_text : string) (label_pattern : LabelPattern) : list Annotation :=
  match select_matcher finditer label_pattern example_text (Some []),
        select_group label_pattern with
  | Ok (Some ms), Ok g => flat_map (candidate_of (label_ label_pattern) g) ms
  | _, _ => []
  end.

(** [grows old new]: [new] is [old] followed by annotations that each
    passed the test of [_AddAnnotation] against everything before them. *)
Inductive grows (old : list Annotation) : list Annotation -> Prop :=
| grows_refl : grows old old
| grows_snoc new a :
    grows old new ->
    existsb (_HasOverlap a) new = false ->
    grows old (new ++ [a]).

(** ** Reading the parser loop as a function on lists *)

(** The rule a row stands for once it passed the checks of lines 206-218:
    three fields or more, pattern and label not empty after trimming. *)
Definition rule_of_row (r : csv_row) : option LabelPattern :=
  match fields r with
  | f0 :: f1 :: f2 :: rest =>
      let p := Py.strip f0 in
      let l := Py.strip f1 in
      let m := Py.lower (Py.strip f2) in
      let g := match rest with f3 :: _ => Py.strip f3 | [] => ""%string end in
      if (String.length p =? 0)%nat || (String.length l =? 0)%nat then None
      else Some (mkLabelPattern p l (if in_modes m then m else EXACT_MATCH) g)
  | _ => None
  end.

Definition key_of (lp : LabelPattern) : string * string :=
  (pattern lp, matching_mode lp).

(** The label check of lines 225-232. *)
Definition label_too_long (limit : option Z) (lp : LabelPattern) : bool :=
  match Py.match_word_run (label_ lp) with
  | Some w => exceeds (Z.of_nat (String.length w)) limit
  | None => false
  end.

(** A row that passes every check on its own. *)
Definition valid_rule (limit : option Z) (r : csv_row) : option LabelPattern :=
  match rule_of_row r with
  | Some lp => if label_too_long limit lp then None else Some lp
  | None => None
  end.

(** First occurrence wins: the valid rows, in order, without those whose
    pattern and mode an earlier kept rule already has. *)
Fixpoint keep_first (limit : option Z) (rows : list csv_row)
  (kept : list LabelPattern) : list LabelPattern :=
  match rows with
  | [] => kept
  | r :: rows' =>
      match valid_rule limit r with
      | Some lp =>
          if existsb (fun k => bool_decide (key_of k = key_of lp)) kept
          then keep_first limit rows' kept
          else keep_first limit rows' (kept ++ [lp])
      | None => keep_first limit rows' kept
      end
  end.

(** No row has exactly two fields. *)
Definition no_two_field_row (rows : list csv_row) : Prop :=
  Forall (fun r => length (fields r) <> 2%nat) rows.

(** The dictionary [pattern_and_mode] holds the keys of the rules kept so
    far, and nothing else. *)
Definition registered (acc : list LabelPattern * gmap (string * string) Z)
  : Prop :=
  forall k, is_Some (snd acc !! k) <-> k ∈ map key_of (fst acc).

(** ** Words in a text *)

(** Whether offset [i] of the text holds a word character. *)
Definition word_char_at (text : string) (i : Z) : bool :=
  (0 <=? i) && sre.word_at (list_ascii_of_string text) (Z.to_nat i).

(** The span from [s] to [e] lies within a larger word: a word character
    stands just before it or just after it. *)
Definition inside_larger_word (text : string) (s e : Z) : bool :=
  word_char_at text (s - 1) || word_char_at text e.

(** The characters of [p] stand in [text] from offset [i] on. *)
Definition occurs_at (p text : string) (i : nat) : Prop :=
  firstn (String.length p) (skipn i (list_ascii_of_string text)) =
  list_ascii_of_string p.

(** The pattern that matches the characters of [p] one after the other,
    then [r]. *)
Definition literals (p : list ascii) (r : sre.regex) : sre.regex :=
  fold_right (fun c acc => sre.Seq (sre.Char (sre.Literal c)) acc) r p.




(** ** Examples used in the statements *)

Definition annotation_record (s e : Z) (lbl : string) : annotation_json :=
  {| text_extraction :=
       {| text_segment_ := {| start_offset := s; end_offset := e |} |};
     display_name := lbl |}.

Definition example_of (text : string) (anns : list annotation_json) : Example :=
  {| annotations := anns; text_snippet := {| content := text |} |}.

Definition flight_text : string := "Book a flight to Paris tomorrow".

Definition flight_rules : list LabelPattern :=
  [mkLabelPattern "Paris" "CITY" "e" "";
   mkLabelPattern "flight" "TRANSPORT" "e" ""].

(** The same rules with each pattern written as a capture group. *)
Definition flight_rules_grouped : list LabelPattern :=
  [mkLabelPattern "(Paris)" "CITY" "e" "";
   mkLabelPattern "(flight)" "TRANSPORT" "e" ""].

Definition csv (n : nat) (row : list string) : csv_row :=
  {| line_num := n; fields := row |}.

(** ** Tactics for the statement monad *)

Ltac unfold_M :=
  unfold mbind, M_bind, mret, M_ret, lift, raise, emit, get_object,
    set_object in *.

(** Closes the goal of a statement that raised. *)
Ltac raised :=
  split; [first [reflexivity | assumption | congruence] | intros ? ?; discriminate].

(** * The file-level functions *)

(** ** More of Python's strings *)

Module builtins.

(** The double quote and the line feed. *)
Definition quote : string := String "034"%char EmptyString.
Definition newline : string := String "010"%char EmptyString.

(** [bool(s)] for a [str]. *)
Definition truthy (s : string) : bool := negb (String.length s =? 0)%nat.

(** [str(n)] and ['%d' % n] for an [int]. An [int] is printed whatever its
    size: the limit that recent interpreters put on the number of digits of
    a converted integer (4300 by default) is not modelled. *)
Definition str (n : Z) : string := NilZero.string_of_int (Z.to_int n).

(** [sep.join(items)] *)
Fixpoint join (sep : string) (items : list string) : string :=
  match items with
  | [] => ""
  | x :: rest =>
      match rest with
      | [] => x
      | _ :: _ => x +:+ sep +:+ join sep rest
      end
  end.

(** A slice bound as Python reads it on a sequence of length [n]. *)
Definition clamp (n i : Z) : Z :=
  if i <? 0 then Z.max (i + n) 0 else Z.min i n.

(** [s[i:j]] for [int] bounds. *)
Definition slice (s : string) (i j : Z) : string :=
  let n := Z.of_nat (String.length s) in
  let i := clamp n i in
  let j := clamp n j in
  substring (Z.to_nat i) (Z.to_nat (j - i)) s.

(** [s[i:]] *)
Definition slice_from (s : string) (i : Z) : string :=
  slice s i (Z.of_nat (String.length s)).

(** [s.replace(old, new)] for a one-character [old]. *)
Fixpoint replace (old : ascii) (new : string) (s : string) : string :=
  match s with
  | EmptyString => EmptyString
  | String c s' =>
      if Ascii.eqb c old then new +:+ replace old new s'
      else String c (replace old new s')
  end.

(** [s.rfind(c)] for a one-character [c]: the last index, or -1. *)
Definition rfind (c : ascii) (s : string) : Z :=
  snd (fold_left
         (fun acc ch => (fst acc + 1, if Ascii.eqb ch c then fst acc else snd acc))
         (list_ascii_of_string s) (0, -1)).

End builtins.

(** ** [os.path] on POSIX *)

Module posixpath.

Definition sep : ascii := "/"%char.
Definition extsep : ascii := "."%char.

(** [os.path.basename(p)] *)
Definition basename (p : string) : string :=
  builtins.slice_from p (builtins.rfind sep p + 1).

(** [os.path.splitext(p)]: the extension starts at the last dot of the last
    component, unless only dots stand before it in that component. *)
Definition splitext (p : string) : string * string :=
  let sepIndex := builtins.rfind sep p in
  let dotIndex := builtins.rfind extsep p in
  if (dotIndex >? sepIndex)
     && existsb (fun ch => negb (Ascii.eqb ch extsep))
          (list_ascii_of_string (builtins.slice p (sepIndex + 1) dotIndex))
  then (builtins.slice p 0 dotIndex, builtins.slice_from p dotIndex)
  else (p, ""%string).

(** [os.path.join(a, b)] *)
Definition join (a b : string) : string :=
  let b_starts_with_sep :=
    match b with
    | String c _ => Ascii.eqb c sep
    | EmptyString => false
    end in
  let a_ends_with_sep :=
    match List.last (map Some (list_ascii_of_string a)) None with
    | Some c => Ascii.eqb c sep
    | None => false
    end in
  if b_starts_with_sep then b
  else if negb (builtins.truthy a) || a_ends_with_sep then a +:+ b
  else a +:+ String sep b.

End posixpath.


(** ** Exceptions and results of the file-level functions *)

(** The exceptions met above the annotation core. [NotModelled] stands for
    behaviour this development does not describe: a JSON leaf of another
    type than the example format gives it, a number with a fraction or an
    exponent, a character beyond code point 255. *)
Inductive error : Type :=
| Core (e : exn)
| KeyError (key : string)
| AttributeError
| JSONDecodeError
| FileNotFoundError
| OSError
| ImportError
| Exception (msg : string)
| NotModelled.

Inductive outcome (A : Type) : Type :=
| Returns (a : A)
| Raises (e : error).
Arguments Returns {A} a.
Arguments Raises {A} e.

#[global] Instance outcome_ret : MRet outcome := fun A (a : A) => Returns a.

#[global] Instance outcome_bind : MBind outcome :=
  fun A B (k : A -> outcome B) (c : outcome A) =>
    match c with
    | Returns a => k a
    | Raises e => Raises e
    end.

(** [[f(x) for x in xs]] where [f] can raise. *)
Fixpoint traverse {A B : Type} (f : A -> outcome B) (xs : list A)
  : outcome (list B) :=
  match xs with
  | [] => Returns []
  | x :: xs' => y ← f x; ys ← traverse f xs'; Returns (y :: ys)
  end.

(** ** JSON documents *)

Module json.

(** What [json.loads] builds: [None], [bool], [int], [str], [list] and
    [dict]; a [dict] is the list of its items in insertion order. *)
#[warnings="-register-all"]
Inductive value : Type :=
| Null
| Boolean (b : bool)
| Int (n : Z)
| Str (s : string)
| Arr (items : list value)
| Obj (members : list (string * value)).

Definition hex_digit (n : Z) : ascii :=
  nth (Z.to_nat n) (list_ascii_of_string "0123456789abcdef") "0"%char.

(** The replacement of one character inside a string literal, as
    [ESCAPE_DCT] of [json.encoder] has it. *)
Definition escape (c : ascii) : string :=
  let n := Py.ord c in
  if n =? 34 then "\" +:+ builtins.quote
  else if n =? 92 then "\\"
  else if n =? 8 then "\b"
  else if n =? 9 then "\t"
  else if n =? 10 then "\n"
  else if n =? 12 then "\f"
  else if n =? 13 then "\r"
  else if n <? 32 then
    "\u00" +:+ String (hex_digit (n / 16)) (String (hex_digit (n mod 16)) EmptyString)
  else String c EmptyString.

Fixpoint escape_all (s : string) : string :=
  match s with
  | EmptyString => EmptyString
  | String c s' => escape c +:+ escape_all s'
  end.

(** [encode_basestring(s)], the string literal under [ensure_ascii=False]. *)
Definition encode_basestring (s : string) : string :=
  builtins.quote +:+ escape_all s +:+ builtins.quote.

(** [json.dumps(v, ensure_ascii=False)] *)
Fixpoint dumps (v : value) : string :=
  match v with
  | Null => "null"
  | Boolean b => if b then "true" else "false"
  | Int n => builtins.str n
  | Str s => encode_basestring s
  | Arr items => "[" +:+ builtins.join ", " (map dumps items) +:+ "]"
  | Obj members =>
      "{" +:+ builtins.join ", "
                (map (fun m => match m with
                               | (k, x) => encode_basestring k +:+ ": " +:+ dumps x
                               end) members)
          +:+ "}"
  end.

Fixpoint lookup (members : list (string * value)) (key : string) : option value :=
  match members with
  | [] => None
  | (k, x) :: rest => if String.eqb k key then Some x else lookup rest key
  end.

(** [v[key]] for a [str] key. *)
Definition getitem (v : value) (key : string) : outcome value :=
  match v with
  | Obj members =>
      match lookup members key with
      | Some x => Returns x
      | None => Raises (KeyError key)
      end
  | _ => Raises (Core TypeError)
  end.

Fixpoint store (members : list (string * value)) (key : string) (x : value)
  : list (string * value) :=
  match members with
  | [] => [(key, x)]
  | (k, y) :: rest =>
      if String.eqb k key then (k, x) :: rest else (k, y) :: store rest key x
  end.

(** [v[key] = x] on a [dict]: the key keeps its place, a new key goes last. *)
Definition setitem (v : value) (key : string) (x : value) : value :=
  match v with
  | Obj members => Obj (store members key x)
  | _ => v
  end.

(** [for a in v]: the items of a list, the keys of a dict, the characters
    of a string. *)
Definition iterate (v : value) : outcome (list value) :=
  match v with
  | Arr items => Returns items
  | Obj members => Returns (map (fun m => Str (fst m)) members)
  | Str s => Returns (map (fun c => Str (String c EmptyString)) (list_ascii_of_string s))
  | _ => Raises (Core TypeError)
  end.

Definition as_int (v : value) : outcome Z :=
  match v with
  | Int n => Returns n
  | _ => Raises NotModelled
  end.

Definition as_str (v : value) : outcome string :=
  match v with
  | Str s => Returns s
  | _ => Raises NotModelled
  end.

(** *** A reader for the documents of this development

    [json.loads] on the fragment [value] covers. Numbers with a fraction
    or an exponent, [NaN] and the infinities, and escapes beyond code
    point 255 are reported as [NotModelled]. An integer is read whatever
    the number of its digits, as the interpreters without a limit on it
    do. *)

Inductive scanned (A : Type) : Type :=
| Scanned (a : A) (rest : list ascii)
| Malformed
| Unsupported.
Arguments Scanned {A} a rest.
Arguments Malformed {A}.
Arguments Unsupported {A}.

Definition is_whitespace (c : ascii) : bool :=
  let n := Py.ord c in
  (n =? 32) || (n =? 9) || (n =? 10) || (n =? 13).

Fixpoint skip_whitespace (s : list ascii) : list ascii :=
  match s with
  | c :: s' => if is_whitespace c then skip_whitespace s' else s
  | [] => []
  end.

Definition hex_value (c : ascii) : option Z :=
  let n := Py.ord c in
  if Py.between 48 57 n then Some (n - 48)
  else if Py.between 97 102 n then Some (n - 87)
  else if Py.between 65 70 n then Some (n - 55)
  else None.

(** The character a backslash escape other than [\u] stands for. *)
Definition unescape (c : ascii) : option ascii :=
  match c with
  | "034"%char => Some "034"%char
  | "\"%char => Some "\"%char
  | "/"%char => Some "/"%char
  | "b"%char => Some "008"%char
  | "f"%char => Some "012"%char
  | "n"%char => Some "010"%char
  | "r"%char => Some "013"%char
  | "t"%char => Some "009"%char
  | _ => None
  end.

Definition prepend (c : ascii) (r : scanned string) : scanned string :=
  match r with
  | Scanned s rest => Scanned (String c s) rest
  | Malformed => Malformed
  | Unsupported => Unsupported
  end.

(** The string literal whose opening quote was just read. *)
Fixpoint scanstring (s : list ascii) : scanned string :=
  match s with
  | [] => Malformed
  | c :: s1 =>
      if Py.ord c =? 34 then Scanned EmptyString s1
      else if Py.ord c =? 92 then
        match s1 with
        | [] => Malformed
        | e :: s2 =>
            if Ascii.eqb e "u"%char then
              match s2 with
              | h1 :: h2 :: h3 :: h4 :: s6 =>
                  match hex_value h1, hex_value h2, hex_value h3, hex_value h4 with
                  | Some a, Some b, Some c, Some d =>
                      let n := ((a * 16 + b) * 16 + c) * 16 + d in
                      if n <? 256
                      then prepend (ascii_of_nat (Z.to_nat n)) (scanstring s6)
                      else Unsupported
                  | _, _, _, _ => Malformed
                  end
              | _ => Malformed
              end
            else
              match unescape e with
              | Some c' => prepend c' (scanstring s2)
              | None => Malformed
              end
        end
      else if Py.ord c <? 32 then Malformed
      else prepend c (scanstring s1)
  end.

Fixpoint digits (s : list ascii) : list ascii * list ascii :=
  match s with
  | c :: s' =>
      if Py.isdecimal c
      then match digits s' with (ds, rest) => (c :: ds, rest) end
      else ([], s)
  | [] => ([], [])
  end.

Fixpoint decimal (ds : list ascii) (acc : Z) : Z :=
  match ds with
  | [] => acc
  | c :: ds' => decimal ds' (10 * acc + (Py.ord c - 48))
  end.

Definition starts_with (p : string) (s : list ascii) : bool :=
  bool_decide (firstn (String.length p) s = list_ascii_of_string p).

(** Whether a fraction or an exponent follows the integer part. *)
Definition is_float_tail (s : list ascii) : bool :=
  match s with
  | [] => false
  | c :: s1 =>
      if Ascii.eqb c "."%char then
        match s1 with
        | d :: _ => Py.isdecimal d
        | [] => false
        end
      else if Ascii.eqb c "e"%char || Ascii.eqb c "E"%char then
        match s1 with
        | d :: s2 =>
            if Ascii.eqb d "+"%char || Ascii.eqb d "-"%char then
              match s2 with
              | d' :: _ => Py.isdecimal d'
              | [] => false
              end
            else Py.isdecimal d
        | [] => false
        end
      else false
  end.

(** An integer: an optional minus sign, then [0] or digits that do not
    start with [0]. *)
Definition scan_number (s : list ascii) : scanned value :=
  let negative := match s with c :: _ => Ascii.eqb c "-"%char | [] => false end in
  let body := if negative then tl s else s in
  match body with
  | [] => Malformed
  | c :: body' =>
      if Py.isdecimal c then
        let ds := if Ascii.eqb c "0"%char then ([c], body') else digits body in
        if is_float_tail (snd ds) then Unsupported
        else Scanned (Int ((if negative then -1 else 1) * decimal (fst ds) 0)) (snd ds)
      else Malformed
  end.

Fixpoint scan_once (fuel : nat) (s : list ascii) {struct fuel} : scanned value :=
  match fuel with
  | O => Unsupported
  | Datatypes.S fuel' =>
      match s with
      | [] => Malformed
      | c :: s1 =>
          if Py.ord c =? 34 then
            match scanstring s1 with
            | Scanned str rest => Scanned (Str str) rest
            | Malformed => Malformed
            | Unsupported => Unsupported
            end
          else if Ascii.eqb c "{"%char then
            match skip_whitespace s1 with
            | [] => Malformed
            | c1 :: rest =>
                if Ascii.eqb c1 "}"%char then Scanned (Obj []) rest
                else scan_members fuel' (c1 :: rest) []
            end
          else if Ascii.eqb c "["%char then
            match skip_whitespace s1 with
            | [] => Malformed
            | c1 :: rest =>
                if Ascii.eqb c1 "]"%char then Scanned (Arr []) rest
                else scan_items fuel' (c1 :: rest) []
            end
          else if starts_with "null" s then Scanned Null (skipn 4 s)
          else if starts_with "true" s then Scanned (Boolean true) (skipn 4 s)
          else if starts_with "false" s then Scanned (Boolean false) (skipn 5 s)
          else if starts_with "NaN" s || starts_with "Infinity" s
                  || starts_with "-Infinity" s then Unsupported
          else scan_number s
      end
  end
with scan_items (fuel : nat) (s : list ascii) (acc : list value) {struct fuel}
  : scanned value :=
  match fuel with
  | O => Unsupported
  | Datatypes.S fuel' =>
      match scan_once fuel' s with
      | Scanned x rest =>
          match skip_whitespace rest with
          | [] => Malformed
          | c :: rest1 =>
              if Ascii.eqb c "]"%char then Scanned (Arr (acc ++ [x])) rest1
              else if Ascii.eqb c ","%char
              then scan_items fuel' (skip_whitespace rest1) (acc ++ [x])
              else Malformed
          end
      | Malformed => Malformed
      | Unsupported => Unsupported
      end
  end
with scan_members (fuel : nat) (s : list ascii) (acc : list (string * value))
  {struct fuel} : scanned value :=
  match fuel with
  | O => Unsupported
  | Datatypes.S fuel' =>
      match s with
      | [] => Malformed
      | c :: s1 =>
          if Py.ord c =? 34 then
            match scanstring s1 with
            | Scanned key rest =>
                match skip_whitespace rest with
                | [] => Malformed
                | c1 :: rest1 =>
                    if Ascii.eqb c1 ":"%char then
                      match scan_once fuel' (skip_whitespace rest1) with
                      | Scanned x rest2 =>
                          match skip_whitespace rest2 with
                          | [] => Malformed
                          | c2 :: rest3 =>
                              if Ascii.eqb c2 "}"%char
                              then Scanned (Obj (store acc key x)) rest3
                              else if Ascii.eqb c2 ","%char
                              then scan_members fuel' (skip_whitespace rest3)
                                     (store acc key x)
                              else Malformed
                          end
                      | Malformed => Malformed
                      | Unsupported => Unsupported
                      end
                    else Malformed
                end
            | Malformed => Malformed
            | Unsupported => Unsupported
            end
          else Malformed
      end
  end.

(** [json.loads(s)] on the fragment. *)
Definition loads (s : string) : outcome value :=
  let text := list_ascii_of_string s in
  match scan_once (2 * length text + 2) (skip_whitespace text) with
  | Scanned v rest =>
      match skip_whitespace rest with
      | [] => Returns v
      | _ :: _ => Raises JSONDecodeError
      end
  | Malformed => Raises JSONDecodeError
  | Unsupported => Raises NotModelled
  end.

End json.

(** ** Examples as JSON documents *)

(** The three reads of one annotation, in the order of lines 131-133 (and
    339-341). *)
Definition annotation_of_value (a : json.value) : outcome annotation_json :=
  te ← json.getitem a "text_extraction";
  ts ← json.getitem te "text_segment";
  s ← json.getitem ts "start_offset";
  te' ← json.getitem a "text_extraction";
  ts' ← json.getitem te' "text_segment";
  e ← json.getitem ts' "end_offset";
  l ← json.getitem a "display_name";
  s ← json.as_int s;
  e ← json.as_int e;
  l ← json.as_str l;
  Returns {| text_extraction :=
               {| text_segment_ := {| start_offset := s; end_offset := e |} |};
             display_name := l |}.

(** The reads of lines 129-135 (and 337-342) on the object [json.loads]
    built: the text first, then the annotations one after the other. *)
Definition example_of_value (example : json.value) : outcome Example :=
  snippet ← json.getitem example "text_snippet";
  text ← json.getitem snippet "content";
  anns ← json.getitem example "annotations";
  items ← json.iterate anns;
  anns ← traverse annotation_of_value items;
  text ← json.as_str text;
  Returns {| annotations := anns; text_snippet := {| content := text |} |}.

(** The dictionary [_AnnotationToJson] returns. *)
Definition value_of_annotation (a : annotation_json) : json.value :=
  json.Obj
    [("text_extraction"%string,
      json.Obj
        [("text_segment"%string,
          json.Obj
            [("start_offset"%string,
              json.Int (start_offset (text_segment_ (text_extraction a))));
             ("end_offset"%string,
              json.Int (end_offset (text_segment_ (text_extraction a))))])]);
     ("display_name"%string, json.Str (display_name a))].

(** [_ConvertOneExample(example_content)] *)
Definition _ConvertOneExample (example_content : string) : string :=
  let json_obj :=
    json.Obj
      [("annotations"%string, json.Arr []);
       ("text_snippet"%string,
        json.Obj [("content"%string, json.Str example_content)])] in
  json.dumps json_obj +:+ builtins.newline.


(** ** Module state, the operating system and the statement monad *)

(** The class [FLAGS], whose attributes the module assigns and reads as
    global variables. *)
Module FLAGS.
Record t : Type := mk {
  split : bool;
  dictionary : option string;
  output_dir : string;
  one_document_per_line : bool;
  export_format : string;
  skip_blank_annotations : bool
}.

Definition set_split (v : bool) (f : t) : t :=
  mk v (dictionary f) (output_dir f) (one_document_per_line f)
    (export_format f) (skip_blank_annotations f).
Definition set_dictionary (v : option string) (f : t) : t :=
  mk (split f) v (output_dir f) (one_document_per_line f)
    (export_format f) (skip_blank_annotations f).
Definition set_output_dir (v : string) (f : t) : t :=
  mk (split f) (dictionary f) v (one_document_per_line f)
    (export_format f) (skip_blank_annotations f).
Definition set_one_document_per_line (v : bool) (f : t) : t :=
  mk (split f) (dictionary f) (output_dir f) v
    (export_format f) (skip_blank_annotations f).
Definition set_export_format (v : string) (f : t) : t :=
  mk (split f) (dictionary f) (output_dir f) (one_document_per_line f)
    v (skip_blank_annotations f).
Definition set_skip_blank_annotations (v : bool) (f : t) : t :=
  mk (split f) (dictionary f) (output_dir f) (one_document_per_line f)
    (export_format f) v.
End FLAGS.

(** One item of the list [export] returns: [(text, {'entities': ...})] or
    [(tokens, tags)]. *)
Inductive exported : Type :=
| SpacyExample (text : string) (entities : list (Z * Z * string))
| BiluoExample (tokens tags : list string).

(** The records handed to [logging] by the file-level functions; [Logged]
    carries a record of the annotation core. [MaximumLengthRequired] is
    logged at level ERROR, the others at level INFO. *)
Inductive event : Type :=
| Logged (r : LogRecord)
| Converted (import_file full_output_jsonl extra_info : string)
| AnnotatingFiles (dictionary : string)
| Annotated (jsonl_local_path : string)
| MaximumLengthRequired.

Inductive encoding : Set := utf_8 | locale_encoding.

(** What iterating over a file opened for reading yields: its lines, and
    the exception that ends the iteration early, if any. *)
Record reading : Type := mkReading {
  yielded : list string;
  failure : option error
}.

Definition whole (lines : list string) : reading := mkReading lines None.

(** The operating system and the libraries outside the standard one, as
    the module calls them. [World] is the state of the file system and
    [Handle] an open file. Reading does not change the world. *)
Class OS (World Handle : Type) : Type := {
  (* iterating over io.open(path, 'r', encoding=...) *)
  os_read : World -> string -> encoding -> outcome reading;
  (* the rows of csv.reader over io.open(path, 'r', encoding='utf-8') *)
  os_csv_reader : World -> string -> outcome (list csv_row);
  os_isfile : World -> string -> bool;
  os_getsize : World -> string -> outcome Z;
  (* io.open(path, 'w', encoding=...) *)
  os_open_w : string -> encoding -> World -> outcome Handle * World;
  os_write : Handle -> string -> World -> outcome unit * World;
  os_close : Handle -> World -> outcome unit * World;
  os_copyfile : string -> string -> World -> outcome unit * World;
  (* pathlib.Path(path).mkdir(exist_ok=True) *)
  os_mkdir : string -> World -> outcome unit * World;
  (* pickle.dump(result, handle) inside with open(path, 'wb') as handle *)
  os_pickle_dump : string -> list exported -> World -> outcome unit * World;
  (* lines 323-325: the two imports and spacy.load *)
  os_import_spacy : World -> outcome unit * World;
  (* the tokens of nlp(text) and biluo_tags_from_offsets on them *)
  os_biluo : string -> list (Z * Z * string) -> outcome (list string * list string)
}.

Record state (World : Type) : Type := mkState {
  st_flags : FLAGS.t;
  st_world : World;
  st_log : list event
}.
Arguments mkState {World} _ _ _.
Arguments st_flags {World} _.
Arguments st_world {World} _.
Arguments st_log {World} _.

(** A statement of a file-level function. *)
Definition IO (World A : Type) : Type := state World -> outcome A * state World.

#[global] Instance IO_ret {World : Type} : MRet (IO World) :=
  fun A (a : A) s => (Returns a, s).

#[global] Instance IO_bind {World : Type} : MBind (IO World) :=
  fun A B (k : A -> IO World B) (c : IO World A) s =>
    match c s with
    | (Returns a, s') => k a s'
    | (Raises e, s') => (Raises e, s')
    end.

Section Statements.

Context {World : Type}.

Definition fail {A : Type} (e : error) : IO World A := fun s => (Raises e, s).

Definition get_flags : IO World FLAGS.t := fun s => (Returns (st_flags s), s).

(** [FLAGS.field = v], with [f] the update of that field. *)
Definition assign_flag (f : FLAGS.t -> FLAGS.t) : IO World unit :=
  fun s => (Returns tt, mkState (f (st_flags s)) (st_world s) (st_log s)).

Definition log_event (e : event) : IO World unit :=
  fun s => (Returns tt, mkState (st_flags s) (st_world s) (st_log s ++ [e])).

(** A call that reads the world. *)
Definition ask {A : Type} (f : World -> outcome A) : IO World A :=
  fun s => (f (st_world s), s).

(** A call that changes the world. *)
Definition perform {A : Type} (op : World -> outcome A * World) : IO World A :=
  fun s =>
    match op (st_world s) with
    | (r, w) => (r, mkState (st_flags s) w (st_log s))
    end.

(** [try: c finally: cleanup] *)
Definition finally {A : Type} (c : IO World A) (cleanup : IO World unit)
  : IO World A :=
  fun s =>
    match c s with
    | (r, s') =>
        match cleanup s' with
        | (Returns _, s'') => (r, s'')
        | (Raises e, s'') => (Raises e, s'')
        end
    end.

(** [for x in xs: acc = body(acc, x)] *)
Fixpoint for_in {A X : Type} (xs : list X) (body : A -> X -> IO World A) (acc : A)
  : IO World A :=
  match xs with
  | [] => mret acc
  | x :: xs' => acc' ← body acc x; for_in xs' body acc'
  end.

(** The same over the lines of a file. *)
Definition for_line_in {A : Type} (rd : reading) (body : A -> string -> IO World A)
  (acc : A) : IO World A :=
  acc' ← for_in (yielded rd) body acc;
  match failure rd with
  | None => mret acc'
  | Some e => fail e
  end.

(** A call into the annotation core on the object [object]: its records
    join the log, its exception propagates. *)
Definition call {St A : Type} (c : M St A) (object : St) : IO World (A * St) :=
  fun s =>
    match c (object, []) with
    | (r, (object', records)) =>
        let s' := mkState (st_flags s) (st_world s)
                    (st_log s ++ map Logged records) in
        match r with
        | Ok a => (Returns (a, object'), s')
        | Raise e => (Raises (Core e), s')
        end
    end.

Context {Handle : Type} `{!OS World Handle}.

(** [with io.open(path, 'w', encoding=...) as f: body(f)] *)
Definition with_open_w {A : Type} (path : string) (enc : encoding)
  (body : Handle -> IO World A) : IO World A :=
  f ← perform (os_open_w path enc);
  finally (body f) (perform (os_close f)).

(** [f.writelines(lines)] *)
Definition writelines (f : Handle) (lines : list string) : IO World unit :=
  for_in lines (fun _ line => perform (os_write f line)) tt.

End Statements.

(** ** The file-level functions *)

(** [limit and n >= limit] for a limit that is [None] or an [int]. *)
Definition reaches (n : Z) (limit : option Z) : bool :=
  match limit with
  | Some l => negb (l =? 0) && (n >=? l)
  | None => false
  end.

(** The local variables of [ConvertOneFile]. *)
Record conversion : Type := mkConversion {
  json_lines : list string;
  example_content : string;
  blank_lines : Z;
  long_lines : Z
}.

(** Lines 94-98. *)
Definition extra_info (blank_lines long_lines : Z) : string :=
  if (blank_lines =? 0) && (long_lines =? 0) then ""
  else
    " (with"
    +:+ (if blank_lines =? 0 then ""
         else " " +:+ builtins.str blank_lines +:+ " blank lines")
    +:+ (if long_lines =? 0 then ""
         else " " +:+ builtins.str long_lines +:+ " long lines")
    +:+ " skipped)".

(** The key under which [_AnnotateExample] stores its result. *)
Definition annotations_key : string := "annotations".

Section Files.

(** [re.finditer] and [json.loads], of the standard library. *)
Variable finditer : string -> string -> bool -> result (list re.Match).
Variable loads : string -> outcome json.value.

(** The module-level limits ([None] in the source). *)
Variable MAX_EXAMPLE_SIZE_IN_BYTES : option Z.
Variable MAX_ANNOTATION_TOKENS : option Z.
Variable MAX_LABEL_LENGTH : option Z.

Context {World Handle : Type} `{!OS World Handle}.

(** Lines 68-86: the body of the loop over the lines of the file. *)
Definition convert_line (auto_split : bool) (acc : conversion) (line : string)
  : IO World conversion :=
  let line := Py.strip line in
  if negb (builtins.truthy line) then
    mret (mkConversion (json_lines acc) (example_content acc)
            (blank_lines acc + 1) (long_lines acc))
  else if exceeds (Z.of_nat (String.length line)) MAX_EXAMPLE_SIZE_IN_BYTES then
    mret (mkConversion (json_lines acc) (example_content acc)
            (blank_lines acc) (long_lines acc + 1))
  else
    flags ← get_flags;
    if FLAGS.one_document_per_line flags then
      mret (mkConversion (json_lines acc ++ [_ConvertOneExample line])
              (example_content acc) (blank_lines acc) (long_lines acc))
    else
      let acc :=
        if auto_split
           && builtins.truthy (example_content acc)
           && reaches (Z.of_nat (String.length (example_content acc))
                       + Z.of_nat (String.length line))
                MAX_EXAMPLE_SIZE_IN_BYTES
        then mkConversion
               (json_lines acc ++ [_ConvertOneExample (example_content acc)])
               "" (blank_lines acc) (long_lines acc)
        else acc in
      mret (mkConversion (json_lines acc)
              (builtins.join builtins.newline
                 (List.filter builtins.truthy [example_content acc; line]))
              (blank_lines acc) (long_lines acc)).

(** [ConvertOneFile(import_file, auto_split, full_output_jsonl)] *)
Definition ConvertOneFile (import_file : string) (auto_split : bool)
  (full_output_jsonl : string) : IO World unit :=
  rd ← ask (fun w => os_read w import_file utf_8);
  acc ← for_line_in rd (convert_line auto_split) (mkConversion [] "" 0 0);
  let json_lines :=
    if builtins.truthy (example_content acc)
    then json_lines acc ++ [_ConvertOneExample (example_content acc)]
    else json_lines acc in
  with_open_w full_output_jsonl utf_8
    (fun output_file => writelines output_file json_lines);;
  log_event (Converted import_file full_output_jsonl
               (extra_info (blank_lines acc) (long_lines acc))).

(** Lines 290-314: the body of the loop of [ConvertFiles], on the list
    [jsonl_files] and the dictionary [filename_root_dict]. *)
Definition convert_file (temp_dir : string)
  (acc : list string * gmap string Z) (import_file : string)
  : IO World (list string * gmap string Z) :=
  let basename := posixpath.basename import_file in
  let filename_root := fst (posixpath.splitext basename) in
  let filename_ext := snd (posixpath.splitext basename) in
  let num_occur :=
    match snd acc !! filename_root with
    | Some n => n + 1
    | None => 1
    end in
  let output_jsonl :=
    match snd acc !! filename_root with
    | Some _ => filename_root +:+ builtins.str num_occur +:+ ".jsonl"
    | None => filename_root +:+ ".jsonl"
    end in
  let filename_root_dict := <[filename_root := num_occur]> (snd acc) in
  let full_output_jsonl := posixpath.join temp_dir output_jsonl in
  if String.eqb filename_ext ".jsonl" then
    perform (os_copyfile import_file full_output_jsonl);;
    mret (fst acc ++ [full_output_jsonl], filename_root_dict)
  else
    filesize ← ask (fun w => os_getsize w import_file);
    flags ← get_flags;
    if exceeds filesize MAX_EXAMPLE_SIZE_IN_BYTES && negb (FLAGS.split flags) then
      (* import_file.original_filepath, on a str *)
      fail AttributeError
    else
      ConvertOneFile import_file (FLAGS.split flags) full_output_jsonl;;
      mret (fst acc ++ [full_output_jsonl], filename_root_dict).

(** [ConvertFiles(import_files, output_dir)] *)
Definition ConvertFiles (import_files : list string) (output_dir : string)
  : IO World (list string) :=
  acc ← for_in import_files (convert_file output_dir) ([], ∅);
  mret (fst acc).

(** [_ParseDictionary(file_path)] with the file it opens. *)
Definition parse_dictionary_file (file_path : string) : IO World (list LabelPattern) :=
  rows ← ask (fun w => os_csv_reader w file_path);
  r ← call (_ParseDictionary MAX_LABEL_LENGTH file_path rows) tt;
  mret (fst r).

(** Lines 264-266: one line of a jsonl file, read, annotated and written
    back as a line. *)
Definition annotate_line (label_patterns : list LabelPattern) (line : string)
  : IO World string :=
  example ← ask (fun _ => loads line);
  typed ← ask (fun _ => example_of_value example);
  r ← call (_AnnotateExample finditer MAX_ANNOTATION_TOKENS label_patterns) typed;
  let example :=
    json.setitem example annotations_key
      (json.Arr (map value_of_annotation (annotations (snd r)))) in
  mret (json.dumps example +:+ builtins.newline).

(** Lines 257-269: the body of the loop of [AnnotateFiles]. *)
Definition annotate_file (label_patterns : list LabelPattern) (import_file : string)
  : IO World unit :=
  let jsonl_local_path := import_file in
  is_file ← ask (fun w => Returns (os_isfile w jsonl_local_path));
  if negb (builtins.truthy jsonl_local_path) || negb is_file then mret tt
  else
    rd ← ask (fun w => os_read w jsonl_local_path utf_8);
    json_lines ←
      for_line_in rd
        (fun json_lines line =>
           json_line ← annotate_line label_patterns line;
           mret (json_lines ++ [json_line])) [];
    with_open_w jsonl_local_path utf_8
      (fun output_file =>
         writelines output_file json_lines;;
         log_event (Annotated jsonl_local_path)).

(** [AnnotateFiles(import_files)] *)
Definition AnnotateFiles (import_files : list string) : IO World (list string) :=
  flags ← get_flags;
  match FLAGS.dictionary flags with
  | None => mret import_files
  | Some dictionary =>
      if negb (builtins.truthy dictionary) then mret import_files
      else
        label_patterns ← parse_dictionary_file dictionary;
        match label_patterns with
        | [] => mret import_files
        | _ :: _ =>
            log_event (AnnotatingFiles dictionary);;
            for_in import_files
              (fun _ import_file => annotate_file label_patterns import_file) tt;;
            mret import_files
        end
  end.

(** Lines 334-355: the body of the loop over the lines of a file in
    [export]. [fcsv] is the binding of the variable of that name. *)
Definition export_line (export_format output_csv : string) (fcsv : option Handle)
  (new_examples : list exported) (example : string) : IO World (list exported) :=
  jsonl_example ← ask (fun _ => loads example);
  if String.eqb export_format "SPACY" || String.eqb export_format "BILUO" then
    typed ← ask (fun _ => example_of_value jsonl_example);
    let text := content (text_snippet typed) in
    let new_annotations :=
      map (fun a => (start_offset (text_segment_ (text_extraction a)),
                     end_offset (text_segment_ (text_extraction a)),
                     display_name a))
        (annotations typed) in
    (if builtins.truthy output_csv then
       let ann_value :=
         builtins.join builtins.newline
           (map (fun v => builtins.slice text (fst (fst v)) (snd (fst v))
                          +:+ " - " +:+ snd v)
              new_annotations) in
       match fcsv with
       | Some f =>
           perform (os_write f
                      (builtins.quote
                       +:+ builtins.replace "034"%char "" text
                       +:+ builtins.quote +:+ "," +:+ builtins.quote
                       +:+ ann_value
                       +:+ builtins.quote +:+ builtins.newline))
       | None => fail (Core UnboundLocalError)
       end
     else mret tt);;
    flags ← get_flags;
    if FLAGS.skip_blank_annotations flags
       && (Z.of_nat (length new_annotations) <=? 0)
    then mret new_examples
    else if String.eqb export_format "BILUO" then
      doc ← ask (fun _ => os_biluo text new_annotations);
      mret (new_examples ++ [BiluoExample (fst doc) (snd doc)])
    else
      mret (new_examples ++ [SpacyExample text new_annotations])
  else mret new_examples.

(** [export(jsonl_files, export_format, output_csv)] *)
Definition export (jsonl_files : list string) (export_format output_csv : string)
  : IO World (list exported) :=
  fcsv ← (if builtins.truthy output_csv
          then f ← perform (os_open_w output_csv locale_encoding); mret (Some f)
          else mret None);
  perform os_import_spacy;;
  new_examples ←
    for_in jsonl_files
      (fun new_examples file =>
         rd ← ask (fun w => os_read w file locale_encoding);
         for_line_in rd (export_line export_format output_csv fcsv) new_examples)
      [];
  match fcsv with
  | Some f => perform (os_close f)
  | None => fail (Core UnboundLocalError)
  end;;
  mret new_examples.

(** [generate(import_files, regex_file, export_format, export_dir,
    skip_blank_annotations, split, maximum_example_length)]. The
    assignment of line 377 binds a local variable of [generate]: the
    module-level limit stays what it was. *)
Definition generate (import_files : list string) (regex_file : option string)
  (export_format export_dir : string) (skip_blank_annotations split : bool)
  (maximum_example_length : option Z) : IO World (list exported) :=
  assign_flag (FLAGS.set_split split);;
  assign_flag (FLAGS.set_one_document_per_line true);;
  assign_flag (FLAGS.set_output_dir export_dir);;
  assign_flag (FLAGS.set_skip_blank_annotations skip_blank_annotations);;
  (if split then
     match maximum_example_length with
     | Some (Zpos _ as n) | Some (Zneg _ as n) =>
         let MAX_EXAMPLE_SIZE_IN_BYTES := n in mret tt
     | Some 0 | None =>
         log_event MaximumLengthRequired;;
         fail (Exception "Maximum Example Length required to split the examples")
     end
   else mret tt);;
  assign_flag (FLAGS.set_export_format export_format);;
  assign_flag (FLAGS.set_dictionary regex_file);;
  perform (os_mkdir export_dir);;
  flags ← get_flags;
  converted_files ← ConvertFiles import_files (FLAGS.output_dir flags);
  annotated_files ← AnnotateFiles converted_files;
  flags ← get_flags;
  result ← export annotated_files (FLAGS.export_format flags) "label-value.csv";
  (if String.eqb export_format "SPACY" then
     flags ← get_flags;
     perform (os_pickle_dump
                (posixpath.join (FLAGS.output_dir flags) "training_data_spacy.pickle")
                result)
   else mret tt);;
  mret result.

End Files.

(** ** A file system in memory

    An instance of [OS] on which the functions can be run: a file is its
    text, a handle is the path it was opened with, a dictionary file has
    one row per line with its fields separated by commas, a pickle is
    stored as an empty text, and spaCy loads but does not tokenize. *)

Module memfs.

Definition World : Type := gmap string string.
Definition Handle : Type := string.

(** The lines of a text, each with the line feed that ends it. *)
Fixpoint lines_of (text : list ascii) (line : list ascii) : list string :=
  match text with
  | [] =>
      match line with
      | [] => []
      | _ :: _ => [string_of_list_ascii (rev line)]
      end
  | c :: text' =>
      if Py.ord c =? 10
      then string_of_list_ascii (rev (c :: line)) :: lines_of text' []
      else lines_of text' (c :: line)
  end.

Fixpoint fields_of (line : list ascii) (field : list ascii) : list string :=
  match line with
  | [] => [string_of_list_ascii (rev field)]
  | c :: line' =>
      if Py.ord c =? 10 then fields_of line' field
      else if Ascii.eqb c ","%char
      then string_of_list_ascii (rev field) :: fields_of line' []
      else fields_of line' (c :: field)
  end.

Fixpoint rows_of (lines : list string) (n : nat) : list csv_row :=
  match lines with
  | [] => []
  | l :: lines' =>
      {| line_num := n; fields := fields_of (list_ascii_of_string l) [] |}
      :: rows_of lines' (Datatypes.S n)
  end.

Definition read (w : World) (path : string) : outcome string :=
  match w !! path with
  | Some text => Returns text
  | None => Raises FileNotFoundError
  end.

#[global] Instance os : OS World Handle := {|
  os_read w path _ :=
    text ← read w path;
    Returns (whole (lines_of (list_ascii_of_string text) []));
  os_csv_reader w path :=
    text ← read w path;
    Returns (rows_of (lines_of (list_ascii_of_string text) []) 1);
  os_isfile w path := bool_decide (is_Some (w !! path));
  os_getsize w path :=
    text ← read w path;
    Returns (Z.of_nat (String.length text));
  os_open_w path _ w := (Returns path, <[path := ""%string]> w);
  os_write f data w :=
    match w !! f with
    | Some text => (Returns tt, <[f := text +:+ data]> w)
    | None => (Raises OSError, w)
    end;
  os_close _ w := (Returns tt, w);
  os_copyfile src dst w :=
    match w !! src with
    | Some text => (Returns tt, <[dst := text]> w)
    | None => (Raises FileNotFoundError, w)
    end;
  os_mkdir _ w := (Returns tt, w);
  os_pickle_dump path _ w := (Returns tt, <[path := ""%string]> w);
  os_import_spacy w := (Returns tt, w);
  os_biluo _ _ := Raises NotModelled
|}.

(** A state with the flags [flags], no file but [files] and an empty
    log. *)
Definition started (flags : FLAGS.t) (files : list (string * string))
  : state World :=
  mkState flags (list_to_map files) [].

(** The state in which [generate] has not run yet. *)
Definition initial (files : list (string * string)) : state World :=
  started (FLAGS.mk false None "" true "" true) files.

End memfs.

(** ** Vocabulary of the statements on files *)

(** The JSON object of an example in the format [_ConvertOneExample]
    writes, and its line in a jsonl file. *)
Definition value_of_example (e : Example) : json.value :=
  json.Obj
    [("annotations"%string, json.Arr (map value_of_annotation (annotations e)));
     ("text_snippet"%string,
      json.Obj [("content"%string, json.Str (content (text_snippet e)))])].

Definition jsonl_line (e : Example) : string :=
  json.dumps (value_of_example e) +:+ builtins.newline.


(** ** Reasoning on statements *)

Ltac unfold_IO :=
  unfold mbind, IO_bind, mret, IO_ret, fail, get_flags, assign_flag,
    log_event, ask, perform, finally in *.

(** [quiet c]: the statement [c] changes neither the world nor the flags. *)
Definition quiet {World A : Type} (c : IO World A) : Prop :=
  forall s, st_world (snd (c s)) = st_world s
            /\ st_flags (snd (c s)) = st_flags s.

(** [triple pre c post]: run from a state where [pre] holds, [c] returns
    only values and states that satisfy [post]. *)
Definition triple {World A : Type} (pre : state World -> Prop) (c : IO World A)
  (post : A -> state World -> Prop) : Prop :=
  forall s, pre s -> forall a s1, c s = (Returns a, s1) -> post a s1.


(** ** Reading [ConvertOneFile] as a function on lines *)

(** The lines [ConvertOneFile] makes examples of: stripped, not blank and
    not longer than the limit. *)
Definition kept_lines (limit : option Z) (lines : list string) : list string :=
  List.filter
    (fun l => builtins.truthy l && negb (exceeds (Z.of_nat (String.length l)) limit))
    (map Py.strip lines).

(** The example of a group of lines. *)
Definition example_of_group (g : list string) : string :=
  _ConvertOneExample (builtins.join builtins.newline g).

(** The lines it counts as blank and as long. *)
Definition count_blank (lines : list string) : Z :=
  Z.of_nat (length (List.filter (fun l => negb (builtins.truthy l))
                      (map Py.strip lines))).

Definition count_long (limit : option Z) (lines : list string) : Z :=
  Z.of_nat (length (List.filter
                      (fun l => builtins.truthy l
                                && exceeds (Z.of_nat (String.length l)) limit)
                      (map Py.strip lines))).

(** ** Reading [ConvertFiles] as a function on paths *)

(** The name of a file without its directory and its extension. *)
Definition root_of (import_file : string) : string :=
  fst (posixpath.splitext (posixpath.basename import_file)).

(** The path [ConvertFiles] converts [import_file] to when the files
    [earlier] stand before it in the list: the first file of a root name
    keeps the name, the k-th gets k appended to it. *)
Definition output_path (output_dir : string) (earlier : list string)
  (import_file : string) : string :=
  let k := length (List.filter
                     (fun f => String.eqb (root_of f) (root_of import_file))
                     earlier) in
  posixpath.join output_dir
    (root_of import_file
     +:+ match k with
         | O => ""
         | Datatypes.S _ => builtins.str (Z.of_nat k + 1)
         end
     +:+ ".jsonl").

Fixpoint output_paths (output_dir : string) (earlier import_files : list string)
  : list string :=
  match import_files with
  | [] => []
  | f :: rest =>
      output_path output_dir earlier f
      :: output_paths output_dir (earlier ++ [f]) rest
  end.

(** [filename_root_dict] counts the files of each root name seen so far. *)
Definition counts_roots (earlier : list string) (filename_root_dict : gmap string Z)
  : Prop :=
  forall root,
    filename_root_dict !! root
    = match length (List.filter (fun f => String.eqb (root_of f) root) earlier) with
      | O => None
      | Datatypes.S k => Some (Z.of_nat (Datatypes.S k))
      end.

(** ** Lines of a jsonl file *)

(** No character of [s] is a control character (a code point below 32,
    which the line feed and the carriage return are). *)
Definition no_control (s : string) : Prop :=
  Forall (fun c => 32 <= Py.ord c) (list_ascii_of_string s).

(** [line] is one line of text: it ends in a line feed and holds no other
    control character. *)
Definition single_line (line : string) : Prop :=
  exists body, line = body +:+ builtins.newline /\ no_control body.

(** ** Reading documents back *)

(** The digits of a number. *)
Definition uint_digits (d : Decimal.uint) : list ascii :=
  list_ascii_of_string (NilEmpty.string_of_uint d).

(** What may follow a value in a document: nothing, or a character that
    cannot continue a number. *)
Definition closes (rest : list ascii) : bool :=
  match rest with
  | [] => true
  | c :: _ =>
      Ascii.eqb c ","%char || Ascii.eqb c "]"%char || Ascii.eqb c "}"%char
      || Ascii.eqb c "010"%char
  end.


(** What a value starts with in a document: not white space, and not a
    closing bracket. *)
Definition opens (s : list ascii) : bool :=
  match s with
  | [] => false
  | c :: _ =>
      negb (json.is_whitespace c) && negb (Ascii.eqb c "]"%char)
      && negb (Ascii.eqb c "}"%char)
  end.

(** The calls the reader makes on the text of a value. *)
Fixpoint json_size (v : json.value) : nat :=
  match v with
  | json.Arr items => Datatypes.S (fold_right (fun x n => Datatypes.S (json_size x + n)) O items)
  | json.Obj members =>
      Datatypes.S (fold_right (fun m n => match m with
                                | (_, x) => Datatypes.S (json_size x + n)
                                end) O members)
  | _ => 1%nat
  end.

(** No object of the document has two members of the same name. *)
Fixpoint unique_keys (v : json.value) : Prop :=
  match v with
  | json.Arr items => fold_right (fun x P => unique_keys x /\ P) True items
  | json.Obj members =>
      NoDup (map fst members)
      /\ fold_right (fun m P => match m with
                                | (_, x) => unique_keys x /\ P
                                end) True members
  | _ => True
  end.

(** The reader gives back [v] from the text [json.dumps] wrote for it,
    whatever follows the text. *)
Definition reads_back (v : json.value) : Prop :=
  forall (fuel : nat) (rest : list ascii),
    (json_size v <= fuel)%nat ->
    closes rest = true ->
    json.scan_once fuel (list_ascii_of_string (json.dumps v) ++ rest)
    = json.Scanned v rest.

(** * Lemmas *)

(** ** The monad and its loops *)

Lemma for_each_nil {St A X : Type} (body : A -> X -> M St A) (acc : A)
  (w : St * list LogRecord) :
  for_each [] body acc w = (Ok acc, w).
Proof. reflexivity. Qed.

Lemma for_each_cons {St A X : Type} (body : A -> X -> M St A) (acc : A)
  (x : X) (xs : list X) (w : St * list LogRecord) :
  for_each (x :: xs) body acc w =
  match body acc x w with
  | (Ok acc', w') => for_each xs body acc' w'
  | (Raise e, w') => (Raise e, w')
  end.
Proof. reflexivity. Qed.

(** A loop whose body never touches the object leaves it as it was,
    whether it ends or raises. *)
Lemma for_each_object {St A X : Type} (body : A -> X -> M St A) :
  (forall acc x w, fst (snd (body acc x w)) = fst w) ->
  forall xs acc w, fst (snd (for_each xs body acc w)) = fst w.
Proof.
  intros Hbody xs. induction xs as [|x xs IH]; intros acc w; [reflexivity|].
  rewrite for_each_cons. specialize (Hbody acc x w).
  destruct (body acc x w) as [[acc'|e] w']; simpl in *; [|assumption].
  rewrite IH. assumption.
Qed.

(** ** The overlap test and [_AddAnnotation] *)

Lemma _HasOverlap_spec (a b : Annotation) :
  _HasOverlap a b = true <->
  (start b <= start a < end_ b) \/ (start b < end_ a <= end_ b).
Proof. unfold _HasOverlap. lia. Qed.

Lemma _AddAnnotation_cases (anns : list Annotation) (a : Annotation) :
  (existsb (_HasOverlap a) anns = true /\ _AddAnnotation anns a = (false, anns))
  \/ (existsb (_HasOverlap a) anns = false
      /\ _AddAnnotation anns a = (true, anns ++ [a])).
Proof.
  unfold _AddAnnotation. destruct (existsb (_HasOverlap a) anns); auto.
Qed.

Lemma grows_app (old new : list Annotation) :
  grows old new -> exists added, new = old ++ added.
Proof.
  induction 1 as [|new a _ [added ->] _].
  - exists []. by rewrite app_nil_r.
  - exists (added ++ [a]). by rewrite app_assoc.
Qed.

Lemma grows_trans (l1 l2 l3 : list Annotation) :
  grows l1 l2 -> grows l2 l3 -> grows l1 l3.
Proof.
  intros H12 H23. induction H23; [assumption|]. by constructor.
Qed.

(** In a list grown from [old], an annotation beyond [old] passes the
    test against every annotation before it. *)
Lemma grows_later_clear (old new : list Annotation) :
  grows old new ->
  forall (i j : nat) (a b : Annotation),
    (i < j)%nat -> (length old <= j)%nat ->
    new !! i = Some b -> new !! j = Some a ->
    _HasOverlap a b = false.
Proof.
  induction 1 as [|new x Hg IH Hx]; intros i j a b Hij Hj Hi Hja.
  - apply lookup_lt_Some in Hja. lia.
  - destruct (decide (j < length new)%nat) as [Hlt|Hge].
    + rewrite lookup_app_l in Hi by lia. rewrite lookup_app_l in Hja by lia.
      eauto.
    + assert (j = length new) as ->.
      { apply lookup_lt_Some in Hja. rewrite length_app in Hja. simpl in Hja. lia. }
      rewrite lookup_app_l in Hi by lia.
      rewrite list_lookup_middle in Hja by reflexivity. simplify_eq.
      destruct (_HasOverlap a b) eqn:Hab; [|reflexivity].
      assert (existsb (_HasOverlap a) new = true) as Hex; [|congruence].
      apply existsb_exists. exists b. split; [|assumption].
      apply list_elem_of_In. by eapply list_elem_of_lookup_2.
Qed.

Arguments re.start : simpl never.
Arguments re.end_ : simpl never.
Arguments re.group : simpl never.
Arguments re.groups : simpl never.
Arguments re.falsy : simpl never.
Arguments _AddAnnotation : simpl never.

(** ** One match, one rule *)

Section AnnotatorFacts.

Variable finditer : string -> string -> bool -> result (list re.Match).
Variable limit : option Z.

Lemma match_body_spec (lp : LabelPattern) (g : Z) (anns : list Annotation)
  (m : re.Match) (w : Example * list LogRecord) :
  fst (snd (match_body limit lp g anns m w)) = fst w /\
  forall anns', fst (match_body limit lp g anns m w) = Ok anns' ->
    anns' = anns \/
    exists a, candidate_of (label_ lp) g m = [a]
              /\ existsb (_HasOverlap a) anns = false
              /\ anns' = anns ++ [a].
Proof.
  destruct w as [ex log]. unfold match_body, candidate_of. unfold_M. simpl.
  destruct (re.start m g) as [s|?]; simpl; [|raised].
  destruct (re.end_ m g) as [e|?]; simpl; [|raised].
  destruct (s >=? e); simpl; [split; [done|]; intros ? [= <-]; by left|].
  destruct (_ <? g); simpl; [split; [done|]; intros ? [= <-]; by left|].
  destruct (re.group m g) as [v|?]; simpl; [|raised].
  destruct (re.falsy v); simpl; [split; [done|]; intros ? [= <-]; by left|].
  destruct (_AddAnnotation_cases anns (mkAnnotation s e (label_ lp)))
    as [[Hex ->]|[Hex ->]]; simpl.
  - destruct (re.group m 1) as [v1|?]; simpl; [|raised].
    split; [done|]. intros ? [= <-]. by left.
  - destruct (re.group m 1) as [[t|]|?]; simpl; try raised.
    destruct (_ || _); simpl; (split; [done|]); intros ? [= <-]; right; eauto.
Qed.

Lemma match_loop_spec (lp : LabelPattern) (g : Z) (ms : list re.Match) :
  forall (anns : list Annotation) (w : Example * list LogRecord),
    fst (snd (for_each ms (match_body limit lp g) anns w)) = fst w /\
    forall anns', fst (for_each ms (match_body limit lp g) anns w) = Ok anns' ->
      grows anns anns' /\
      exists added, anns' = anns ++ added
                    /\ sublist added (flat_map (candidate_of (label_ lp) g) ms).
Proof.
  induction ms as [|m ms IH]; intros anns w.
  - split; [reflexivity|]. intros anns' [= <-]. split; [constructor|].
    exists []. by rewrite app_nil_r.
  - rewrite for_each_cons.
    destruct (match_body_spec lp g anns m w) as [Hobj Hres].
    destruct (match_body limit lp g anns m w) as [[anns1|e] w1]; simpl in *;
      [|split; [assumption | intros ? ?; discriminate]].
    destruct (IH anns1 w1) as [Hobj1 Hres1]. split; [congruence|].
    intros anns' Hok. destruct (Hres1 anns' Hok) as [Hg [added [-> Hsub]]].
    destruct (Hres anns1 eq_refl) as [->|[a [Hc [Hex ->]]]].
    + split; [assumption|]. exists added. split; [reflexivity|].
      by apply sublist_inserts_l.
    + split.
      * eapply grows_trans; [|exact Hg]. constructor; [constructor | assumption].
      * exists (a :: added). split; [by rewrite <- app_assoc|].
        rewrite Hc. simpl. by constructor.
Qed.

Lemma select_matcher_unbound (lp : LabelPattern) (text : string)
  (prev : option (list re.Match)) :
  prev = None \/ prev = Some [] ->
  select_matcher finditer lp text prev = select_matcher finditer lp text (Some [])
  \/ select_matcher finditer lp text prev = Ok None.
Proof.
  intros [-> | ->]; [|by left]. unfold select_matcher.
  repeat case_match; auto.
Qed.

Lemma rule_body_spec (text : string) (lp : LabelPattern)
  (acc : list Annotation * option (list re.Match))
  (w : Example * list LogRecord) :
  snd acc = None \/ snd acc = Some [] ->
  fst (snd (rule_body finditer limit text acc lp w)) = fst w /\
  forall acc', fst (rule_body finditer limit text acc lp w) = Ok acc' ->
    snd acc' = Some [] /\
    grows (fst acc) (fst acc') /\
    exists added, fst acc' = fst acc ++ added
                  /\ sublist added (rule_candidates finditer text lp).
Proof.
  intros Hprev. unfold rule_body, rule_candidates. unfold_M. simpl.
  destruct (select_matcher_unbound lp text (snd acc) Hprev) as [-> | ->]; simpl.
  - destruct (select_matcher finditer lp text (Some [])) as [[ms|]|e]; simpl;
      try raised.
    + destruct (select_group lp) as [g|e]; simpl; [|raised].
      destruct (match_loop_spec lp g ms (fst acc) w) as [Hobj Hres].
      destruct (for_each ms (match_body limit lp g) (fst acc) w)
        as [[anns'|e] w']; simpl in *; [|raised].
      split; [assumption|]. intros acc' [= <-]. simpl.
      destruct (Hres anns' eq_refl) as [Hg Hadd]. auto.
    + destruct (select_group lp) as [g|e]; simpl; raised.
  - destruct (select_group lp) as [g|e]; simpl; raised.
Qed.

Lemma rule_loop_spec (text : string) (lps : list LabelPattern) :
  forall (acc : list Annotation * option (list re.Match))
         (w : Example * list LogRecord),
    snd acc = None \/ snd acc = Some [] ->
    fst (snd (for_each lps (rule_body finditer limit text) acc w)) = fst w /\
    forall acc', fst (for_each lps (rule_body finditer limit text) acc w) = Ok acc' ->
      grows (fst acc) (fst acc') /\
      exists added, fst acc' = fst acc ++ added
                    /\ sublist added (flat_map (rule_candidates finditer text) lps).
Proof.
  induction lps as [|lp lps IH]; intros acc w Hprev.
  - split; [reflexivity|]. intros acc' [= <-]. split; [constructor|].
    exists []. by rewrite app_nil_r.
  - rewrite for_each_cons.
    destruct (rule_body_spec text lp acc w Hprev) as [Hobj Hres].
    destruct (rule_body finditer limit text acc lp w) as [[acc1|e] w1];
      simpl in *; [|raised].
    destruct (Hres acc1 eq_refl) as [Hm [Hg1 [added1 [Hacc1 Hsub1]]]].
    destruct (IH acc1 w1 (or_intror Hm)) as [Hobj1 Hres1].
    split; [congruence|]. intros acc' Hok.
    destruct (Hres1 acc' Hok) as [Hg [added [Hacc Hsub]]]. split.
    + by eapply grows_trans.
    + exists (added1 ++ added). split.
      * by rewrite Hacc, Hacc1, app_assoc.
      * by apply sublist_app.
Qed.

Lemma annotation_json_roundtrip (a : annotation_json) :
  _AnnotationToJson (annotation_of_json a) = a.
Proof. by destruct a as [[[? ?]] ?]. Qed.

Lemma annotation_roundtrip (a : Annotation) :
  annotation_of_json (_AnnotationToJson a) = a.
Proof. by destruct a. Qed.

(** What a call does: a call that raises leaves the object as it was; a
    call that returns has replaced its annotations by a list grown from
    them. *)
Lemma _AnnotateExample_spec (lps : list LabelPattern) (ex : Example)
  (log : list LogRecord) :
  let out := _AnnotateExample finditer limit lps (ex, log) in
  (forall e, fst out = Raise e -> fst (snd out) = ex) /\
  (forall ex', fst out = Ok ex' ->
     fst (snd out) = ex' /\
     text_snippet ex' = text_snippet ex /\
     exists anns',
       annotations ex' = map _AnnotationToJson anns'
       /\ grows (map annotation_of_json (annotations ex)) anns'
       /\ exists added,
            anns' = map annotation_of_json (annotations ex) ++ added
            /\ sublist added
                 (flat_map (rule_candidates finditer (content (text_snippet ex))) lps)).
Proof.
  unfold _AnnotateExample. unfold_M. simpl.
  destruct (rule_loop_spec (content (text_snippet ex)) lps
              (map annotation_of_json (annotations ex), None) (ex, log)
              (or_introl eq_refl)) as [Hobj Hres].
  destruct (for_each lps _ _ _) as [[acc|e] [obj log']]; simpl in *.
  - split; [intros ? ?; discriminate|]. intros ex' [= <-]. simpl.
    destruct (Hres acc eq_refl) as [Hg Hadd]. eauto 10.
  - split; [auto | intros ? ?; discriminate].
Qed.

End AnnotatorFacts.

(** ** The parser, row by row *)

Section ParserFacts.

Variable limit : option Z.

Lemma registered_init : registered ([], ∅).
Proof.
  intros k. simpl. rewrite lookup_empty. split.
  - by intros [? ?].
  - by intros ?%elem_of_nil.
Qed.

Lemma registered_insert (acc : list LabelPattern * gmap (string * string) Z)
  (lp : LabelPattern) :
  registered acc ->
  registered (fst acc ++ [lp], <[key_of lp := 1]> (snd acc)).
Proof.
  intros Hreg k. simpl. rewrite map_app, elem_of_app. simpl.
  rewrite list_elem_of_singleton. destruct (decide (key_of lp = k)) as [<-|Hne].
  - rewrite lookup_insert_eq. split; [by right | by eexists].
  - rewrite lookup_insert_ne by done. rewrite (Hreg k). split; [by left|].
    by intros [?|?].
Qed.

Lemma registered_existsb (acc : list LabelPattern * gmap (string * string) Z)
  (lp : LabelPattern) :
  registered acc ->
  bool_decide (is_Some (snd acc !! key_of lp)) =
  existsb (fun k => bool_decide (key_of k = key_of lp)) (fst acc).
Proof.
  intros Hreg. apply eq_true_iff_eq. rewrite bool_decide_eq_true, (Hreg _).
  rewrite existsb_exists, list_elem_of_fmap. split.
  - intros [k [Hk Hin]]. exists k. rewrite bool_decide_eq_true.
    split; [by apply list_elem_of_In | done].
  - intros [k [Hin Hk]]. exists k. apply bool_decide_eq_true in Hk.
    split; [done | by apply list_elem_of_In].
Qed.

(** A row of exactly two fields raises at [row[2]], whatever came before. *)
Lemma row_body_two_fields {St : Type}
  (acc : list LabelPattern * gmap (string * string) Z) (r : csv_row)
  (w : St * list LogRecord) :
  length (fields r) = 2%nat ->
  row_body limit acc r w = (Raise IndexError, w).
Proof.
  intros Hlen. unfold row_body.
  destruct (fields r) as [|f0 [|f1 [|f2 rest]]]; simpl in Hlen; try lia.
  reflexivity.
Qed.

(** Any other row is handled: it is kept when it is valid and its key is
    new, and skipped otherwise, the object being left alone. *)
Lemma row_body_other {St : Type}
  (acc : list LabelPattern * gmap (string * string) Z) (r : csv_row)
  (w : St * list LogRecord) :
  length (fields r) <> 2%nat ->
  exists log',
    row_body limit acc r w =
    (Ok match valid_rule limit r with
        | Some lp =>
            if bool_decide (is_Some (snd acc !! key_of lp)) then acc
            else (fst acc ++ [lp], <[key_of lp := 1]> (snd acc))
        | None => acc
        end, (fst w, log')).
Proof.
  intros Hlen. destruct w as [s log].
  unfold row_body, valid_rule, rule_of_row, label_too_long, key_of.
  destruct (fields r) as [|f0 [|f1 [|f2 rest]]] eqn:Hf; simpl in Hlen;
    try lia; unfold_M; simpl; eauto.
  destruct rest as [|f3 rest]; simpl;
    repeat (case_match; simpl in *; simplify_eq); eauto.
Qed.

(** ** The parser loop computes [keep_first] *)

Lemma row_loop_spec {St : Type} (rows : list csv_row) :
  forall (acc : list LabelPattern * gmap (string * string) Z)
         (w : St * list LogRecord),
    no_two_field_row rows -> registered acc ->
    exists pam' log',
      for_each rows (row_body limit) acc w =
        (Ok (keep_first limit rows (fst acc), pam'), (fst w, log'))
      /\ registered (keep_first limit rows (fst acc), pam').
Proof.
  induction rows as [|r rows IH]; intros acc w Hrows Hreg.
  - destruct acc as [lps pam], w as [s log]. by exists pam, log.
  - apply Forall_cons in Hrows as [Hr Hrows]. rewrite for_each_cons.
    destruct (row_body_other acc r w Hr) as [log1 ->]. simpl.
    destruct (valid_rule limit r) as [lp|].
    + rewrite (registered_existsb acc lp Hreg).
      destruct (existsb _ (fst acc)).
      * by apply (IH acc (fst w, log1)).
      * destruct (IH (fst acc ++ [lp], <[key_of lp := 1]> (snd acc))
                    (fst w, log1) Hrows (registered_insert acc lp Hreg))
          as [pam' [log' [Heq Hreg']]].
        by exists pam', log'.
    + by apply (IH acc (fst w, log1)).
Qed.

Lemma row_loop_raises {St : Type} (rows : list csv_row) :
  forall (acc : list LabelPattern * gmap (string * string) Z)
         (w : St * list LogRecord),
    Exists (fun r => length (fields r) = 2%nat) rows ->
    exists log',
      for_each rows (row_body limit) acc w = (Raise IndexError, (fst w, log')).
Proof.
  induction rows as [|r rows IH]; intros acc w Hex.
  - by apply Exists_nil in Hex.
  - rewrite for_each_cons.
    destruct (decide (length (fields r) = 2%nat)) as [Hr|Hr].
    + rewrite (row_body_two_fields acc r w Hr). destruct w. by eexists.
    + apply Exists_cons in Hex as [?|Hex]; [done|].
      destruct (row_body_other acc r w Hr) as [log1 ->].
      destruct (IH (match valid_rule limit r with
                    | Some lp =>
                        if bool_decide (is_Some (snd acc !! key_of lp)) then acc
                        else (fst acc ++ [lp], <[key_of lp := 1]> (snd acc))
                    | None => acc
                    end) (fst w, log1) Hex) as [log' ->].
      by eexists.
Qed.

(** The parser returns exactly when no row has two fields, and then its
    result is [keep_first]. *)
Lemma _ParseDictionary_returns {St : Type} (file_path : string)
  (rows : list csv_row) (s : St) (log : list LogRecord) :
  no_two_field_row rows ->
  exists log',
    _ParseDictionary limit file_path rows (s, log) =
      (Ok (keep_first limit rows []), (s, log')).
Proof.
  intros Hrows. unfold _ParseDictionary. unfold_M.
  destruct (row_loop_spec rows ([], ∅) (s, log) Hrows registered_init)
    as [pam' [log' [-> _]]].
  simpl. by eexists.
Qed.

Lemma _ParseDictionary_raises {St : Type} (file_path : string)
  (rows : list csv_row) (s : St) (log : list LogRecord) :
  Exists (fun r => length (fields r) = 2%nat) rows ->
  exists log',
    _ParseDictionary limit file_path rows (s, log) =
      (Raise IndexError, (s, log')).
Proof.
  intros Hex. unfold _ParseDictionary. unfold_M.
  destruct (row_loop_raises rows ([], ∅) (s, log) Hex) as [log' ->].
  by eexists.
Qed.

(** ** What [keep_first] keeps *)

Lemma keep_first_extends (rows : list csv_row) :
  forall kept, exists added,
    keep_first limit rows kept = kept ++ added
    /\ sublist added (omap (valid_rule limit) rows).
Proof.
  induction rows as [|r rows IH]; intros kept; simpl.
  - exists []. by rewrite app_nil_r.
  - destruct (valid_rule limit r) as [lp|].
    + destruct (existsb _ kept).
      * destruct (IH kept) as [added [-> Hsub]]. exists added.
        split; [done | by constructor].
      * destruct (IH (kept ++ [lp])) as [added [-> Hsub]]. exists (lp :: added).
        split; [by rewrite <- app_assoc | by constructor].
    + apply IH.
Qed.

Lemma existsb_key_false (kept : list LabelPattern) (lp : LabelPattern) :
  existsb (fun k => bool_decide (key_of k = key_of lp)) kept = false <->
  key_of lp ∉ map key_of kept.
Proof.
  rewrite <- not_true_iff_false, existsb_exists, list_elem_of_fmap.
  split; intros Hno [k Hk]; apply Hno; exists k.
  - destruct Hk as [Hk Hin]. rewrite bool_decide_eq_true.
    split; [by apply list_elem_of_In | done].
  - destruct Hk as [Hin Hk]. apply bool_decide_eq_true in Hk.
    split; [done | by apply list_elem_of_In].
Qed.

Lemma keep_first_NoDup (rows : list csv_row) :
  forall kept, NoDup (map key_of kept) ->
               NoDup (map key_of (keep_first limit rows kept)).
Proof.
  induction rows as [|r rows IH]; intros kept Hnd; simpl; [done|].
  destruct (valid_rule limit r) as [lp|]; [|by apply IH].
  destruct (existsb _ kept) eqn:Hex; [by apply IH|].
  apply IH. rewrite map_app. simpl. apply NoDup_app. split; [done|].
  split; [|apply NoDup_singleton].
  intros k Hk ->%list_elem_of_singleton. by apply existsb_key_false in Hex.
Qed.

(** A valid row is kept when no rule kept before it and no valid row
    before it has its pattern and mode; rows that were rejected do not
    count. *)
Lemma keep_first_accepts (before after : list csv_row) (r : csv_row)
  (lp : LabelPattern) :
  valid_rule limit r = Some lp ->
  (forall r' lp', r' ∈ before -> valid_rule limit r' = Some lp' ->
                  key_of lp' <> key_of lp) ->
  forall kept, key_of lp ∉ map key_of kept ->
               lp ∈ keep_first limit (before ++ r :: after) kept.
Proof.
  intros Hvalid. induction before as [|r0 before IH]; intros Hbefore kept Hkept;
    simpl.
  - rewrite Hvalid. apply existsb_key_false in Hkept. rewrite Hkept.
    destruct (keep_first_extends after (kept ++ [lp])) as [added [-> _]].
    rewrite !elem_of_app, list_elem_of_singleton. auto.
  - assert (forall r' lp', r' ∈ before -> valid_rule limit r' = Some lp' ->
                           key_of lp' <> key_of lp) as Hbefore'.
    { intros r' lp' Hin. apply Hbefore. by right. }
    destruct (valid_rule limit r0) as [lp0|] eqn:Hv0; [|by apply IH].
    destruct (existsb _ kept); [by apply IH|].
    apply IH; [done|]. rewrite map_app, elem_of_app. simpl.
    rewrite list_elem_of_singleton. intros [?|Heq]; [done|].
    eapply Hbefore; [by left | done | done].
Qed.

(** Every kept rule comes from a valid row, or was kept already. *)
Lemma keep_first_from_rows (rows : list csv_row) (kept : list LabelPattern)
  (lp : LabelPattern) :
  lp ∈ keep_first limit rows kept ->
  lp ∈ kept \/ exists r, r ∈ rows /\ valid_rule limit r = Some lp.
Proof.
  destruct (keep_first_extends rows kept) as [added [-> Hsub]].
  rewrite elem_of_app. intros [?|Hin]; [by left|]. right.
  eapply elem_of_sublist in Hin; [|exact Hsub].
  apply list_elem_of_omap in Hin as [r [? ?]]. eauto.
Qed.

End ParserFacts.

(** ** Parsing a run of word characters *)

Lemma list_ascii_of_string_app (s1 s2 : string) :
  list_ascii_of_string (s1 +:+ s2) =
  list_ascii_of_string s1 ++ list_ascii_of_string s2.
Proof. induction s1 as [|c s1 IH]; simpl; [done | by rewrite IH]. Qed.

Lemma length_list_ascii_of_string (s : string) :
  length (list_ascii_of_string s) = String.length s.
Proof. induction s as [|c s IH]; simpl; [done | by rewrite IH]. Qed.

(** A word character is not special in a pattern: it stands for itself. *)
Lemma isword_plain (c : ascii) :
  Py.isword c = true ->
  Ascii.eqb c "\"%char = false /\ sre.plain c = sre.TChar (sre.Literal c).
Proof.
  destruct c as [[] [] [] [] [] [] [] []]; vm_compute; intros H;
    first [discriminate H | split; reflexivity].
Qed.

Lemma tokenize_word_chars (p rest : list ascii) :
  Forall (fun c => Py.isword c = true) p ->
  sre.tokenize (p ++ rest) =
  map (fun c => sre.TChar (sre.Literal c)) p ++ sre.tokenize rest.
Proof.
  induction 1 as [|c p Hc _ IH]; [done|].
  destruct (isword_plain c Hc) as [Hesc Hplain].
  simpl. rewrite Hesc, Hplain. by rewrite IH.
Qed.

Lemma parse_tokens_literals (p : list ascii) :
  forall (ts : list sre.token) (n : nat) (cur : sre.frame)
         (stack : list sre.frame),
    sre.parse_tokens (map (fun c => sre.TChar (sre.Literal c)) p ++ ts) n cur stack =
    sre.parse_tokens ts n
      (sre.mkFrame (sre.f_group cur) (sre.f_alts cur)
         (rev (map (fun c => sre.Char (sre.Literal c)) p) ++ sre.f_items cur))
      stack.
Proof.
  induction p as [|c p IH]; intros ts n cur stack; simpl.
  - by destruct cur.
  - rewrite IH. simpl. by rewrite <- app_assoc.
Qed.

Lemma seq_of_literals (p : list ascii) (items : list sre.regex) :
  sre.seq_of (items ++ rev (map (fun c => sre.Char (sre.Literal c)) p)) =
  literals p (sre.seq_of items).
Proof.
  unfold sre.seq_of. rewrite fold_left_app. generalize (fold_left (fun acc r => sre.Seq r acc) items sre.Empty).
  induction p as [|c p IH]; intros base; simpl; [done|].
  rewrite fold_left_app. simpl. by rewrite IH.
Qed.


(** The pattern of an EXACT_MATCH rule made of word characters. *)
Lemma parse_exact_word_chars (p : string) :
  Forall (fun c => Py.isword c = true) (list_ascii_of_string p) ->
  sre.parse ("\b" +:+ p +:+ "\b") =
  Some (sre.Seq sre.Boundary
          (literals (list_ascii_of_string p) (sre.Seq sre.Boundary sre.Empty)),
        O).
Proof.
  intros Hp. unfold sre.parse. rewrite !list_ascii_of_string_app.
  change (sre.tokenize (list_ascii_of_string "\b" ++
                        list_ascii_of_string p ++ list_ascii_of_string "\b"))
    with (sre.TBoundary
            :: sre.tokenize (list_ascii_of_string p ++ list_ascii_of_string "\b")).
  rewrite (tokenize_word_chars _ _ Hp).
  change (sre.tokenize (list_ascii_of_string "\b")) with [sre.TBoundary].
  cbn [sre.parse_tokens sre.push sre.f_group sre.f_alts sre.f_items].
  rewrite parse_tokens_literals.
  cbn [sre.parse_tokens sre.push sre.f_group sre.f_alts sre.f_items sre.close
       fold_left Nat.pred].
  do 2 f_equal.
  change (sre.Boundary
            :: rev (map (fun c => sre.Char (sre.Literal c)) (list_ascii_of_string p))
            ++ [sre.Boundary])
    with ([sre.Boundary]
            ++ rev (map (fun c => sre.Char (sre.Literal c)) (list_ascii_of_string p))
            ++ [sre.Boundary]).
  rewrite app_assoc. unfold sre.seq_of at 1. rewrite fold_left_app. simpl.
  f_equal. apply (seq_of_literals _ [sre.Boundary]).
Qed.

(** ** The matcher on literal patterns *)

Lemma nth_error_skipn {A : Type} (l : list A) (i : nat) (x : A) :
  nth_error l i = Some x -> skipn i l = x :: skipn (Datatypes.S i) l.
Proof.
  revert i. induction l as [|y l IH]; intros [|i] H; simpl in *; try done.
  - by injection H as ->.
  - by apply IH.
Qed.

Lemma nth_error_skipn_None {A : Type} (l : list A) (i : nat) :
  nth_error l i = None -> skipn i l = [].
Proof.
  revert i. induction l as [|y l IH]; intros [|i] H; simpl in *; try done.
  by apply IH.
Qed.

Lemma nth_error_firstn_skipn {A : Type} (l p : list A) (pos i : nat) (x : A) :
  firstn (length p) (skipn pos l) = p ->
  nth_error p i = Some x -> nth_error l (pos + i) = Some x.
Proof.
  revert pos i. induction p as [|y p IH]; intros pos i Hocc Hi; [by destruct i|].
  destruct (nth_error l pos) as [z|] eqn:Hpos.
  - rewrite (nth_error_skipn l pos z Hpos) in Hocc. simpl in Hocc.
    injection Hocc as -> Hocc. destruct i as [|i]; simpl in Hi.
    + injection Hi as ->. by rewrite Nat.add_0_r.
    + replace (pos + Datatypes.S i)%nat with (Datatypes.S pos + i)%nat by lia.
      by apply IH.
  - by rewrite (nth_error_skipn_None l pos Hpos) in Hocc.
Qed.

Section MatcherFacts.

Variable text : list ascii.

Lemma run_literals (p : list ascii) :
  forall (r : sre.regex) (pos : nat) (caps : sre.marks) (k : sre.cont),
    sre.run text false (literals p r) pos caps k =
    if decide (firstn (length p) (skipn pos text) = p)
    then sre.run text false r (pos + length p) caps k
    else None.
Proof.
  induction p as [|c p IH]; intros r pos caps k.
  - cbn [literals fold_right length firstn]. rewrite Nat.add_0_r.
    by destruct (decide (@nil ascii = [])).
  - simpl literals. cbn [sre.run]. destruct (nth_error text pos) as [c'|] eqn:Hpos.
    + rewrite (nth_error_skipn text pos c' Hpos). simpl.
      destruct (Ascii.eqb_spec c c') as [<-|Hne].
      * rewrite IH. replace (pos + Datatypes.S (length p))%nat
          with (Datatypes.S pos + length p)%nat by lia.
        destruct (decide (firstn _ (skipn (Datatypes.S pos) text) = p)) as [Heq|Hneq];
          destruct (decide (_ = c :: p)) as [Heq'|Hneq']; try done.
        -- exfalso. apply Hneq'. simpl. by rewrite Heq.
        -- exfalso. apply Hneq. simpl in Heq'. by injection Heq'.
      * case_decide as Heq; [|done]. simpl in Heq. by injection Heq.
    + rewrite (nth_error_skipn_None text pos Hpos). simpl.
      try case_decide; done.
Qed.

(** What a match of [\bp\b] at [pos] tells. *)
Lemma run_exact (p : list ascii) (pos e : nat) (caps caps' : sre.marks)
  (must_advance : bool) :
  sre.run text false
    (sre.Seq sre.Boundary (literals p (sre.Seq sre.Boundary sre.Empty)))
    pos caps (sre.accept pos must_advance) = Some (e, caps') ->
  sre.at_boundary text pos = true
  /\ firstn (length p) (skipn pos text) = p
  /\ e = (pos + length p)%nat
  /\ sre.at_boundary text e = true.
Proof.
  cbn [sre.run]. destruct (sre.at_boundary text pos); [|done].
  rewrite run_literals. case_decide as Hocc; [|done].
  cbn [sre.run]. destruct (sre.at_boundary text (pos + length p)) eqn:Hend; [|done].
  unfold sre.accept. destruct (_ && _); [done|]. intros [= <- _]. auto.
Qed.


(** A word boundary next to a word character has no word character on its
    other side. *)
Lemma boundary_before_word (pos : nat) :
  sre.at_boundary text pos = true -> sre.word_at text pos = true ->
  match pos with O => True | Datatypes.S i => sre.word_at text i = false end.
Proof.
  unfold sre.at_boundary. intros Hb Hw. rewrite Hw in Hb.
  destruct pos as [|i]; [done|]. by destruct (sre.word_at text i).
Qed.

Lemma boundary_after_word (i : nat) :
  sre.at_boundary text (Datatypes.S i) = true -> sre.word_at text i = true ->
  sre.word_at text (Datatypes.S i) = false.
Proof.
  unfold sre.at_boundary. intros Hb Hw. rewrite Hw in Hb.
  by destruct (sre.word_at text (Datatypes.S i)).
Qed.

Lemma occurrence_word_at (p : list ascii) (pos i : nat) :
  Forall (fun c => Py.isword c = true) p ->
  firstn (length p) (skipn pos text) = p ->
  (i < length p)%nat -> sre.word_at text (pos + i) = true.
Proof.
  intros Hp Hocc Hi. unfold sre.word_at.
  destruct (nth_error p i) as [c|] eqn:Hc.
  - rewrite (nth_error_firstn_skipn text p pos i c Hocc Hc).
    rewrite Forall_forall in Hp. apply Hp. apply list_elem_of_In.
    by eapply nth_error_In.
  - apply nth_error_None in Hc. lia.
Qed.

End MatcherFacts.

(** ** The matcher moves forward, and the iterator ends *)

Section EngineFacts.

Variable text : list ascii.
Variable ignorecase : bool.

Lemma run_length_le (cs : sre.charset) (s : list ascii) :
  (sre.run_length ignorecase cs s <= length s)%nat.
Proof.
  induction s as [|c s IH]; simpl; [lia|].
  destruct (sre.in_charset _ _ _); simpl; lia.
Qed.

Lemma give_back_inv (k : sre.cont) (pos lo : nat) (caps : sre.marks)
  (res : nat * sre.marks) (n : nat) :
  sre.give_back k pos lo n caps = Some res ->
  exists i, (i <= n)%nat /\ k (pos + i)%nat caps = Some res.
Proof.
  induction n as [|n IH]; simpl.
  - destruct (k (pos + 0)%nat caps) eqn:Hk; [|done]. intros [= <-]. exists O. auto.
  - destruct (k (pos + Datatypes.S n)%nat caps) eqn:Hk.
    + intros [= <-]. exists (Datatypes.S n). auto.
    + destruct (lo <=? n)%nat; [|done]. intros [i [Hi Hres]]%IH.
      exists i. split; [lia | done].
Qed.

(** A successful run hands its continuation a position between where it
    started and the end of the subject. *)
Lemma run_bounds (r : sre.regex) :
  forall (pos : nat) (caps : sre.marks) (k : sre.cont) (res : nat * sre.marks),
    (pos <= length text)%nat ->
    sre.run text ignorecase r pos caps k = Some res ->
    exists p c, (pos <= p <= length text)%nat /\ k p c = Some res.
Proof.
  induction r as [|cs| |cs lo hi|r1 IH1 r2 IH2|r1 IH1 r2 IH2|g r1 IH1];
    intros pos caps k res Hpos; cbn [sre.run].
  - intros Hk. exists pos, caps. auto with lia.
  - destruct (nth_error text pos) as [c|] eqn:Hc; [|done].
    destruct (sre.in_charset _ _ _); [|done]. intros Hk.
    exists (Datatypes.S pos), caps. split; [|done].
    assert (pos < length text)%nat; [|lia].
    apply nth_error_Some. by rewrite Hc.
  - destruct (sre.at_boundary _ _); [|done]. intros Hk.
    exists pos, caps. auto with lia.
  - destruct (_ <? lo)%nat; [done|].
    intros [i [Hi Hk]]%give_back_inv. exists (pos + i)%nat, caps.
    split; [|done].
    pose proof (run_length_le cs (skipn pos text)) as Hlen.
    rewrite length_skipn in Hlen. destruct hi; lia.
  - intros [p1 [c1 [Hp1 Hk1]]]%IH1; [|done].
    apply IH2 in Hk1 as [p2 [c2 [Hp2 Hk2]]]; [|lia].
    exists p2, c2. split; [lia | done].
  - destruct (sre.run text ignorecase r1 pos caps k) eqn:H1.
    + intros [= <-]. by apply IH1 in H1.
    + by apply IH2.
  - intros [p1 [c1 [Hp1 Hk1]]]%IH1; [|done]. eauto.
Qed.

Variable r : sre.regex.
Variable ngroups : nat.

(** A match the search returns was found by a run at its start. *)
Lemma search_inv (n : nat) :
  forall (pos : nat) (must_advance : bool) (s e : nat) (caps : sre.marks),
    sre.search text ignorecase r ngroups n pos must_advance = Some (s, e, caps) ->
    (pos <= s <= pos + n)%nat /\
    sre.run text ignorecase r s (replicate ngroups (-1, -1))
      (sre.accept s (must_advance && (s =? pos)%nat)) = Some (e, caps).
Proof.
  induction n as [|n IH]; intros pos ma s e caps; cbn [sre.search];
    destruct (sre.run text ignorecase r pos _ _) as [[e' caps']|] eqn:Hrun;
    try done.
  - intros [= <- <- <-]. rewrite Nat.eqb_refl, andb_true_r. auto with lia.
  - intros [= <- <- <-]. rewrite Nat.eqb_refl, andb_true_r. auto with lia.
  - intros [Hs Hr]%IH. split; [lia|].
    replace (s =? pos)%nat with false; [by rewrite andb_false_r|].
    symmetry. apply Nat.eqb_neq. lia.
Qed.

Lemma search_bounds (pos : nat) (must_advance : bool) (s e : nat)
  (caps : sre.marks) :
  (pos <= length text)%nat ->
  sre.search text ignorecase r ngroups (length text - pos) pos must_advance
    = Some (s, e, caps) ->
  (pos <= s <= e)%nat /\ (e <= length text)%nat
  /\ (must_advance = true -> (pos < e)%nat).
Proof.
  intros Hpos [Hs Hrun]%search_inv.
  apply run_bounds in Hrun as [p [c [Hp Hacc]]]; [|lia].
  unfold sre.accept in Hacc.
  destruct (must_advance && (s =? pos)%nat && (p =? s)%nat) eqn:Hadv; [done|].
  injection Hacc as -> ->. repeat split; try lia.
  intros ->. simpl in Hadv.
  destruct (Nat.eqb_spec s pos) as [->|]; simpl in Hadv; [|lia].
  apply Nat.eqb_neq in Hadv. lia.
Qed.

(** Enough fuel: the iterator never stops for want of it. *)
Lemma scan_fuel (fuel : nat) :
  forall (pos : nat) (must_advance : bool),
    (pos <= length text)%nat ->
    (2 * (length text - pos) + (if must_advance then 1 else 2) <= fuel)%nat ->
    exists found, sre.scan text ignorecase r ngroups fuel pos must_advance
                  = Some found.
Proof.
  induction fuel as [|fuel IH]; intros pos ma Hpos Hfuel;
    [destruct ma; lia|].
  cbn [sre.scan].
  destruct (sre.search _ _ _ _ _ _ _) as [[[s e] caps]|] eqn:Hsearch;
    [|by eexists].
  destruct (search_bounds pos ma s e caps Hpos Hsearch) as [Hs [He Hadv]].
  destruct (IH e (e =? s)%nat He) as [rest ->]; [|by eexists].
  destruct (Nat.eqb_spec e s) as [->|Hne]; destruct ma;
    try specialize (Hadv eq_refl); lia.
Qed.

Lemma scan_inv (fuel : nat) :
  forall (pos : nat) (must_advance : bool)
         (found : list (nat * nat * sre.marks)),
    sre.scan text ignorecase r ngroups fuel pos must_advance = Some found ->
    Forall (fun m => exists b,
              sre.run text ignorecase r (fst (fst m)) (replicate ngroups (-1, -1))
                (sre.accept (fst (fst m)) b) = Some (snd (fst m), snd m))
           found.
Proof.
  induction fuel as [|fuel IH]; intros pos ma found; cbn [sre.scan]; [done|].
  destruct (sre.search _ _ _ _ _ _ _) as [[[s e] caps]|] eqn:Hsearch.
  - destruct (sre.scan _ _ _ _ fuel e _) as [rest|] eqn:Hrest; [|done].
    intros [= <-]. constructor; [|by eapply IH].
    apply search_inv in Hsearch as [_ Hrun]. simpl. eauto.
  - intros [= <-]. constructor.
Qed.

End EngineFacts.

(** A pattern of the fragment always yields its list of matches. *)
Lemma finditer_parsed (pattern subject : string) (ignorecase : bool)
  (r : sre.regex) (ngroups : nat) :
  sre.parse pattern = Some (r, ngroups) ->
  exists found,
    sre.scan (list_ascii_of_string subject) ignorecase r ngroups
      (2 * length (list_ascii_of_string subject) + 2) 0 false = Some found
    /\ sre.finditer pattern subject ignorecase
       = Ok (map (sre.to_match subject) found).
Proof.
  intros Hparse. unfold sre.finditer. rewrite Hparse.
  destruct (scan_fuel (list_ascii_of_string subject) ignorecase r ngroups
              (2 * length (list_ascii_of_string subject) + 2) 0 false)
    as [found Hscan]; [lia | lia |].
  exists found. by rewrite Hscan.
Qed.

(** ** The leftmost match *)

Section SearchFirst.

Variable text : list ascii.
Variable ignorecase : bool.
Variable r : sre.regex.
Variable ngroups : nat.


End SearchFirst.

(** ** What the two modes yield for a pattern of word characters *)

Lemma exact_matches_spec (p text : string) :
  p <> ""%string ->
  Forall (fun c => Py.isword c = true) (list_ascii_of_string p) ->
  exists ms,
    sre.finditer ("\b" +:+ p +:+ "\b") text false = Ok ms
    /\ forall m, m ∈ ms ->
         exists s : nat,
           re.m_span m = (Z.of_nat s, Z.of_nat s + Z.of_nat (String.length p))
           /\ occurs_at p text s
           /\ inside_larger_word text (fst (re.m_span m)) (snd (re.m_span m))
              = false.
Proof.
  intros Hne Hp.
  destruct (finditer_parsed _ text false _ _ (parse_exact_word_chars p Hp))
    as [found [Hscan ->]].
  eexists. split; [reflexivity|]. intros m Hm.
  apply list_elem_of_fmap in Hm as [[[s e] caps] [-> Hin]].
  apply scan_inv in Hscan. rewrite Forall_forall in Hscan.
  destruct (Hscan _ Hin) as [b Hrun]. simpl in Hrun.
  apply run_exact in Hrun as [Hb [Hocc [-> He]]].
  rewrite length_list_ascii_of_string in *.
  assert (0 < String.length p)%nat as Hlen.
  { destruct p; [done | simpl; lia]. }
  exists s. split; [|split; [exact Hocc|]].
  - unfold sre.to_match. simpl. f_equal. lia.
  - unfold sre.to_match, inside_larger_word, word_char_at. simpl.
    rewrite <- length_list_ascii_of_string in Hocc, Hlen, He.
    apply orb_false_iff. split.
    + pose proof (occurrence_word_at _ _ s O Hp Hocc Hlen) as Hw.
      rewrite Nat.add_0_r in Hw.
      pose proof (boundary_before_word _ s Hb Hw) as Hprev.
      destruct s as [|i]; [done|].
      replace (Z.to_nat (Z.of_nat (Datatypes.S i) - 1)) with i by lia.
      by rewrite Hprev, andb_false_r.
    + set (n := (length (list_ascii_of_string p) - 1)%nat).
      assert (n < length (list_ascii_of_string p))%nat as Hlast by lia.
      pose proof (occurrence_word_at _ _ s n Hp Hocc Hlast) as Hw.
      replace (s + length (list_ascii_of_string p))%nat
        with (Datatypes.S (s + n)) in He by lia.
      pose proof (boundary_after_word _ _ He Hw) as Hnext.
      rewrite Nat2Z.id.
      replace (s + String.length p)%nat with (Datatypes.S (s + n));
        [by rewrite Hnext, andb_false_r|].
      rewrite <- length_list_ascii_of_string. lia.
Qed.


(** ** The search finds the first match *)

Section SearchLeast.

Variable text : list ascii.
Variable ignorecase : bool.
Variable r : sre.regex.
Variable ngroups : nat.



End SearchLeast.

(** ** The iterator on a pattern that matches spans of one length *)

Section FixedLength.

Variable text : list ascii.
Variable r : sre.regex.
Variable len : nat.
Variable hit : nat -> bool.

Hypothesis len_pos : (0 < len)%nat.
Hypothesis hit_inside : forall i, hit i = true -> (i + len <= length text)%nat.
Hypothesis run_hit :
  forall (i : nat) (b : bool),
    sre.run text false r i [] (sre.accept i b)
    = if hit i then Some ((i + len)%nat, []) else None.


End FixedLength.

(** ** Occurrences and word boundaries *)




(** ** All the matches of the two modes for a pattern of word characters *)



(** * The statements of the specification *)

(** C1, as stated, does not hold. First: annotations that came with the
    example are returned as they came, also when they overlap ([0,3) and
    [1,4) here, no rule applied). Second: a candidate that extends beyond
    an annotation on both sides passes the test of [_AddAnnotation], and
    the annotation then fails the test against it ([1,2) added by the
    first rule, [0,3) by the second; [1,2) taken as span a overlaps). *)
Lemma overlap_invariant_counterexample :
  (let ex := example_of "abcd" [annotation_record 0 3 "A"; annotation_record 1 4 "B"] in
   fst (_AnnotateExample sre.finditer None [] (ex, [])) = Ok ex
   /\ _HasOverlap (mkAnnotation 1 4 "B") (mkAnnotation 0 3 "A") = true)
  /\
  (fst (_AnnotateExample sre.finditer None
          [mkLabelPattern "(b)" "B" "r" ""; mkLabelPattern "(abc)" "A" "r" ""]
          (example_of "abc" [], []))
   = Ok (example_of "abc" [annotation_record 1 2 "B"; annotation_record 0 3 "A"])
   /\ _HasOverlap (mkAnnotation 1 2 "B") (mkAnnotation 0 3 "A") = true).
Proof. vm_compute. auto. Qed.

(** C1, amended: when [_AnnotateExample] returns, every annotation it
    added fails the overlap test, taken as span a, against every annotation
    that stands before it in the output, whether that one came with the
    example or was added earlier. *)
Theorem added_annotations_clear_of_earlier
  (finditer : string -> string -> bool -> result (list re.Match))
  (limit : option Z) (lps : list LabelPattern) (ex ex' : Example)
  (log : list LogRecord) (w' : Example * list LogRecord) :
  _AnnotateExample finditer limit lps (ex, log) = (Ok ex', w') ->
  forall (i j : nat) (a b : annotation_json),
    (i < j)%nat -> (length (annotations ex) <= j)%nat ->
    annotations ex' !! i = Some b -> annotations ex' !! j = Some a ->
    _HasOverlap (annotation_of_json a) (annotation_of_json b) = false.
Proof.
  intros Hrun i j a b Hij Hj Hb Ha.
  destruct (_AnnotateExample_spec finditer limit lps ex log) as [_ Hok].
  rewrite Hrun in Hok.
  destruct (Hok ex' eq_refl) as [_ [_ [anns' [Hanns [Hgrows _]]]]].
  rewrite Hanns, list_lookup_fmap in Hb, Ha.
  destruct (anns' !! i) as [b'|] eqn:Hb'; [|done].
  destruct (anns' !! j) as [a'|] eqn:Ha'; [|done].
  simpl in Hb, Ha. injection Hb as <-. injection Ha as <-.
  rewrite !annotation_roundtrip.
  eapply (grows_later_clear _ _ Hgrows i j); try done.
  by rewrite length_map.
Qed.

Lemma added_annotations_clear_of_earlier_witness :
  _HasOverlap (annotation_of_json (annotation_record 0 3 "A"))
              (annotation_of_json (annotation_record 1 2 "B")) = false.
Proof.
  apply (added_annotations_clear_of_earlier sre.finditer None
           [mkLabelPattern "(b)" "B" "r" ""; mkLabelPattern "(abc)" "A" "r" ""]
           (example_of "abc" [])
           (example_of "abc" [annotation_record 1 2 "B"; annotation_record 0 3 "A"])
           []
           (example_of "abc" [annotation_record 1 2 "B"; annotation_record 0 3 "A"],
            [(INFO, Matched (Some "b") 1 true);
             (INFO, Matched (Some "abc") 0 true)])
           ltac:(vm_compute; reflexivity) 0%nat 1%nat);
    [lia | simpl; lia | reflexivity | reflexivity].
Defined.

(** C2, as stated, does not hold: the call raises [IndexError] (line 176
    asks the match for group 1 and the patterns have no group), and the
    spans the rules find are [17,22) and [7,13), not [18,23) and [8,14). *)
Lemma end_to_end_counterexample :
  _AnnotateExample sre.finditer None flight_rules (example_of flight_text [], [])
  = (Raise IndexError, (example_of flight_text [], []))
  /\ flat_map (rule_candidates sre.finditer flight_text) flight_rules
     = [mkAnnotation 17 22 "CITY"; mkAnnotation 7 13 "TRANSPORT"].
Proof. vm_compute. auto. Qed.

(** C2, amended: on the text of the example the two rules propose, in rule
    order, the spans [17,22) labelled CITY and [7,13) labelled TRANSPORT,
    which are the code-point offsets of "Paris" and "flight"; and with each
    pattern written as a capture group, [_AnnotateExample] returns exactly
    these two annotations in that order. *)
Theorem end_to_end_offsets :
  flat_map (rule_candidates sre.finditer flight_text) flight_rules
  = [mkAnnotation 17 22 "CITY"; mkAnnotation 7 13 "TRANSPORT"]
  /\ Py.getslice flight_text 17 22 = "Paris"%string
  /\ Py.getslice flight_text 7 13 = "flight"%string
  /\ fst (_AnnotateExample sre.finditer None flight_rules_grouped
            (example_of flight_text [], []))
     = Ok (example_of flight_text
             [annotation_record 17 22 "CITY"; annotation_record 7 13 "TRANSPORT"]).
Proof. vm_compute. auto. Qed.

(** C3, on the failing input: a rule that asks for group 1 of a pattern
    without groups makes [_AnnotateExample] raise [IndexError] at
    [match.start(label_group)] of line 168, before the test of line 171
    that was to skip the candidate. A group that exists and took no part
    in the match is skipped with a warning, as the claim says. *)
Theorem missing_group_raises :
  _AnnotateExample sre.finditer None [mkLabelPattern "a" "X" "r" "1"]
    (example_of "a" [], [])
  = (Raise IndexError, (example_of "a" [], []))
  /\ _AnnotateExample sre.finditer None [mkLabelPattern "(b)|a" "X" "r" "1"]
       (example_of "a" [], [])
     = (Ok (example_of "a" []),
        (example_of "a" [], [(WARNING, SkippedEmptyMatch 0)])).
Proof. vm_compute. auto. Qed.

(** C4, on the failing input: a row of exactly two fields makes
    [_ParseDictionary] raise [IndexError] at [row[2]] of line 212, and the
    whole parse fails; the same row with an empty third field is accepted
    with mode EXACT_MATCH and an empty matching group. *)
Theorem two_field_row_raises :
  _ParseDictionary None "dictionary.csv" [csv 1 ["Paris"; "CITY"]] (tt, [])
  = (Raise IndexError, (tt, []))
  /\ _ParseDictionary None "dictionary.csv" [csv 1 ["Paris"; "CITY"; ""]] (tt, [])
     = (Ok [mkLabelPattern "Paris" "CITY" EXACT_MATCH ""],
        (tt, [(INFO, ParsedLabelPatterns 1 "dictionary.csv")])).
Proof. vm_compute. auto. Qed.

(** C5, on the failing input: the candidate [0,10) shares the code points
    2, 3 and 4 with the annotation [2,5), yet [_HasOverlap] does not
    report an overlap, since neither end of the candidate lies inside the
    annotation, and [_AddAnnotation] keeps both. *)
Lemma shared_code_point_counterexample :
  (start (mkAnnotation 0 10 "X") <= 2 < end_ (mkAnnotation 0 10 "X")
   /\ start (mkAnnotation 2 5 "Y") <= 2 < end_ (mkAnnotation 2 5 "Y"))
  /\ _HasOverlap (mkAnnotation 0 10 "X") (mkAnnotation 2 5 "Y") = false
  /\ _AddAnnotation [mkAnnotation 2 5 "Y"] (mkAnnotation 0 10 "X")
     = (true, [mkAnnotation 2 5 "Y"; mkAnnotation 0 10 "X"]).
Proof. vm_compute. repeat split; discriminate. Qed.

(** C6, on the failing input: the first rule commits [0,1); the candidate
    [0,1) of the second rule overlaps it and [_AddAnnotation] refuses it,
    but line 176 then asks the match for group 1, which the second pattern
    does not have, and the call raises [IndexError] instead of dropping
    the candidate with a log record. *)
Theorem later_overlapping_candidate_raises :
  _AnnotateExample sre.finditer None
    [mkLabelPattern "(a)" "X" "r" ""; mkLabelPattern "a" "Y" "r" ""]
    (example_of "a" [], [])
  = (Raise IndexError,
     (example_of "a" [], [(INFO, Matched (Some "a") 0 true)])).
Proof. vm_compute. reflexivity. Qed.

(** C8, on the failing input: two rows of two fields with the same pattern
    make [_ParseDictionary] raise [IndexError] on the first of them, at
    [row[2]] of line 212, so no list is returned. *)
Theorem duplicate_two_field_rows_raise :
  _ParseDictionary None "dictionary.csv"
    [csv 1 ["Paris"; "CITY"]; csv 2 ["Paris"; "TOWN"]] (tt, [])
  = (Raise IndexError, (tt, [])).
Proof. vm_compute. reflexivity. Qed.



(** C9: whatever the rules and whether the call returns or raises,
    [_AnnotateExample] leaves the text of the example as it was, keeps the
    annotations that came with it unchanged and in their order at the head
    of the list, and puts after them the annotations it added, in the
    order in which the rules, and the matches of each rule, proposed them.
    A call that raises has changed nothing. *)
Theorem annotate_frame
  (finditer : string -> string -> bool -> result (list re.Match))
  (limit : option Z) (lps : list LabelPattern) (ex : Example)
  (log : list LogRecord) :
  let out := _AnnotateExample finditer limit lps (ex, log) in
  let after := fst (snd out) in
  content (text_snippet after) = content (text_snippet ex)
  /\ (exists added,
        annotations after = annotations ex ++ map _AnnotationToJson added
        /\ sublist added
             (flat_map (rule_candidates finditer (content (text_snippet ex))) lps))
  /\ (forall ex', fst out = Ok ex' -> ex' = after)
  /\ (forall e, fst out = Raise e -> after = ex).
Proof.
  intros out after. subst after.
  destruct (_AnnotateExample_spec finditer limit lps ex log) as [Hraise Hok].
  fold out in Hraise, Hok. destruct (fst out) as [ex'|e] eqn:Hout.
  - destruct (Hok ex' eq_refl)
      as [-> [Htext [anns' [Hanns [_ [added [-> Hsub]]]]]]].
    split; [by rewrite Htext|]. split; [|split; [by intros ? [= <-] | done]].
    exists added. split; [|done].
    rewrite Hanns, map_app, map_map. f_equal.
    rewrite <- (map_id (annotations ex)) at 2. apply map_ext.
    apply annotation_json_roundtrip.
  - rewrite (Hraise e eq_refl). split; [done|].
    split; [|split; [done | done]].
    exists []. split; [by rewrite app_nil_r | apply sublist_nil_l].
Qed.

Lemma valid_rule_fields (limit : option Z) (r : csv_row) (lp : LabelPattern) :
  valid_rule limit r = Some lp -> length (fields r) <> 2%nat.
Proof.
  unfold valid_rule, rule_of_row.
  destruct (fields r) as [|f0 [|f1 [|f2 rest]]]; simpl; try done.
Qed.

Lemma row_loop_reaches (limit : option Z) (rows : list csv_row)
  (acc : list LabelPattern * gmap (string * string) Z)
  (w w' : unit * list LogRecord) :
  for_each rows (row_body limit) ([], ∅) w = (Ok acc, w') ->
  fst acc = keep_first limit rows [] /\ registered acc.
Proof.
  intros Hloop.
  destruct (decide (Exists (fun r => length (fields r) = 2%nat) rows))
    as [Hex|Hnone].
  - destruct (row_loop_raises limit rows ([], ∅) w Hex) as [log' Hraise].
    congruence.
  - apply not_Exists_Forall in Hnone; [|intros r; apply _].
    destruct (row_loop_spec limit rows ([], ∅) w Hnone registered_init)
      as [pam' [log' [Heq Hreg]]].
    rewrite Heq in Hloop. by injection Hloop as <- _.
Qed.

(** C10: the dictionary [pattern_and_mode] holds a pattern and mode only
    once a row with them was appended to the result, so a row rejected by
    a check leaves no trace in it. When the loop has run over any rows,
    the registered keys are exactly those of the rules kept. A row that
    passes the checks is appended at its turn, not skipped as a duplicate,
    whenever no row before it that passed them too has its pattern and
    mode, whatever rejected rows with that pattern and mode came before;
    and it is in the list the parser returns. *)
Theorem duplicate_tracking_after_rejection :
  (forall (limit : option Z) (rows : list csv_row)
          (acc : list LabelPattern * gmap (string * string) Z)
          (w w' : unit * list LogRecord),
     for_each rows (row_body limit) ([], ∅) w = (Ok acc, w') ->
     forall k, is_Some (snd acc !! k) <-> k ∈ map key_of (fst acc))
  /\ (forall (limit : option Z) (before : list csv_row) (r : csv_row)
             (lp : LabelPattern)
             (acc : list LabelPattern * gmap (string * string) Z)
             (w w1 w2 : unit * list LogRecord),
        for_each before (row_body limit) ([], ∅) w = (Ok acc, w1) ->
        valid_rule limit r = Some lp ->
        (forall r' lp', r' ∈ before -> valid_rule limit r' = Some lp' ->
                        key_of lp' <> key_of lp) ->
        fst (row_body limit acc r w2)
        = Ok (fst acc ++ [lp], <[key_of lp := 1]> (snd acc)))
  /\ (forall (limit : option Z) (file_path : string)
             (before after : list csv_row) (r : csv_row) (lp : LabelPattern)
             (log : list LogRecord),
        no_two_field_row (before ++ r :: after) ->
        valid_rule limit r = Some lp ->
        (forall r' lp', r' ∈ before -> valid_rule limit r' = Some lp' ->
                        key_of lp' <> key_of lp) ->
        exists out log',
          _ParseDictionary limit file_path (before ++ r :: after) (tt, log)
          = (Ok out, (tt, log'))
          /\ lp ∈ out).
Proof.
  split; [|split].
  - intros limit rows acc w w' Hloop.
    by destruct (row_loop_reaches limit rows acc w w' Hloop).
  - intros limit before r lp acc w w1 w2 Hloop Hvalid Hbefore.
    destruct (row_loop_reaches limit before acc w w1 Hloop) as [Hkept Hreg].
    destruct (row_body_other limit acc r w2 (valid_rule_fields limit r lp Hvalid))
      as [log' ->].
    rewrite Hvalid. simpl.
    rewrite (registered_existsb acc lp Hreg).
    replace (existsb _ (fst acc)) with false; [done|].
    symmetry. apply existsb_key_false. rewrite Hkept.
    intros [lp' [Hkey Hin]]%list_elem_of_fmap.
    apply keep_first_from_rows in Hin as [Hin|[r' [Hr' Hv']]].
    + by apply elem_of_nil in Hin.
    + by eapply Hbefore.
  - intros limit file_path before after r lp log Hrows Hvalid Hbefore.
    destruct (_ParseDictionary_returns limit file_path _ tt log Hrows)
      as [log' Heq].
    exists (keep_first limit (before ++ r :: after) []), log'.
    split; [done|].
    apply keep_first_accepts; [done | done|]. simpl. apply not_elem_of_nil.
Qed.

(** The first row is rejected by the label check (limit 3), the second
    has its pattern and mode and is kept. *)
Lemma duplicate_tracking_after_rejection_witness :
  exists out log',
    _ParseDictionary (Some 3) "dictionary.csv"
      ([csv 1 ["a"; "LONGLABEL"; "e"]] ++ csv 2 ["a"; "OK"; "e"] :: []) (tt, [])
    = (Ok out, (tt, log'))
    /\ mkLabelPattern "a" "OK" "e" "" ∈ out.
Proof.
  apply (proj2 (proj2 duplicate_tracking_after_rejection) (Some 3) "dictionary.csv"%string
           [csv 1 ["a"; "LONGLABEL"; "e"]%string] []
           (csv 2 ["a"; "OK"; "e"]%string)).
  - repeat constructor; simpl; lia.
  - reflexivity.
  - intros r' lp' Hin Hvalid. apply list_elem_of_singleton in Hin. subst r'.
    discriminate Hvalid.
Defined.

(** * Further properties of the code *)

Lemma NoDup_key_inj (out : list LabelPattern) (lp lp2 : LabelPattern) :
  NoDup (map key_of out) -> lp ∈ out -> lp2 ∈ out ->
  key_of lp2 = key_of lp -> lp2 = lp.
Proof.
  induction out as [|x out IH]; simpl; intros Hnd Hin Hin2 Hkey.
  - by apply elem_of_nil in Hin.
  - apply NoDup_cons in Hnd as [Hx Hnd].
    apply elem_of_cons in Hin as [->|Hin];
      apply elem_of_cons in Hin2 as [->|Hin2]; try done.
    + exfalso. apply Hx. rewrite <- Hkey. apply list_elem_of_fmap. eauto.
    + exfalso. apply Hx. rewrite Hkey. apply list_elem_of_fmap. eauto.
    + by apply IH.
Qed.

(** X1 (the dictionary dedup of C8 on the inputs the parser handles): when
    no row has exactly two fields, [_ParseDictionary] returns; no two
    rules of its result have the same pattern and mode; the result lists
    valid rows in the order of the input; and the first valid row with a
    given pattern and mode is the one rule with them in the result. *)
Theorem dictionary_dedup (limit : option Z) (file_path : string)
  (rows : list csv_row) (log : list LogRecord) :
  no_two_field_row rows ->
  exists out log',
    _ParseDictionary limit file_path rows (tt, log) = (Ok out, (tt, log'))
    /\ NoDup (map key_of out)
    /\ sublist out (omap (valid_rule limit) rows)
    /\ forall before r after lp,
         rows = before ++ r :: after ->
         valid_rule limit r = Some lp ->
         (forall r' lp', r' ∈ before -> valid_rule limit r' = Some lp' ->
                         key_of lp' <> key_of lp) ->
         lp ∈ out /\ forall lp2, lp2 ∈ out -> key_of lp2 = key_of lp -> lp2 = lp.
Proof.
  intros Hrows.
  destruct (_ParseDictionary_returns limit file_path rows tt log Hrows)
    as [log' Heq].
  exists (keep_first limit rows []), log'. split; [done|].
  assert (NoDup (map key_of (keep_first limit rows []))) as Hnd.
  { apply keep_first_NoDup. constructor. }
  split; [done|]. split.
  - destruct (keep_first_extends limit rows []) as [added [-> Hsub]]. done.
  - intros before r after lp -> Hvalid Hfirst.
    assert (lp ∈ keep_first limit (before ++ r :: after) []) as Hin.
    { apply keep_first_accepts; [done | done|]. apply not_elem_of_nil. }
    split; [done|]. intros lp2 Hin2 Hkey. by eapply NoDup_key_inj.
Qed.

Lemma dictionary_dedup_witness :
  exists out log',
    _ParseDictionary None "dictionary.csv"
      [csv 1 ["Paris"; "CITY"; "e"]; csv 2 [" Paris "; "TOWN"; "E"]] (tt, [])
    = (Ok out, (tt, log'))
    /\ NoDup (map key_of out)
    /\ sublist out
         (omap (valid_rule None)
            [csv 1 ["Paris"; "CITY"; "e"]; csv 2 [" Paris "; "TOWN"; "E"]])
    /\ forall before r after lp,
         [csv 1 ["Paris"; "CITY"; "e"]; csv 2 [" Paris "; "TOWN"; "E"]]
         = before ++ r :: after ->
         valid_rule None r = Some lp ->
         (forall r' lp', r' ∈ before -> valid_rule None r' = Some lp' ->
                         key_of lp' <> key_of lp) ->
         lp ∈ out /\ forall lp2, lp2 ∈ out -> key_of lp2 = key_of lp -> lp2 = lp.
Proof.
  apply (dictionary_dedup None "dictionary.csv"%string). 
  repeat constructor; simpl; lia.
Defined.

(** X2 (the defect behind C4 and C8, in general): a dictionary with a row
    of exactly two fields anywhere makes [_ParseDictionary] raise
    [IndexError], whatever the other rows are. *)
Theorem two_field_row_anywhere_raises (limit : option Z) (file_path : string)
  (rows : list csv_row) (log : list LogRecord) :
  Exists (fun r => length (fields r) = 2%nat) rows ->
  exists log',
    _ParseDictionary limit file_path rows (tt, log)
    = (Raise IndexError, (tt, log')).
Proof. apply _ParseDictionary_raises. Qed.

Lemma two_field_row_anywhere_raises_witness :
  exists log',
    _ParseDictionary None "dictionary.csv"
      [csv 1 ["London"; "CITY"; "e"]; csv 2 ["Paris"; "CITY"]] (tt, [])
    = (Raise IndexError, (tt, log')).
Proof.
  apply (two_field_row_anywhere_raises None "dictionary.csv"%string).
  apply Exists_cons_tl, Exists_cons_hd. reflexivity.
Defined.

(** X3 (the asymmetry behind C1 and C5): a span that extends beyond another
    on both sides does not overlap it by the test, while the inner span,
    when it is not empty, overlaps the outer one. *)
Theorem containing_span_not_flagged (a b : Annotation) :
  start a < start b -> end_ b < end_ a ->
  _HasOverlap a b = false /\ (start b < end_ b -> _HasOverlap b a = true).
Proof.
  intros Hs He. split.
  - apply not_true_iff_false. rewrite _HasOverlap_spec. lia.
  - intros Hb. apply _HasOverlap_spec. lia.
Qed.

Lemma containing_span_not_flagged_witness :
  _HasOverlap (mkAnnotation 0 10 "X") (mkAnnotation 2 5 "Y") = false
  /\ (start (mkAnnotation 2 5 "Y") < end_ (mkAnnotation 2 5 "Y") ->
      _HasOverlap (mkAnnotation 2 5 "Y") (mkAnnotation 0 10 "X") = true).
Proof.
  apply (containing_span_not_flagged (mkAnnotation 0 10 "X") (mkAnnotation 2 5 "Y"));
    simpl; lia.
Defined.

Section RaisingCalls.

Variable finditer : string -> string -> bool -> result (list re.Match).
Variable limit : option Z.

Lemma reg_out_of_range (m : re.Match) (g : Z) :
  g < 0 \/ Z.of_nat (length (re.m_marks m)) < g -> re.reg m g = Raise IndexError.
Proof.
  intros Hg. unfold re.reg. destruct (g <? 0) eqn:Hneg; [done|].
  apply Z.ltb_ge in Hneg.
  destruct (nth_error (re.regs m) (Z.to_nat g)) eqn:Hnth; [|done].
  assert (Z.to_nat g < length (re.regs m))%nat as Hlt.
  { apply nth_error_Some. by rewrite Hnth. }
  unfold re.regs in Hlt. simpl in Hlt. lia.
Qed.

(** The first rule's first match decides the call when its body raises. *)
Lemma first_match_raises (lp : LabelPattern) (rest : list LabelPattern)
  (ex : Example) (log : list LogRecord) (m : re.Match) (ms : list re.Match)
  (g : Z) (e : exn) (log' : list LogRecord) :
  select_matcher finditer lp (content (text_snippet ex)) None = Ok (Some (m :: ms)) ->
  select_group lp = Ok g ->
  match_body limit lp g (map annotation_of_json (annotations ex)) m (ex, log)
  = (Raise e, (ex, log')) ->
  _AnnotateExample finditer limit (lp :: rest) (ex, log) = (Raise e, (ex, log')).
Proof.
  intros Hsel Hgrp Hbody.
  assert (rule_body finditer limit (content (text_snippet ex))
            (map annotation_of_json (annotations ex), None) lp (ex, log)
          = (Raise e, (ex, log'))) as Hrule.
  { cbv [rule_body mbind M_bind lift snd fst]. rewrite Hsel, Hgrp.
    rewrite for_each_cons. by rewrite Hbody. }
  cbv [_AnnotateExample mbind M_bind get_object fst].
  rewrite for_each_cons. by rewrite Hrule.
Qed.

End RaisingCalls.

(** X4 (the defect behind C3, in general): whatever the matcher, when the
    first match of the first rule lacks the group the rule asks for, the
    call raises [IndexError] and leaves the example as it was. *)
Theorem missing_group_always_raises
  (finditer : string -> string -> bool -> result (list re.Match))
  (limit : option Z) (lp : LabelPattern) (rest : list LabelPattern)
  (ex : Example) (log : list LogRecord) (m : re.Match) (ms : list re.Match)
  (g : Z) :
  select_matcher finditer lp (content (text_snippet ex)) None = Ok (Some (m :: ms)) ->
  select_group lp = Ok g ->
  g < 0 \/ Z.of_nat (length (re.m_marks m)) < g ->
  _AnnotateExample finditer limit (lp :: rest) (ex, log)
  = (Raise IndexError, (ex, log)).
Proof.
  intros Hsel Hgrp Hg. eapply first_match_raises; [done | done|].
  unfold match_body, mbind, M_bind, lift, re.start.
  by rewrite (reg_out_of_range m g Hg).
Qed.

Lemma missing_group_always_raises_witness :
  _AnnotateExample sre.finditer None
    [mkLabelPattern "(\w+) (\w+)" "PAIR" "r" "3"] (example_of "ab cd" [], [])
  = (Raise IndexError, (example_of "ab cd" [], [])).
Proof.
  apply (missing_group_always_raises sre.finditer None
           (mkLabelPattern "(\w+) (\w+)" "PAIR" "r" "3") [] (example_of "ab cd" []) []
           (re.mkMatch "ab cd" (0, 5) [(0, 2); (3, 5)]) [] 3).
  - vm_compute. reflexivity.
  - reflexivity.
  - right. simpl. lia.
Defined.

(** X5 (the defect behind C2 and C6, in general): whatever the matcher,
    when the first match of the first rule has no capture group, the rule
    labels the whole match and the match is not empty, the call raises
    [IndexError]: line 176 asks the match for group 1. *)
Theorem match_without_group_raises
  (finditer : string -> string -> bool -> result (list re.Match))
  (limit : option Z) (lp : LabelPattern) (rest : list LabelPattern)
  (ex : Example) (log : list LogRecord) (m : re.Match) (ms : list re.Match) :
  select_matcher finditer lp (content (text_snippet ex)) None = Ok (Some (m :: ms)) ->
  matching_group lp = ""%string ->
  re.m_marks m = [] ->
  fst (re.m_span m) < snd (re.m_span m) ->
  re.falsy (re.slice_of m (re.m_span m)) = false ->
  _AnnotateExample finditer limit (lp :: rest) (ex, log)
  = (Raise IndexError, (ex, log)).
Proof.
  intros Hsel Hgrp Hmarks Hspan Htext.
  eapply first_match_raises; [done | by unfold select_group; rewrite Hgrp|].
  unfold match_body, mbind, M_bind, lift, re.start, re.end_, re.group, re.groups,
    re.reg, re.regs.
  rewrite Hmarks. simpl.
  replace (fst (re.m_span m) >=? snd (re.m_span m)) with false by lia.
  rewrite Htext. by destruct (_AddAnnotation _ _).
Qed.

Lemma match_without_group_raises_witness :
  _AnnotateExample sre.finditer None flight_rules (example_of flight_text [], [])
  = (Raise IndexError, (example_of flight_text [], [])).
Proof.
  apply (match_without_group_raises sre.finditer None
           (mkLabelPattern "Paris" "CITY" "e" "")
           [mkLabelPattern "flight" "TRANSPORT" "e" ""]
           (example_of flight_text []) []
           (re.mkMatch flight_text (17, 22) []) []).
  - vm_compute. reflexivity.
  - reflexivity.
  - reflexivity.
  - simpl. lia.
  - reflexivity.
Defined.

(** X6 (the priority of C6 where the regex has a group 1): a candidate
    that passes the checks and overlaps, taken as span a, an annotation
    already in the list is not added, the list is left as it was and one
    INFO record says so; and the loop over the matches of a rule only ever
    appends to the list it started from. *)
Theorem overlapping_candidate_dropped :
  (forall (limit : option Z) (lp : LabelPattern) (g : Z)
          (anns : list Annotation) (m : re.Match) (w : Example * list LogRecord)
          (s e : Z) (g1 : option string) (a : Annotation),
     re.start m g = Ok s -> re.end_ m g = Ok e -> s < e ->
     g <= Z.of_nat (length (re.groups m)) ->
     (exists t, re.group m g = Ok t /\ re.falsy t = false) ->
     re.group m 1 = Ok g1 ->
     a ∈ anns -> _HasOverlap (mkAnnotation s e (label_ lp)) a = true ->
     match_body limit lp g anns m w
     = (Ok anns, (fst w, snd w ++ [(INFO, Matched g1 s false)])))
  /\ (forall (limit : option Z) (lp : LabelPattern) (g : Z)
             (ms : list re.Match) (anns anns' : list Annotation)
             (w w' : Example * list LogRecord),
        for_each ms (match_body limit lp g) anns w = (Ok anns', w') ->
        exists added, anns' = anns ++ added).
Proof.
  split.
  - intros limit lp g anns m w s e g1 a Hs He Hlt Hg [t [Ht Hfalsy]] Hg1 Hin Hov.
    unfold match_body, mbind, M_bind, lift, emit, mret, M_ret.
    rewrite Hs, He. simpl.
    replace (s >=? e) with false by lia.
    replace (Z.of_nat (length (re.groups m)) <? g) with false by lia.
    rewrite Ht, Hfalsy. unfold _AddAnnotation.
    replace (existsb (_HasOverlap (mkAnnotation s e (label_ lp))) anns) with true.
    + by rewrite Hg1.
    + symmetry. apply existsb_exists. exists a.
      split; [by apply list_elem_of_In | done].
  - intros limit lp g ms anns anns' w w' Hloop.
    destruct (match_loop_spec limit lp g ms anns w) as [_ Hres].
    rewrite Hloop in Hres. destruct (Hres anns' eq_refl) as [_ [added [-> _]]].
    by exists added.
Qed.

Lemma overlapping_candidate_dropped_witness :
  match_body None (mkLabelPattern "(a)" "Y" "r" "") 0 [mkAnnotation 0 1 "X"]
    (re.mkMatch "a" (0, 1) [(0, 1)]) (example_of "a" [], [])
  = (Ok [mkAnnotation 0 1 "X"],
     (example_of "a" [], [(INFO, Matched (Some "a"%string) 0 false)])).
Proof.
  apply (proj1 overlapping_candidate_dropped None
           (mkLabelPattern "(a)" "Y" "r" "") 0 [mkAnnotation 0 1 "X"]
           (re.mkMatch "a" (0, 1) [(0, 1)]) (example_of "a" [], [])
           0 1 (Some "a"%string) (mkAnnotation 0 1 "X")).
  - reflexivity.
  - reflexivity.
  - lia.
  - simpl. lia.
  - exists (Some "a"%string). split; reflexivity.
  - reflexivity.
  - apply list_elem_of_singleton. reflexivity.
  - reflexivity.
Defined.

(** X7 (the warning of the dictionary dedup): a row that passed the checks
    of lines 206-218 and whose pattern and mode are registered already is
    skipped: the result and the dictionary are left as they were and one
    WARNING record names the line and the row. *)
Theorem duplicate_row_skipped_with_warning (limit : option Z)
  (acc : list LabelPattern * gmap (string * string) Z) (r : csv_row)
  (lp : LabelPattern) (w : unit * list LogRecord) :
  rule_of_row r = Some lp ->
  is_Some (snd acc !! key_of lp) ->
  row_body limit acc r w
  = (Ok acc,
     (fst w, snd w ++ [(WARNING, SkippedDuplicatePattern (line_num r) (fields r))])).
Proof.
  intros Hrule Hdup. apply (bool_decide_eq_true_2 _) in Hdup.
  unfold row_body, rule_of_row, key_of in *.
  destruct (fields r) as [|f0 [|f1 [|f2 rest]]]; try done.
  unfold_M. simpl in *.
  destruct rest as [|f3 rest]; simpl in *;
    (destruct (_ || _); [done|]); injection Hrule as <-; simpl in Hdup;
    by rewrite Hdup.
Qed.

Lemma duplicate_row_skipped_with_warning_witness :
  row_body None
    ([mkLabelPattern "Paris" "CITY" "e" ""], {[ ("Paris"%string, "e"%string) := 1 ]})
    (csv 2 [" Paris "; "TOWN"; "E"]) (tt, [])
  = (Ok ([mkLabelPattern "Paris" "CITY" "e" ""],
         {[ ("Paris"%string, "e"%string) := 1 ]}),
     (tt, [(WARNING, SkippedDuplicatePattern 2 [" Paris "; "TOWN"; "E"]%string)])).
Proof.
  apply (duplicate_row_skipped_with_warning None
           ([mkLabelPattern "Paris" "CITY" "e" ""],
            {[ ("Paris"%string, "e"%string) := 1 ]})
           (csv 2 [" Paris "; "TOWN"; "E"]%string)
           (mkLabelPattern "Paris" "TOWN" "e" "")).
  - reflexivity.
  - simpl. rewrite lookup_singleton_eq. by eexists.
Defined.

(** X8 (what the overlap test does decide): [_HasOverlap a b] holds
    exactly when the start of [a] lies in [start b, end b) or the end of
    [a] lies in (start b, end b];
    so a non-empty candidate that begins where an annotation ends is no
    overlap and both are kept ([3,6) against [0,3)), while a candidate
    whose first or last code point lies inside an annotation is an overlap
    and is dropped ([2,5) against [0,3)). *)
Theorem overlap_test_definition :
  (forall a b : Annotation,
     _HasOverlap a b = true <->
     (start b <= start a < end_ b) \/ (start b < end_ a <= end_ b))
  /\ (forall a b : Annotation,
        start a = end_ b -> start a < end_ a ->
        _HasOverlap a b = false /\ _AddAnnotation [b] a = (true, [b; a]))
  /\ (forall (a b : Annotation) (anns : list Annotation),
        (start b <= start a < end_ b) \/ (start b <= end_ a - 1 < end_ b) ->
        b ∈ anns ->
        _HasOverlap a b = true /\ _AddAnnotation anns a = (false, anns))
  /\ (forall l1 l2 : string,
        _AddAnnotation [mkAnnotation 0 3 l1] (mkAnnotation 3 6 l2)
        = (true, [mkAnnotation 0 3 l1; mkAnnotation 3 6 l2])
        /\ _AddAnnotation [mkAnnotation 0 3 l1] (mkAnnotation 2 5 l2)
           = (false, [mkAnnotation 0 3 l1])).
Proof.
  split; [apply _HasOverlap_spec|]. split; [|split].
  - intros a b Hstart Hne.
    assert (_HasOverlap a b = false) as Hno.
    { apply not_true_iff_false. rewrite _HasOverlap_spec. lia. }
    split; [done|]. unfold _AddAnnotation. simpl. by rewrite Hno.
  - intros a b anns Hin Hb.
    assert (_HasOverlap a b = true) as Hyes by (apply _HasOverlap_spec; lia).
    split; [done|]. unfold _AddAnnotation.
    replace (existsb (_HasOverlap a) anns) with true; [done|].
    symmetry. apply existsb_exists. exists b.
    split; [by apply list_elem_of_In | done].
  - intros l1 l2. split; reflexivity.
Qed.

Lemma overlap_test_definition_witness :
  _HasOverlap (mkAnnotation 3 6 "B") (mkAnnotation 0 3 "A") = false
  /\ _AddAnnotation [mkAnnotation 0 3 "A"] (mkAnnotation 3 6 "B")
     = (true, [mkAnnotation 0 3 "A"; mkAnnotation 3 6 "B"]).
Proof.
  apply (proj1 (proj2 overlap_test_definition)
           (mkAnnotation 3 6 "B") (mkAnnotation 0 3 "A")); simpl; lia.
Defined.

(** * Properties of the file-level functions *)

(** ** Strings *)

Lemma string_app_cons (c : ascii) (s1 s2 : string) :
  String c s1 +:+ s2 = String c (s1 +:+ s2).
Proof. reflexivity. Qed.

Lemma string_app_assoc (s1 s2 s3 : string) :
  (s1 +:+ s2) +:+ s3 = s1 +:+ (s2 +:+ s3).
Proof.
  induction s1 as [|c s1 IH]; [done|]. by rewrite !string_app_cons, IH.
Qed.

Lemma string_app_length (s1 s2 : string) :
  String.length (s1 +:+ s2) = (String.length s1 + String.length s2)%nat.
Proof.
  induction s1 as [|c s1 IH]; [done|]. rewrite string_app_cons. simpl.
  by rewrite IH.
Qed.

Lemma string_app_nil_r (s : string) : s +:+ "" = s.
Proof.
  induction s as [|c s IH]; [done|]. by rewrite string_app_cons, IH.
Qed.

(** ** The statement monad of the file-level functions *)

(** A run is its result and its final state. *)
Lemma run_returns {A S : Type} (run : outcome A * S) (a : A) :
  fst run = Returns a -> run = (Returns a, snd run).
Proof. destruct run as [r s]. simpl. by intros ->. Qed.

Lemma run_raises {A S : Type} (run : outcome A * S) (e : error) :
  fst run = Raises e -> run = (Raises e, snd run).
Proof. destruct run as [r s]. simpl. by intros ->. Qed.

Section StatementFacts.

Context {World : Type}.

Lemma IO_bind_returns {A B : Type} (c : IO World A) (k : A -> IO World B)
  (s s1 : state World) (a : A) :
  c s = (Returns a, s1) -> (c ≫= k) s = k a s1.
Proof. intros Hc. unfold mbind, IO_bind. now rewrite Hc. Qed.

Lemma IO_bind_raises {A B : Type} (c : IO World A) (k : A -> IO World B)
  (s s1 : state World) (e : error) :
  c s = (Raises e, s1) -> (c ≫= k) s = (Raises e, s1).
Proof. intros Hc. unfold mbind, IO_bind. now rewrite Hc. Qed.

(** A statement that never returns makes what it ends never return. *)
Lemma IO_bind_never {A B : Type} (c : IO World A) (k : A -> IO World B) :
  (forall a s, exists e s1, k a s = (Raises e, s1)) ->
  forall s, exists e s1, (c ≫= k) s = (Raises e, s1).
Proof.
  intros Hk s. unfold mbind, IO_bind.
  destruct (c s) as [[a|e] s1]; [apply Hk | eauto].
Qed.

Lemma quiet_ret {A : Type} (a : A) : quiet (mret a : IO World A).
Proof. now intros s. Qed.

Lemma quiet_fail {A : Type} (e : error) : quiet (fail e : IO World A).
Proof. now intros s. Qed.

Lemma quiet_ask {A : Type} (f : World -> outcome A) : quiet (ask f).
Proof. now intros s. Qed.

Lemma quiet_get_flags : quiet (get_flags (World := World)).
Proof. now intros s. Qed.

Lemma quiet_log_event (e : event) : quiet (log_event (World := World) e).
Proof. now intros s. Qed.

Lemma quiet_call {St A : Type} (c : M St A) (object : St) :
  quiet (call (World := World) c object).
Proof.
  intros s. unfold call.
  destruct (c (object, [])) as [[a|e] [o l]]; now simpl.
Qed.

Lemma quiet_bind {A B : Type} (c : IO World A) (k : A -> IO World B) :
  quiet c -> (forall a, quiet (k a)) -> quiet (c ≫= k).
Proof.
  intros Hc Hk s. unfold mbind, IO_bind.
  specialize (Hc s). destruct (c s) as [[a|e] s1]; simpl in *.
  - destruct Hc as [Hc1 Hc2]. destruct (Hk a s1) as [H1 H2]. split; congruence.
  - exact Hc.
Qed.

Lemma quiet_for_in {A X : Type} (xs : list X) (body : A -> X -> IO World A) :
  (forall acc x, quiet (body acc x)) -> forall acc, quiet (for_in xs body acc).
Proof.
  intros Hbody. induction xs as [|x xs IH]; intros acc; simpl.
  - apply quiet_ret.
  - apply quiet_bind; [apply Hbody | intros a; apply IH].
Qed.

Lemma quiet_for_line_in {A : Type} (rd : reading)
  (body : A -> string -> IO World A) :
  (forall acc x, quiet (body acc x)) -> forall acc, quiet (for_line_in rd body acc).
Proof.
  intros Hbody acc. unfold for_line_in.
  apply quiet_bind; [now apply quiet_for_in|].
  intros a. destruct (failure rd); [apply quiet_fail | apply quiet_ret].
Qed.

End StatementFacts.

Create HintDb quiet.

#[local] Hint Resolve quiet_ret quiet_fail quiet_ask quiet_get_flags
  quiet_log_event quiet_call : quiet.

(** ** [export] *)

(** X9. Called with an empty [output_csv] (or [None]), [export] never
    returns: whatever the files hold, whatever the format, it ends in an
    exception, at the latest the [UnboundLocalError] of [fcsv.close()] on
    line 356. *)
Theorem export_without_csv_never_returns
  (loads : string -> outcome json.value) {World Handle : Type}
  `{!OS World Handle} (jsonl_files : list string) (export_format : string)
  (s : state World) :
  exists e s1, export loads jsonl_files export_format "" s = (Raises e, s1).
Proof.
  unfold export. change (builtins.truthy "") with false. cbv iota.
  rewrite (IO_bind_returns (mret None) _ s s None) by reflexivity.
  apply IO_bind_never. intros _ s1.
  apply IO_bind_never. intros acc s2.
  now exists (Core UnboundLocalError), s2.
Qed.

(** ** What a statement establishes when it returns *)

Section Triples.

Context {World : Type}.

Lemma triple_weaken {A : Type} (pre pre' : state World -> Prop) (c : IO World A)
  (post post' : A -> state World -> Prop) :
  triple pre' c post' ->
  (forall s, pre s -> pre' s) ->
  (forall a s, post' a s -> post a s) ->
  triple pre c post.
Proof. intros Hc Hpre Hpost s Hs a s1 Hrun. eauto. Qed.

Lemma triple_ret {A : Type} (pre : state World -> Prop) (a : A) :
  triple pre (mret a) (fun a' s => a' = a /\ pre s).
Proof. intros s Hs a' s1 [= <- <-]. auto. Qed.

Lemma triple_fail {A : Type} (pre : state World -> Prop) (e : error)
  (post : A -> state World -> Prop) :
  triple pre (fail e) post.
Proof. intros s Hs a' s1 [=]. Qed.

Lemma triple_bind {A B : Type} (pre : state World -> Prop) (c : IO World A)
  (mid : A -> state World -> Prop) (k : A -> IO World B)
  (post : B -> state World -> Prop) :
  triple pre c mid ->
  (forall a, triple (mid a) (k a) post) ->
  triple pre (c ≫= k) post.
Proof.
  intros Hc Hk s Hs b s2. unfold mbind, IO_bind.
  destruct (c s) as [[a|e] s1] eqn:Hrun; [|intros [=]].
  intros Hrun2. exact (Hk a s1 (Hc s Hs a s1 Hrun) b s2 Hrun2).
Qed.

Lemma triple_for_in {A X : Type} (inv : A -> state World -> Prop)
  (xs : list X) (body : A -> X -> IO World A) :
  (forall acc x, In x xs -> triple (inv acc) (body acc x) inv) ->
  forall acc, triple (inv acc) (for_in xs body acc) inv.
Proof.
  induction xs as [|x xs IH]; intros Hbody acc; simpl.
  - intros s Hs a s1 [= <- <-]. exact Hs.
  - eapply triple_bind; [apply Hbody; now left|].
    intros a. apply IH. intros acc' x' Hin. apply Hbody. now right.
Qed.

Lemma triple_for_line_in {A : Type} (inv : A -> state World -> Prop)
  (rd : reading) (body : A -> string -> IO World A) :
  (forall acc x, In x (yielded rd) -> triple (inv acc) (body acc x) inv) ->
  forall acc, triple (inv acc) (for_line_in rd body acc) inv.
Proof.
  intros Hbody acc. unfold for_line_in.
  eapply triple_bind; [now apply triple_for_in|].
  intros a. destruct (failure rd); [apply triple_fail|].
  intros s Hs a' s1 [= <- <-]. exact Hs.
Qed.

(** A statement that changes at most the world and the log keeps what is
    known of the flags. *)
Lemma triple_ask {A : Type} (pre : state World -> Prop) (f : World -> outcome A) :
  triple pre (ask f) (fun a s => f (st_world s) = Returns a /\ pre s).
Proof. intros s Hs a s1 [= Hf <-]. auto. Qed.

Lemma triple_get_flags (pre : state World -> Prop) :
  triple pre get_flags (fun f s => f = st_flags s /\ pre s).
Proof. intros s Hs a s1 [= <- <-]. auto. Qed.

Lemma triple_perform {A : Type} (flags : FLAGS.t)
  (op : World -> outcome A * World) :
  triple (fun s => st_flags s = flags) (perform op)
    (fun _ s => st_flags s = flags).
Proof.
  intros s Hs a s1. unfold perform.
  destruct (op (st_world s)) as [r w]. now intros [= _ <-].
Qed.

End Triples.

Section ExportFacts.

Variable loads : string -> outcome json.value.
Context {World Handle : Type} `{!OS World Handle}.

(** With a format other than the two [export] knows, a line only has to
    be a JSON document: it adds nothing to the result. *)
Lemma export_line_unknown_format (export_format output_csv : string)
  (fcsv : option Handle) :
  export_format <> "SPACY"%string -> export_format <> "BILUO"%string ->
  forall acc line,
    triple (fun _ => acc = [])
      (export_line loads export_format output_csv fcsv acc line)
      (fun acc' _ => acc' = []).
Proof.
  intros H1 H2 acc line s -> acc' s1. unfold export_line.
  apply String.eqb_neq in H1, H2. rewrite H1, H2. simpl.
  unfold_IO. destruct (loads line); now intros [= <- <-].
Qed.

(** With [FLAGS.skip_blank_annotations] set, a line adds an example to the
    result of a SPACY export only with at least one entity. *)
Lemma export_line_skips_blank (output_csv : string) (fcsv : option Handle)
  (flags : FLAGS.t) :
  FLAGS.skip_blank_annotations flags = true ->
  forall acc line,
    triple
      (fun s => st_flags s = flags
                /\ Forall (fun x => exists text entities,
                             x = SpacyExample text entities /\ entities <> [])
                     acc)
      (export_line loads "SPACY" output_csv fcsv acc line)
      (fun acc' s => st_flags s = flags
                /\ Forall (fun x => exists text entities,
                             x = SpacyExample text entities /\ entities <> [])
                     acc').
Proof.
  intros Hskip acc line s [Hflags Hacc] acc' s1. unfold export_line.
  simpl (String.eqb _ _). cbv iota. simpl orb. cbv iota.
  unfold mbind at 1, IO_bind at 1, ask at 1.
  destruct (loads line) as [v|e]; [|intros [=]].
  unfold mbind at 1, IO_bind at 1, ask at 1.
  destruct (example_of_value v) as [typed|e]; [|intros [=]].
  set (entities := map _ (annotations typed)).
  unfold mbind at 1, IO_bind at 1.
  match goal with |- context [match ?c s with _ => _ end] =>
    assert (Hc : st_flags (snd (c s)) = flags) end.
  { destruct (builtins.truthy output_csv); [|exact Hflags].
    destruct fcsv as [f|]; [|exact Hflags].
    unfold perform. destruct (os_write _ _ _) as [r w]. exact Hflags. }
  match goal with |- context [match ?c s with _ => _ end] =>
    destruct (c s) as [[[]|e] s2] end; [|intros [=]].
  simpl in Hc. unfold_IO. rewrite Hc, Hskip. simpl.
  destruct entities as [|en entities'] eqn:Hen; simpl.
  - intros [= <- <-]. auto.
  - intros [= <- <-]. split; [exact Hc|].
    apply Forall_app. split; [exact Hacc|].
    constructor; [|constructor]. eexists _, _. split; [reflexivity|]. discriminate.
Qed.

End ExportFacts.

(** X10. With an export format other than 'SPACY' and 'BILUO', [export]
    returns the empty list whenever it returns: the lines of the files are
    parsed as JSON and otherwise ignored. *)
Theorem export_unknown_format_is_empty
  (loads : string -> outcome json.value) {World Handle : Type}
  `{!OS World Handle} (jsonl_files : list string)
  (export_format output_csv : string) (s s1 : state World)
  (new_examples : list exported) :
  export_format <> "SPACY"%string ->
  export_format <> "BILUO"%string ->
  export loads jsonl_files export_format output_csv s = (Returns new_examples, s1) ->
  new_examples = [].
Proof.
  intros H1 H2 Hrun.
  cut (triple (fun _ => True)
         (export loads jsonl_files export_format output_csv)
         (fun r _ => r = [])).
  { intros T. exact (T s I _ _ Hrun). }
  clear Hrun. unfold export.
  eapply triple_bind with (mid := fun _ _ => True); [easy|]. intros fcsv.
  eapply triple_bind with (mid := fun _ _ => True); [easy|]. intros _.
  eapply triple_bind with (mid := fun r _ => r = []).
  - eapply triple_weaken with (pre' := fun _ => @nil exported = [])
                              (post' := fun r _ => r = []); [|easy|easy].
    apply (triple_for_in (fun r _ => r = [])). intros acc file _.
    eapply triple_bind with (mid := fun _ _ => acc = []); [intros s2 Hs ? ? ?; exact Hs|].
    intros rd.
    apply (triple_for_line_in (fun r _ => r = [])). intros acc' line _.
    now apply export_line_unknown_format.
  - intros r.
    eapply triple_bind with (mid := fun _ _ => r = []).
    + intros s2 Hs [] s3 _. exact Hs.
    + intros []. intros s2 Hs a s3 [= <- <-]. exact Hs.
Qed.

Lemma export_unknown_format_is_empty_witness :
  fst (export json.loads ["a.jsonl"%string] "CONLL" "label-value.csv"
         (memfs.initial
            [("a.jsonl"%string,
              jsonl_line (example_of "to Paris" [annotation_record 3 8 "CITY"]))]))
  = Returns []
  /\ @nil exported = [].
Proof.
  split; [vm_compute; reflexivity|].
  apply (export_unknown_format_is_empty json.loads ["a.jsonl"%string] "CONLL"
           "label-value.csv"
           (memfs.initial
              [("a.jsonl"%string,
                jsonl_line (example_of "to Paris" [annotation_record 3 8 "CITY"]))])
           (snd (export json.loads ["a.jsonl"%string] "CONLL" "label-value.csv"
                   (memfs.initial
                      [("a.jsonl"%string,
                        jsonl_line (example_of "to Paris"
                                      [annotation_record 3 8 "CITY"]))]))));
    [discriminate | discriminate | apply run_returns; vm_compute; reflexivity].
Defined.

(** X11. With [FLAGS.skip_blank_annotations] set, every example a SPACY
    export returns has at least one entity. *)
Theorem export_skips_blank_examples
  (loads : string -> outcome json.value) {World Handle : Type}
  `{!OS World Handle} (jsonl_files : list string) (output_csv : string)
  (s s1 : state World) (new_examples : list exported) :
  FLAGS.skip_blank_annotations (st_flags s) = true ->
  export loads jsonl_files "SPACY" output_csv s = (Returns new_examples, s1) ->
  Forall (fun x => exists text entities,
            x = SpacyExample text entities /\ entities <> [])
    new_examples.
Proof.
  intros Hskip Hrun.
  set (good := Forall (fun x => exists text entities,
                         x = SpacyExample text entities /\ entities <> [])).
  cut (triple (fun s' => st_flags s' = st_flags s)
         (export loads jsonl_files "SPACY" output_csv)
         (fun r _ => good r)).
  { intros T. exact (T s eq_refl _ _ Hrun). }
  clear Hrun. unfold export.
  eapply triple_bind with (mid := fun _ s' => st_flags s' = st_flags s).
  { destruct (builtins.truthy output_csv).
    - eapply triple_bind; [apply triple_perform|].
      intros f s2 Hs a s3 [= <- <-]. exact Hs.
    - intros s2 Hs a s3 [= <- <-]. exact Hs. }
  intros fcsv.
  eapply triple_bind; [apply triple_perform|]. intros [].
  eapply triple_bind with (mid := fun r _ => good r).
  - eapply triple_weaken
      with (pre' := fun s' => st_flags s' = st_flags s /\ good [])
           (post' := fun r s' => st_flags s' = st_flags s /\ good r).
    + apply (triple_for_in (fun r s' => st_flags s' = st_flags s /\ good r)).
      intros acc file _.
      eapply triple_bind
        with (mid := fun _ s' => st_flags s' = st_flags s /\ good acc).
      { intros s2 Hs ? ? [= _ <-]. exact Hs. }
      intros rd.
      apply (triple_for_line_in
               (fun r s' => st_flags s' = st_flags s /\ good r)).
      intros acc' line _. now apply export_line_skips_blank.
    + intros s2 Hs. split; [exact Hs | constructor].
    + now intros r s2 [_ Hr].
  - intros r.
    eapply triple_bind with (mid := fun _ _ => good r).
    + intros s2 Hs [] s3 _. exact Hs.
    + intros []. intros s2 Hs a s3 [= <- <-]. exact Hs.
Qed.

Lemma export_skips_blank_examples_witness :
  fst (export json.loads ["a.jsonl"%string] "SPACY" "label-value.csv"
         (memfs.initial
            [("a.jsonl"%string,
              jsonl_line (example_of "to Paris" [annotation_record 3 8 "CITY"])
              +:+ jsonl_line (example_of "to nowhere" []))]))
  = Returns [SpacyExample "to Paris" [(3, 8, "CITY"%string)]]
  /\ Forall (fun x => exists text entities,
               x = SpacyExample text entities /\ entities <> [])
       [SpacyExample "to Paris" [(3, 8, "CITY"%string)]].
Proof.
  split; [vm_compute; reflexivity|].
  apply (export_skips_blank_examples json.loads ["a.jsonl"%string]
           "label-value.csv"
           (memfs.initial
              [("a.jsonl"%string,
                jsonl_line (example_of "to Paris" [annotation_record 3 8 "CITY"])
                +:+ jsonl_line (example_of "to nowhere" []))])
           (snd (export json.loads ["a.jsonl"%string] "SPACY" "label-value.csv"
                   (memfs.initial
                      [("a.jsonl"%string,
                        jsonl_line (example_of "to Paris"
                                      [annotation_record 3 8 "CITY"])
                        +:+ jsonl_line (example_of "to nowhere" []))]))));
    [reflexivity | apply run_returns; vm_compute; reflexivity].
Defined.

(** ** [AnnotateFiles] *)

Section AnnotateFacts.

Variable finditer : string -> string -> bool -> result (list re.Match).
Variable loads : string -> outcome json.value.
Variable MAX_ANNOTATION_TOKENS : option Z.
Context {World Handle : Type} `{!OS World Handle}.

(** Annotating a line reads and logs, and touches no file. *)
Lemma quiet_annotate_line (label_patterns : list LabelPattern) (line : string) :
  quiet (annotate_line (World := World) finditer loads MAX_ANNOTATION_TOKENS
           label_patterns line).
Proof.
  unfold annotate_line.
  apply quiet_bind; [apply quiet_ask|]. intros example.
  apply quiet_bind; [apply quiet_ask|]. intros typed.
  apply quiet_bind; [apply quiet_call|]. intros r. apply quiet_ret.
Qed.

Lemma annotate_line_rejected (label_patterns : list LabelPattern) (line : string)
  (e : error) (s : state World) :
  loads line = Raises e ->
  annotate_line finditer loads MAX_ANNOTATION_TOKENS label_patterns line s
  = (Raises e, s).
Proof. intros Hline. unfold annotate_line. unfold_IO. by rewrite Hline. Qed.

(** A loop over lines of which one is rejected raises, whatever the other
    lines do. *)
Lemma annotate_lines_rejected (label_patterns : list LabelPattern)
  (lines : list string) (line : string) (e0 : error) :
  line ∈ lines -> loads line = Raises e0 ->
  forall (acc : list string) (s : state World),
    exists e s1,
      for_in lines
        (fun json_lines line =>
           json_line ← annotate_line finditer loads MAX_ANNOTATION_TOKENS
                         label_patterns line;
           mret (json_lines ++ [json_line])) acc s
      = (Raises e, s1).
Proof.
  intros Hin Hline. induction lines as [|l lines IH]; intros acc s.
  - by apply elem_of_nil in Hin.
  - cbn [for_in]. unfold mbind at 1, IO_bind at 1.
    destruct (decide (l = line)) as [->|Hne].
    + unfold mbind, IO_bind.
      rewrite (annotate_line_rejected _ _ e0) by done. eauto.
    + apply elem_of_cons in Hin as [->|Hin]; [done|].
      match goal with |- context [match ?c s with _ => _ end] =>
        destruct (c s) as [[acc'|e] s1] end; [|eauto].
      by apply IH.
Qed.

End AnnotateFacts.

(** X12. Without a dictionary ([FLAGS.dictionary] is [None] or empty)
    [AnnotateFiles] returns the list it was given and does nothing else:
    no file is read or written and nothing is logged. *)
Theorem AnnotateFiles_without_dictionary
  (finditer : string -> string -> bool -> result (list re.Match))
  (loads : string -> outcome json.value)
  (MAX_ANNOTATION_TOKENS MAX_LABEL_LENGTH : option Z)
  {World Handle : Type} `{!OS World Handle}
  (import_files : list string) (s : state World) :
  FLAGS.dictionary (st_flags s) = None
  \/ FLAGS.dictionary (st_flags s) = Some ""%string ->
  AnnotateFiles finditer loads MAX_ANNOTATION_TOKENS MAX_LABEL_LENGTH
    import_files s
  = (Returns import_files, s).
Proof.
  intros Hd. unfold AnnotateFiles. unfold mbind, IO_bind, get_flags.
  by destruct Hd as [-> | ->].
Qed.

Lemma AnnotateFiles_without_dictionary_witness :
  AnnotateFiles sre.finditer json.loads None None ["a.jsonl"%string]
    (memfs.initial [("a.jsonl"%string, _ConvertOneExample "to Paris")])
  = (Returns ["a.jsonl"%string],
     memfs.initial [("a.jsonl"%string, _ConvertOneExample "to Paris")]).
Proof.
  apply (AnnotateFiles_without_dictionary sre.finditer json.loads None None).
  left. reflexivity.
Defined.

(** X13. When the dictionary yields no rule (every row is malformed, or
    the file is empty), [AnnotateFiles] returns the list it was given and
    leaves every file as it was: only the records of the parse are
    logged. *)
Theorem AnnotateFiles_without_rules
  (finditer : string -> string -> bool -> result (list re.Match))
  (loads : string -> outcome json.value)
  (MAX_ANNOTATION_TOKENS MAX_LABEL_LENGTH : option Z)
  {World Handle : Type} `{!OS World Handle}
  (import_files : list string) (s : state World) (dictionary : string)
  (rows : list csv_row) :
  FLAGS.dictionary (st_flags s) = Some dictionary ->
  dictionary <> ""%string ->
  os_csv_reader (st_world s) dictionary = Returns rows ->
  no_two_field_row rows ->
  keep_first MAX_LABEL_LENGTH rows [] = [] ->
  exists records,
    AnnotateFiles finditer loads MAX_ANNOTATION_TOKENS MAX_LABEL_LENGTH
      import_files s
    = (Returns import_files,
       mkState (st_flags s) (st_world s) (st_log s ++ map Logged records)).
Proof.
  intros Hd Hne Hrows Hshape Hnone.
  destruct (_ParseDictionary_returns MAX_LABEL_LENGTH dictionary rows tt []
              Hshape) as [records Hparse].
  exists records. unfold AnnotateFiles. unfold mbind at 1, IO_bind at 1, get_flags.
  rewrite Hd.
  replace (builtins.truthy dictionary) with true
    by (destruct dictionary; [done | reflexivity]).
  cbn [negb]. unfold parse_dictionary_file.
  unfold mbind, IO_bind, ask, call, mret, IO_ret.
  rewrite Hrows, Hparse, Hnone. reflexivity.
Qed.

Lemma AnnotateFiles_without_rules_witness :
  exists records,
    AnnotateFiles sre.finditer json.loads None None ["a.jsonl"%string]
      (memfs.started (FLAGS.mk false (Some "d.csv"%string) "" true "" true)
         [("a.jsonl"%string, _ConvertOneExample "to Paris");
          ("d.csv"%string, "Paris" +:+ builtins.newline)])
    = (Returns ["a.jsonl"%string],
       mkState
         (st_flags
            (memfs.started (FLAGS.mk false (Some "d.csv"%string) "" true "" true)
               [("a.jsonl"%string, _ConvertOneExample "to Paris");
                ("d.csv"%string, "Paris" +:+ builtins.newline)]))
         (st_world
            (memfs.started (FLAGS.mk false (Some "d.csv"%string) "" true "" true)
               [("a.jsonl"%string, _ConvertOneExample "to Paris");
                ("d.csv"%string, "Paris" +:+ builtins.newline)]))
         (st_log
            (memfs.started (FLAGS.mk false (Some "d.csv"%string) "" true "" true)
               [("a.jsonl"%string, _ConvertOneExample "to Paris");
                ("d.csv"%string, "Paris" +:+ builtins.newline)])
          ++ map Logged records)).
Proof.
  apply (AnnotateFiles_without_rules sre.finditer json.loads None None
           ["a.jsonl"%string]
           (memfs.started (FLAGS.mk false (Some "d.csv"%string) "" true "" true)
              [("a.jsonl"%string, _ConvertOneExample "to Paris");
               ("d.csv"%string, "Paris" +:+ builtins.newline)])
           "d.csv"%string [csv 1 ["Paris"%string]]).
  - reflexivity.
  - discriminate.
  - vm_compute. reflexivity.
  - repeat constructor; simpl; lia.
  - reflexivity.
Defined.

(** X14. A jsonl file is rewritten only after every one of its lines was
    read and annotated: when [json.loads] rejects a line anywhere in the
    file, the pass over that file raises and the file system is left as it
    was, the file itself included. *)
Theorem annotate_file_all_or_nothing
  (finditer : string -> string -> bool -> result (list re.Match))
  (loads : string -> outcome json.value)
  (MAX_ANNOTATION_TOKENS : option Z)
  {World Handle : Type} `{!OS World Handle}
  (label_patterns : list LabelPattern) (import_file : string)
  (s : state World) (rd : reading) (line : string) (e0 : error) :
  import_file <> ""%string ->
  os_isfile (st_world s) import_file = true ->
  os_read (st_world s) import_file utf_8 = Returns rd ->
  line ∈ yielded rd ->
  loads line = Raises e0 ->
  exists e s1,
    annotate_file finditer loads MAX_ANNOTATION_TOKENS label_patterns
      import_file s
    = (Raises e, s1)
    /\ st_world s1 = st_world s
    /\ st_flags s1 = st_flags s.
Proof.
  intros Hne Hfile Hread Hin Hline. unfold annotate_file.
  unfold mbind at 1, IO_bind at 1, ask at 1. rewrite Hfile.
  replace (builtins.truthy import_file) with true
    by (destruct import_file; [done | reflexivity]).
  cbn [negb orb].
  unfold mbind at 1, IO_bind at 1, ask at 1. rewrite Hread.
  unfold mbind at 1, IO_bind at 1.
  set (body := fun (json_lines : list string) (line : string) => _).
  assert (quiet (for_line_in rd body [])) as Hquiet.
  { apply quiet_for_line_in. intros acc l. unfold body.
    apply quiet_bind; [apply quiet_annotate_line | intros a; apply quiet_ret]. }
  assert (exists e s1, for_line_in rd body [] s = (Raises e, s1))
    as [e [s1 Hloop]].
  { destruct (annotate_lines_rejected finditer loads MAX_ANNOTATION_TOKENS
                label_patterns (yielded rd) line e0 Hin Hline [] s)
      as [e [s1 Hraise]].
    exists e, s1. unfold for_line_in. by apply IO_bind_raises. }
  specialize (Hquiet s). rewrite Hloop in *. simpl in Hquiet.
  exists e, s1. by split.
Qed.

Lemma annotate_file_all_or_nothing_witness :
  exists e s1,
    annotate_file sre.finditer json.loads None
      [mkLabelPattern "(Paris)" "CITY" "e" ""] "a.jsonl"
      (memfs.initial
         [("a.jsonl"%string,
           _ConvertOneExample "to Paris" +:+ "{" +:+ builtins.newline)])
    = (Raises e, s1)
    /\ st_world s1
       = st_world
           (memfs.initial
              [("a.jsonl"%string,
                _ConvertOneExample "to Paris" +:+ "{" +:+ builtins.newline)])
    /\ st_flags s1
       = st_flags
           (memfs.initial
              [("a.jsonl"%string,
                _ConvertOneExample "to Paris" +:+ "{" +:+ builtins.newline)]).
Proof.
  apply (annotate_file_all_or_nothing sre.finditer json.loads None
           [mkLabelPattern "(Paris)" "CITY" "e" ""] "a.jsonl"%string
           (memfs.initial
              [("a.jsonl"%string,
                _ConvertOneExample "to Paris" +:+ "{" +:+ builtins.newline)])
           (whole [_ConvertOneExample "to Paris"; "{" +:+ builtins.newline])
           ("{" +:+ builtins.newline) JSONDecodeError).
  - discriminate.
  - reflexivity.
  - vm_compute. reflexivity.
  - apply list_elem_of_further, list_elem_of_here.
  - vm_compute. reflexivity.
Defined.

(** ** [ConvertOneFile] *)

Section ConvertFacts.

Variable MAX_EXAMPLE_SIZE_IN_BYTES : option Z.
Context {World Handle : Type} `{!OS World Handle}.

(** One example per line: the loop of lines 67-86 maps the kept lines to
    examples and counts the others. *)
Lemma convert_lines_one_per_line (auto_split : bool) (lines : list string) :
  forall (acc : conversion) (s : state World),
    FLAGS.one_document_per_line (st_flags s) = true ->
    for_in lines (convert_line MAX_EXAMPLE_SIZE_IN_BYTES auto_split) acc s
    = (Returns
         (mkConversion
            (json_lines acc
             ++ map _ConvertOneExample (kept_lines MAX_EXAMPLE_SIZE_IN_BYTES lines))
            (example_content acc)
            (blank_lines acc + count_blank lines)
            (long_lines acc + count_long MAX_EXAMPLE_SIZE_IN_BYTES lines)),
       s).
Proof.
  induction lines as [|line lines IH]; intros acc s Hflag.
  - cbn. unfold kept_lines, count_blank, count_long. cbn.
    rewrite app_nil_r, !Z.add_0_r. by destruct acc.
  - cbn [for_in]. unfold mbind at 1, IO_bind at 1.
    unfold kept_lines, count_blank, count_long in *. cbn [map List.filter].
    unfold convert_line at 1.
    destruct (builtins.truthy (Py.strip line)) eqn:Hblank; cbn [negb andb].
    + destruct (exceeds _ MAX_EXAMPLE_SIZE_IN_BYTES) eqn:Hlong; cbn [negb].
      * unfold mret at 1, IO_ret at 1. rewrite IH by done. cbn [length].
        cbn [json_lines example_content blank_lines long_lines].
        do 3 f_equal. lia.
      * unfold mbind at 1, IO_bind at 1, get_flags at 1. rewrite Hflag.
        unfold mret at 1, IO_ret at 1. rewrite IH by done. cbn [map].
        cbn [json_lines example_content blank_lines long_lines].
        by rewrite <- app_assoc.
    + unfold mret at 1, IO_ret at 1. rewrite IH by done. cbn [length].
      cbn [json_lines example_content blank_lines long_lines].
      do 3 f_equal. lia.
Qed.

End ConvertFacts.

(** X15. With [FLAGS.one_document_per_line] set (as [generate] always sets
    it), [ConvertOneFile] writes one example per line of the input that is
    neither blank after stripping nor longer than the limit, in the order
    of the input and with the line stripped as its text, and logs how many
    lines it skipped as blank and as long. The argument [auto_split] has
    no effect. *)
Theorem ConvertOneFile_one_document_per_line
  (MAX_EXAMPLE_SIZE_IN_BYTES : option Z) {World Handle : Type}
  `{!OS World Handle} (import_file : string) (auto_split : bool)
  (full_output_jsonl : string) (s : state World) (lines : list string) :
  FLAGS.one_document_per_line (st_flags s) = true ->
  os_read (st_world s) import_file utf_8 = Returns (whole lines) ->
  ConvertOneFile MAX_EXAMPLE_SIZE_IN_BYTES import_file auto_split
    full_output_jsonl s
  = (with_open_w full_output_jsonl utf_8
       (fun output_file =>
          writelines output_file
            (map _ConvertOneExample (kept_lines MAX_EXAMPLE_SIZE_IN_BYTES lines)));;
     log_event
       (Converted import_file full_output_jsonl
          (extra_info (count_blank lines)
             (count_long MAX_EXAMPLE_SIZE_IN_BYTES lines)))) s.
Proof.
  intros Hflag Hread. unfold ConvertOneFile.
  unfold mbind at 1, IO_bind at 1, ask at 1. rewrite Hread.
  unfold mbind at 1, IO_bind at 1, for_line_in.
  unfold mbind at 1, IO_bind at 1.
  rewrite convert_lines_one_per_line by done. cbn [yielded failure whole].
  unfold mret at 1, IO_ret at 1.
  cbn [json_lines example_content blank_lines long_lines app].
  change (builtins.truthy "") with false. cbv iota.
  by rewrite !Z.add_0_l.
Qed.

Lemma ConvertOneFile_one_document_per_line_witness :
  ConvertOneFile None "in.txt" false "out/in.jsonl"
    (memfs.initial
       [("in.txt"%string,
         " to Paris " +:+ builtins.newline +:+ builtins.newline +:+ "by train")])
  = (with_open_w "out/in.jsonl" utf_8
       (fun output_file =>
          writelines output_file
            (map _ConvertOneExample
               (kept_lines None
                  [" to Paris " +:+ builtins.newline; builtins.newline;
                   "by train"%string])));;
     log_event
       (Converted "in.txt" "out/in.jsonl"
          (extra_info
             (count_blank
                [" to Paris " +:+ builtins.newline; builtins.newline;
                 "by train"%string])
             (count_long None
                [" to Paris " +:+ builtins.newline; builtins.newline;
                 "by train"%string]))))
      (memfs.initial
         [("in.txt"%string,
           " to Paris " +:+ builtins.newline +:+ builtins.newline +:+ "by train")]).
Proof.
  apply (ConvertOneFile_one_document_per_line None "in.txt"%string false
           "out/in.jsonl"%string).
  - reflexivity.
  - vm_compute. reflexivity.
Defined.

(** ** [generate] *)

(** X16. Asked to split without a maximum length ([None] or 0),
    [generate] logs an error and raises before it touches the file system:
    no directory is made, no file is read or written. Four attributes of
    [FLAGS] are already assigned by then; the export format and the
    dictionary are not. *)
Theorem generate_split_requires_length
  (finditer : string -> string -> bool -> result (list re.Match))
  (loads : string -> outcome json.value)
  (MAX_EXAMPLE_SIZE_IN_BYTES MAX_ANNOTATION_TOKENS MAX_LABEL_LENGTH : option Z)
  {World Handle : Type} `{!OS World Handle}
  (import_files : list string) (regex_file : option string)
  (export_format export_dir : string) (skip_blank_annotations : bool)
  (s : state World) :
  let raised :=
    (Raises (Exception "Maximum Example Length required to split the examples"),
     mkState
       (FLAGS.mk true (FLAGS.dictionary (st_flags s)) export_dir true
          (FLAGS.export_format (st_flags s)) skip_blank_annotations)
       (st_world s) (st_log s ++ [MaximumLengthRequired])) in
  generate finditer loads MAX_EXAMPLE_SIZE_IN_BYTES MAX_ANNOTATION_TOKENS
    MAX_LABEL_LENGTH import_files regex_file export_format export_dir
    skip_blank_annotations true None s = raised
  /\ generate finditer loads MAX_EXAMPLE_SIZE_IN_BYTES MAX_ANNOTATION_TOKENS
       MAX_LABEL_LENGTH import_files regex_file export_format export_dir
       skip_blank_annotations true (Some 0) s = raised.
Proof. split; reflexivity. Qed.

(** ** [ConvertOneFile] when lines are merged into examples *)

Lemma join_snoc (sep : string) (xs : list string) (l : string) :
  xs <> [] ->
  builtins.join sep (xs ++ [l]) = builtins.join sep xs +:+ sep +:+ l.
Proof.
  induction xs as [|x xs IH]; [done|]. intros _.
  destruct xs as [|y xs]; [reflexivity|].
  change (builtins.join sep ((x :: y :: xs) ++ [l]))
    with (x +:+ sep +:+ builtins.join sep ((y :: xs) ++ [l])).
  rewrite IH by done.
  change (builtins.join sep (x :: y :: xs))
    with (x +:+ sep +:+ builtins.join sep (y :: xs)).
  by rewrite !string_app_assoc.
Qed.

Lemma join_truthy (sep : string) (xs : list string) :
  Forall (fun x => builtins.truthy x = true) xs ->
  builtins.truthy (builtins.join sep xs) = match xs with [] => false | _ => true end.
Proof.
  destruct 1 as [|x xs Hx _]; [reflexivity|].
  destruct x as [|c x]; [discriminate Hx|]. by destruct xs.
Qed.

Section MergeFacts.

Variable MAX_EXAMPLE_SIZE_IN_BYTES : option Z.
Context {World Handle : Type} `{!OS World Handle}.

Lemma convert_lines_merged (auto_split : bool) (lines : list string) :
  forall (acc : conversion) (s : state World) (cur : list string),
    FLAGS.one_document_per_line (st_flags s) = false ->
    example_content acc = builtins.join builtins.newline cur ->
    Forall (fun x => builtins.truthy x = true) cur ->
    exists (groups : list (list string)) (cur' : list string),
      for_in lines (convert_line MAX_EXAMPLE_SIZE_IN_BYTES auto_split) acc s
      = (Returns
           (mkConversion
              (json_lines acc ++ map example_of_group groups)
              (builtins.join builtins.newline cur')
              (blank_lines acc + count_blank lines)
              (long_lines acc + count_long MAX_EXAMPLE_SIZE_IN_BYTES lines)),
         s)
      /\ cur ++ kept_lines MAX_EXAMPLE_SIZE_IN_BYTES lines = concat groups ++ cur'
      /\ Forall (fun x => builtins.truthy x = true) cur'
      /\ Forall (fun g => g <> []) groups
      /\ (forall n, auto_split = true -> MAX_EXAMPLE_SIZE_IN_BYTES = Some n ->
            n <> 0 ->
            (cur <> [] ->
             Z.of_nat (String.length (builtins.join builtins.newline cur)) <= n) ->
            Forall (fun g => Z.of_nat (String.length
                                         (builtins.join builtins.newline g)) <= n)
              groups
            /\ (cur' <> [] ->
                Z.of_nat (String.length (builtins.join builtins.newline cur')) <= n))
      /\ (auto_split = false \/ MAX_EXAMPLE_SIZE_IN_BYTES = None
          \/ MAX_EXAMPLE_SIZE_IN_BYTES = Some 0 -> groups = []).
Proof.
  induction lines as [|line lines IH]; intros acc s cur Hflag Hec Hcur.
  - exists [], cur. cbn. unfold kept_lines, count_blank, count_long. cbn.
    rewrite !app_nil_r, !Z.add_0_r, <- Hec. destruct acc.
    repeat split; auto.
  - cbn [for_in]. unfold mbind at 1, IO_bind at 1.
    unfold kept_lines, count_blank, count_long in *. cbn [map List.filter].
    unfold convert_line at 1.
    destruct (builtins.truthy (Py.strip line)) eqn:Hblank; cbn [negb andb].
    + destruct (exceeds _ MAX_EXAMPLE_SIZE_IN_BYTES) eqn:Hlong; cbn [negb].
      * unfold mret at 1, IO_ret at 1.
        destruct (IH (mkConversion (json_lines acc) (example_content acc)
                        (blank_lines acc) (long_lines acc + 1)) s cur Hflag Hec Hcur)
          as [groups [cur' [Hrun H]]].
        exists groups, cur'. split; [|exact H]. rewrite Hrun. cbn [length].
        cbn [json_lines example_content blank_lines long_lines].
        do 3 f_equal. lia.
      * unfold mbind at 1, IO_bind at 1, get_flags at 1. rewrite Hflag.
        set (l := Py.strip line) in *.
        set (flush := auto_split && builtins.truthy (example_content acc)
                      && reaches (Z.of_nat (String.length (example_content acc))
                                  + Z.of_nat (String.length l))
                           MAX_EXAMPLE_SIZE_IN_BYTES).
        assert (forall n, MAX_EXAMPLE_SIZE_IN_BYTES = Some n -> n <> 0 ->
                  Z.of_nat (String.length l) <= n) as Hl.
        { intros n Hn Hn0. rewrite Hn in Hlong. unfold exceeds in Hlong.
          apply andb_false_iff in Hlong as [Hz|Hgt].
          - apply negb_false_iff, Z.eqb_eq in Hz. lia.
          - rewrite Z.gtb_ltb in Hgt. apply Z.ltb_ge in Hgt. exact Hgt. }
        destruct flush eqn:Hflush; unfold mret at 1, IO_ret at 1;
          cbn [json_lines example_content blank_lines long_lines].
        -- (* the current example is full: it is written, the line starts the next *)
           apply andb_true_iff in Hflush as [Hflush Hreach].
           apply andb_true_iff in Hflush as [Hauto Htruthy].
           rewrite Hec, join_truthy in Htruthy by done.
           destruct cur as [|c0 cur0] eqn:Hcur0; [discriminate Htruthy|].
           rewrite <- Hcur0 in *.
           cbn [List.filter]. rewrite Hblank.
           change (builtins.truthy "") with false. cbv iota.
           change (builtins.join builtins.newline [l]) with l.
           destruct (IH (mkConversion
                           (json_lines acc ++ [_ConvertOneExample (example_content acc)])
                           (builtins.join builtins.newline [l])
                           (blank_lines acc) (long_lines acc)) s [l] Hflag eq_refl)
             as [groups [cur' [Hrun [Hsplit [Hcur' [Hgroups [Hbound Hsingle]]]]]]].
           { by constructor. }
           exists (cur :: groups), cur'.
           cbn [json_lines example_content blank_lines long_lines] in Hrun.
           change (builtins.join builtins.newline [l]) with l in Hrun.
           split; [|split; [|split; [done|split; [|split]]]].
           ++ rewrite Hrun. cbn [map]. rewrite <- app_assoc. cbn [app].
              unfold example_of_group at 2. by rewrite Hec.
           ++ cbn [concat]. rewrite <- !app_assoc. f_equal. exact Hsplit.
           ++ constructor; [by rewrite Hcur0 | done].
           ++ intros n Ha Hn Hn0 Hlen.
              destruct (Hbound n Ha Hn Hn0) as [Hg Hc']; [intros _; by apply Hl|].
              split; [|done]. constructor; [|done]. apply Hlen. by rewrite Hcur0.
           ++ intros [Hno|[Hno|Hno]].
              ** by rewrite Hno in Hauto.
              ** by rewrite Hno in Hreach.
              ** by rewrite Hno in Hreach.
        -- (* the line joins the current example *)
           assert (builtins.join builtins.newline
                     (List.filter builtins.truthy [example_content acc; l])
                   = builtins.join builtins.newline (cur ++ [l])) as Hjoin.
           { cbn [List.filter]. rewrite Hblank, Hec.
             rewrite join_truthy by done.
             destruct (decide (cur = [])) as [->|Hne]; [reflexivity|].
             rewrite join_snoc by done. by destruct cur. }
           rewrite Hjoin.
           destruct (IH (mkConversion (json_lines acc)
                           (builtins.join builtins.newline (cur ++ [l]))
                           (blank_lines acc) (long_lines acc)) s (cur ++ [l])
                       Hflag eq_refl)
             as [groups [cur' [Hrun [Hsplit [Hcur' [Hgroups [Hbound Hsingle]]]]]]].
           { apply Forall_app. split; [done | by constructor]. }
           exists groups, cur'.
           split; [exact Hrun|]. split; [by rewrite <- Hsplit, <- app_assoc|].
           split; [done|]. split; [done|]. split; [|done].
           intros n Ha Hn Hn0 Hlen. apply (Hbound n Ha Hn Hn0). intros _.
           destruct (decide (cur = [])) as [->|Hne].
           ++ cbn. by apply Hl.
           ++ rewrite join_snoc by done. rewrite !string_app_length.
              unfold flush in Hflush. rewrite Ha, Hec, join_truthy in Hflush by done.
              rewrite Hn in Hflush. unfold reaches in Hflush.
              destruct cur as [|c0 cur0]; [done|]. cbn [andb] in Hflush.
              apply andb_false_iff in Hflush as [Hz|Hge].
              ** apply negb_false_iff, Z.eqb_eq in Hz. lia.
              ** rewrite Z.geb_leb in Hge. apply Z.leb_gt in Hge.
                 change (String.length builtins.newline) with 1%nat. lia.
    + unfold mret at 1, IO_ret at 1.
      destruct (IH (mkConversion (json_lines acc) (example_content acc)
                      (blank_lines acc + 1) (long_lines acc)) s cur Hflag Hec Hcur)
        as [groups [cur' [Hrun H]]].
      exists groups, cur'. split; [|exact H]. rewrite Hrun. cbn [length].
      cbn [json_lines example_content blank_lines long_lines].
      do 3 f_equal. lia.
Qed.

End MergeFacts.

(** X17. Without [FLAGS.one_document_per_line], [ConvertOneFile] cuts the
    kept lines (stripped, not blank, not longer than the limit), in their
    order, into consecutive groups that are not empty, and writes one
    example per group, whose text is the lines of the group joined by line
    feeds: no kept line is lost, repeated or moved. With [auto_split] and
    a limit [n], the text of every example is at most [n] characters long;
    without [auto_split] or without a limit there is at most one example. *)
Theorem ConvertOneFile_merged_examples
  (MAX_EXAMPLE_SIZE_IN_BYTES : option Z) {World Handle : Type}
  `{!OS World Handle} (import_file : string) (auto_split : bool)
  (full_output_jsonl : string) (s : state World) (lines : list string) :
  FLAGS.one_document_per_line (st_flags s) = false ->
  os_read (st_world s) import_file utf_8 = Returns (whole lines) ->
  exists groups : list (list string),
    concat groups = kept_lines MAX_EXAMPLE_SIZE_IN_BYTES lines
    /\ Forall (fun g => g <> []) groups
    /\ (forall n, auto_split = true -> MAX_EXAMPLE_SIZE_IN_BYTES = Some n ->
          n <> 0 ->
          Forall (fun g => Z.of_nat (String.length
                                       (builtins.join builtins.newline g)) <= n)
            groups)
    /\ (auto_split = false \/ MAX_EXAMPLE_SIZE_IN_BYTES = None
        \/ MAX_EXAMPLE_SIZE_IN_BYTES = Some 0 -> (length groups <= 1)%nat)
    /\ ConvertOneFile MAX_EXAMPLE_SIZE_IN_BYTES import_file auto_split
         full_output_jsonl s
       = (with_open_w full_output_jsonl utf_8
            (fun output_file =>
               writelines output_file (map example_of_group groups));;
          log_event
            (Converted import_file full_output_jsonl
               (extra_info (count_blank lines)
                  (count_long MAX_EXAMPLE_SIZE_IN_BYTES lines)))) s.
Proof.
  intros Hflag Hread.
  destruct (convert_lines_merged MAX_EXAMPLE_SIZE_IN_BYTES auto_split lines
              (mkConversion [] "" 0 0) s [] Hflag eq_refl (List.Forall_nil _))
    as [groups [cur [Hrun [Hsplit [Hcur [Hgroups [Hbound Hsingle]]]]]]].
  cbn [json_lines example_content blank_lines long_lines app] in Hrun.
  rewrite !Z.add_0_l in Hrun. cbn [app] in Hsplit.
  exists (groups ++ match cur with [] => [] | _ :: _ => [cur] end).
  split; [|split; [|split; [|split]]].
  - rewrite concat_app, Hsplit. f_equal. destruct cur; [done|]. cbn.
    by rewrite app_nil_r.
  - apply Forall_app. split; [done|]. destruct cur; by repeat constructor.
  - intros n Ha Hn Hn0. destruct (Hbound n Ha Hn Hn0) as [Hg Hc]; [done|].
    apply Forall_app. split; [done|].
    destruct cur; [constructor|]. constructor; [by apply Hc | constructor].
  - intros Hno. rewrite (Hsingle Hno). destruct cur; cbn; lia.
  - unfold ConvertOneFile.
    unfold mbind at 1, IO_bind at 1, ask at 1. rewrite Hread.
    unfold mbind at 1, IO_bind at 1, for_line_in.
    unfold mbind at 1, IO_bind at 1. cbn [yielded failure whole].
    rewrite Hrun. unfold mret at 1, IO_ret at 1.
    cbn [json_lines example_content blank_lines long_lines].
    rewrite join_truthy by done. rewrite map_app.
    destruct cur; [by rewrite app_nil_r | reflexivity].
Qed.

Lemma ConvertOneFile_merged_examples_witness :
  exists groups : list (list string),
    concat groups
    = kept_lines (Some 12)
        ["to Paris" +:+ builtins.newline; "by train" +:+ builtins.newline;
         "today"%string]
    /\ Forall (fun g => g <> []) groups
    /\ (forall n, true = true -> Some 12 = Some n -> n <> 0 ->
          Forall (fun g => Z.of_nat (String.length
                                       (builtins.join builtins.newline g)) <= n)
            groups)
    /\ (true = false \/ Some 12 = None \/ Some 12 = Some 0 ->
        (length groups <= 1)%nat)
    /\ ConvertOneFile (Some 12) "in.txt" true "out/in.jsonl"
         (memfs.started (FLAGS.mk true None "out" false "" true)
            [("in.txt"%string,
              "to Paris" +:+ builtins.newline +:+ "by train"
              +:+ builtins.newline +:+ "today")])
       = (with_open_w "out/in.jsonl" utf_8
            (fun output_file =>
               writelines output_file (map example_of_group groups));;
          log_event
            (Converted "in.txt" "out/in.jsonl"
               (extra_info
                  (count_blank
                     ["to Paris" +:+ builtins.newline;
                      "by train" +:+ builtins.newline; "today"%string])
                  (count_long (Some 12)
                     ["to Paris" +:+ builtins.newline;
                      "by train" +:+ builtins.newline; "today"%string]))))
           (memfs.started (FLAGS.mk true None "out" false "" true)
              [("in.txt"%string,
                "to Paris" +:+ builtins.newline +:+ "by train"
                +:+ builtins.newline +:+ "today")]).
Proof.
  apply (ConvertOneFile_merged_examples (Some 12) "in.txt"%string true
           "out/in.jsonl"%string).
  - reflexivity.
  - vm_compute. reflexivity.
Defined.

(** ** [ConvertFiles] *)

Section ConvertFilesFacts.

Variable MAX_EXAMPLE_SIZE_IN_BYTES : option Z.
Context {World Handle : Type} `{!OS World Handle}.

(** One file: when the body of the loop returns, it has appended the path
    of the file and counted its root name. *)
Lemma convert_file_returns (temp_dir : string) (earlier : list string)
  (acc acc' : list string * gmap string Z) (import_file : string)
  (s s1 : state World) :
  counts_roots earlier (snd acc) ->
  convert_file MAX_EXAMPLE_SIZE_IN_BYTES temp_dir acc import_file s
  = (Returns acc', s1) ->
  fst acc' = fst acc ++ [output_path temp_dir earlier import_file]
  /\ counts_roots (earlier ++ [import_file]) (snd acc').
Proof.
  intros Hcount Hrun.
  assert (acc' = (fst acc ++ [output_path temp_dir earlier import_file],
                  <[root_of import_file :=
                      match snd acc !! root_of import_file with
                      | Some n => n + 1
                      | None => 1
                      end]> (snd acc))) as ->.
  { unfold convert_file in Hrun. fold (root_of import_file) in Hrun.
    assert (posixpath.join temp_dir
              match snd acc !! root_of import_file with
              | Some _ =>
                  root_of import_file
                  +:+ builtins.str match snd acc !! root_of import_file with
                                   | Some n => n + 1
                                   | None => 1
                                   end +:+ ".jsonl"
              | None => root_of import_file +:+ ".jsonl"
              end
            = output_path temp_dir earlier import_file) as Hpath.
    { unfold output_path. rewrite (Hcount (root_of import_file)).
      destruct (length _) as [|k]; [reflexivity|]. do 3 f_equal. }
    rewrite Hpath in Hrun.
    destruct (String.eqb _ ".jsonl").
    - unfold mbind, IO_bind, perform, mret, IO_ret in Hrun.
      destruct (os_copyfile _ _ _) as [[[]|e] w]; by inversion Hrun.
    - unfold mbind at 1, IO_bind at 1, ask at 1 in Hrun.
      destruct (os_getsize _ _) as [size|e]; [|by inversion Hrun].
      unfold mbind at 1, IO_bind at 1, get_flags at 1 in Hrun.
      destruct (_ && _); [by inversion Hrun|].
      unfold mbind at 1, IO_bind at 1 in Hrun.
      destruct (ConvertOneFile _ _ _ _ _) as [[[]|e] s2]; by inversion Hrun. }
  split; [reflexivity|]. cbn [snd]. intros root.
  rewrite List.filter_app, length_app. cbn [List.filter].
  destruct (String.eqb_spec (root_of import_file) root) as [<-|Hne].
  - rewrite lookup_insert_eq, (Hcount (root_of import_file)). cbn [length].
    destruct (length _) as [|k]; cbn; f_equal; lia.
  - rewrite lookup_insert_ne by done. rewrite (Hcount root). cbn [length].
    by rewrite Nat.add_0_r.
Qed.

Lemma convert_files_returns (temp_dir : string) (import_files : list string) :
  forall (earlier : list string) (acc acc' : list string * gmap string Z)
         (s s1 : state World),
    counts_roots earlier (snd acc) ->
    for_in import_files (convert_file MAX_EXAMPLE_SIZE_IN_BYTES temp_dir) acc s
    = (Returns acc', s1) ->
    fst acc' = fst acc ++ output_paths temp_dir earlier import_files.
Proof.
  induction import_files as [|f rest IH]; intros earlier acc acc' s s1 Hcount.
  - cbn. intros [= <- _]. by rewrite app_nil_r.
  - cbn [for_in output_paths]. unfold mbind at 1, IO_bind at 1.
    destruct (convert_file _ _ _ _ _) as [[acc1|e] s2] eqn:Hfile; [|done].
    destruct (convert_file_returns _ _ _ _ _ _ _ Hcount Hfile) as [Hfst Hcount1].
    intros Hrest. rewrite (IH _ _ _ _ _ Hcount1 Hrest), Hfst.
    by rewrite <- app_assoc.
Qed.

End ConvertFilesFacts.

(** X18. When [ConvertFiles] returns, it returns one path per import
    file, in the order of the list: the file is converted to its root name
    (base name without the extension) followed by '.jsonl' in the output
    directory, and the k-th file of the same root name, for k at
    least 2, to the root name followed by k. *)
Theorem ConvertFiles_output_paths
  (MAX_EXAMPLE_SIZE_IN_BYTES : option Z) {World Handle : Type}
  `{!OS World Handle} (import_files : list string) (output_dir : string)
  (s s1 : state World) (jsonl_files : list string) :
  ConvertFiles MAX_EXAMPLE_SIZE_IN_BYTES import_files output_dir s
  = (Returns jsonl_files, s1) ->
  jsonl_files = output_paths output_dir [] import_files.
Proof.
  unfold ConvertFiles. unfold mbind, IO_bind, mret, IO_ret.
  destruct (for_in _ _ _ _) as [[acc|e] s2] eqn:Hloop; [|done].
  intros [= <- _].
  by apply (convert_files_returns _ _ _ [] _ _ _ _ (fun _ => lookup_empty _)) in Hloop.
Qed.

Lemma ConvertFiles_output_paths_witness :
  fst (ConvertFiles None ["in/a.txt"; "b/a.md"; "c.jsonl"]%string "out"
         (memfs.initial
            [("in/a.txt"%string, "to Paris"%string);
             ("b/a.md"%string, "by train"%string);
             ("c.jsonl"%string, _ConvertOneExample "today")]))
  = Returns ["out/a.jsonl"; "out/a2.jsonl"; "out/c.jsonl"]%string
  /\ ["out/a.jsonl"; "out/a2.jsonl"; "out/c.jsonl"]%string
     = output_paths "out" [] ["in/a.txt"; "b/a.md"; "c.jsonl"]%string.
Proof.
  split; [vm_compute; reflexivity|].
  apply (ConvertFiles_output_paths None ["in/a.txt"; "b/a.md"; "c.jsonl"]%string
           "out"%string
           (memfs.initial
              [("in/a.txt"%string, "to Paris"%string);
               ("b/a.md"%string, "by train"%string);
               ("c.jsonl"%string, _ConvertOneExample "today")])
           (snd (ConvertFiles None ["in/a.txt"; "b/a.md"; "c.jsonl"]%string "out"
                   (memfs.initial
                      [("in/a.txt"%string, "to Paris"%string);
                       ("b/a.md"%string, "by train"%string);
                       ("c.jsonl"%string, _ConvertOneExample "today")])))).
  apply run_returns. vm_compute. reflexivity.
Defined.

Lemma root_with_suffix_differs (root : string) :
  String.eqb root (root +:+ "2") = false.
Proof.
  apply String.eqb_neq. intros Heq. apply (f_equal String.length) in Heq.
  rewrite string_app_length in Heq. simpl in Heq. lia.
Qed.

(** X19. The output paths are not always distinct, although the counter
    of line 293 is there to make them so: of three files whose root names
    are r, r and r2 (say a.txt, b/a.txt and a2.txt), the second and the
    third are converted to the same path r2.jsonl. *)
Theorem ConvertFiles_paths_can_collide
  (MAX_EXAMPLE_SIZE_IN_BYTES : option Z) {World Handle : Type}
  `{!OS World Handle} (f1 f2 f3 output_dir : string)
  (s s1 : state World) (jsonl_files : list string) :
  root_of f2 = root_of f1 ->
  root_of f3 = root_of f1 +:+ "2" ->
  ConvertFiles MAX_EXAMPLE_SIZE_IN_BYTES [f1; f2; f3] output_dir s
  = (Returns jsonl_files, s1) ->
  jsonl_files
  = [posixpath.join output_dir (root_of f1 +:+ ".jsonl");
     posixpath.join output_dir (root_of f1 +:+ "2.jsonl");
     posixpath.join output_dir (root_of f1 +:+ "2.jsonl")].
Proof.
  intros H2 H3 Hrun. apply ConvertFiles_output_paths in Hrun as ->.
  cbn [output_paths app]. unfold output_path. cbn [List.filter].
  rewrite H2, H3, !String.eqb_refl, !root_with_suffix_differs. cbn [length].
  by rewrite string_app_assoc.
Qed.

Lemma ConvertFiles_paths_can_collide_witness :
  fst (ConvertFiles None ["a.txt"; "b/a.txt"; "a2.txt"]%string "out"
         (memfs.initial
            [("a.txt"%string, "to Paris"%string);
             ("b/a.txt"%string, "by train"%string);
             ("a2.txt"%string, "today"%string)]))
  = Returns ["out/a.jsonl"; "out/a2.jsonl"; "out/a2.jsonl"]%string
  /\ ["out/a.jsonl"; "out/a2.jsonl"; "out/a2.jsonl"]%string
     = [posixpath.join "out" (root_of "a.txt" +:+ ".jsonl");
        posixpath.join "out" (root_of "a.txt" +:+ "2.jsonl");
        posixpath.join "out" (root_of "a.txt" +:+ "2.jsonl")].
Proof.
  split; [vm_compute; reflexivity|].
  apply (ConvertFiles_paths_can_collide None "a.txt"%string "b/a.txt"%string
           "a2.txt"%string "out"%string
           (memfs.initial
              [("a.txt"%string, "to Paris"%string);
               ("b/a.txt"%string, "by train"%string);
               ("a2.txt"%string, "today"%string)])
           (snd (ConvertFiles None ["a.txt"; "b/a.txt"; "a2.txt"]%string "out"
                   (memfs.initial
                      [("a.txt"%string, "to Paris"%string);
                       ("b/a.txt"%string, "by train"%string);
                       ("a2.txt"%string, "today"%string)])))).
  - reflexivity.
  - reflexivity.
  - apply run_returns. vm_compute. reflexivity.
Defined.

(** X20. With a size limit set and [FLAGS.split] off, a file that is not a
    jsonl file and is larger than the limit is not skipped with the log
    message of lines 307-310: building that message reads
    [import_file.original_filepath] on a path, which is a [str], so
    [ConvertFiles] raises [AttributeError] and converts nothing further. *)
Theorem ConvertFiles_oversized_file_raises
  {World Handle : Type} `{!OS World Handle} (limit filesize : Z)
  (import_file : string) (rest : list string) (output_dir : string)
  (s : state World) :
  limit <> 0 ->
  snd (posixpath.splitext (posixpath.basename import_file)) <> ".jsonl"%string ->
  os_getsize (st_world s) import_file = Returns filesize ->
  limit < filesize ->
  FLAGS.split (st_flags s) = false ->
  ConvertFiles (Some limit) (import_file :: rest) output_dir s
  = (Raises AttributeError, s).
Proof.
  intros Hlimit Hext Hsize Hlarge Hsplit.
  unfold ConvertFiles. cbn [for_in]. unfold convert_file.
  apply String.eqb_neq in Hext. rewrite Hext.
  unfold mbind, IO_bind, ask, get_flags. rewrite Hsize, Hsplit.
  unfold exceeds.
  replace (limit =? 0) with false by (symmetry; apply Z.eqb_neq; done).
  replace (filesize >? limit) with true by (symmetry; apply Z.gtb_lt; lia).
  reflexivity.
Qed.

Lemma ConvertFiles_oversized_file_raises_witness :
  ConvertFiles (Some 4) ["a.txt"%string] "out"
    (memfs.started (FLAGS.mk false None "out" true "" true)
       [("a.txt"%string, "to Paris"%string)])
  = (Raises AttributeError,
     memfs.started (FLAGS.mk false None "out" true "" true)
       [("a.txt"%string, "to Paris"%string)]).
Proof.
  apply (ConvertFiles_oversized_file_raises 4 8 "a.txt"%string [] "out"%string).
  - lia.
  - discriminate.
  - vm_compute. reflexivity.
  - lia.
  - reflexivity.
Defined.

(** ** What [json.dumps] writes *)

Lemma value_induction (P : json.value -> Prop) :
  P json.Null ->
  (forall b, P (json.Boolean b)) ->
  (forall n, P (json.Int n)) ->
  (forall s, P (json.Str s)) ->
  (forall items, Forall P items -> P (json.Arr items)) ->
  (forall members, Forall (fun m => P (snd m)) members -> P (json.Obj members)) ->
  forall v, P v.
Proof.
  intros Hnull Hbool Hint Hstr Harr Hobj. fix IH 1.
  intros [ |b|n|s|items|members]; [done | done | done | done | |].
  - apply Harr. induction items as [|x items IHitems]; constructor; [apply IH | done].
  - apply Hobj. induction members as [|[k x] members IHm]; constructor;
      [apply IH | done].
Qed.

Lemma no_control_app (s1 s2 : string) :
  no_control s1 -> no_control s2 -> no_control (s1 +:+ s2).
Proof.
  unfold no_control. rewrite list_ascii_of_string_app, Forall_app. auto.
Qed.

Lemma escape_above_control (c : ascii) :
  forallb (fun x => 32 <=? Py.ord x) (list_ascii_of_string (json.escape c)) = true.
Proof. destruct c as [[] [] [] [] [] [] [] []]; vm_compute; reflexivity. Qed.

Lemma no_control_escape (c : ascii) : no_control (json.escape c).
Proof.
  unfold no_control. apply Forall_forall. intros x Hx%list_elem_of_In.
  pose proof (escape_above_control c) as Hall. rewrite forallb_forall in Hall.
  by apply Z.leb_le, Hall.
Qed.

Lemma no_control_escape_all (s : string) : no_control (json.escape_all s).
Proof.
  induction s as [|c s IH]; [constructor|].
  cbn [json.escape_all]. by apply no_control_app; [apply no_control_escape|].
Qed.

Lemma no_control_encode_basestring (s : string) :
  no_control (json.encode_basestring s).
Proof.
  unfold json.encode_basestring.
  apply no_control_app; [repeat constructor; discriminate|].
  apply no_control_app; [apply no_control_escape_all|].
  repeat constructor; discriminate.
Qed.

Lemma no_control_uint (d : Decimal.uint) :
  no_control (NilEmpty.string_of_uint d).
Proof.
  induction d; cbn [NilEmpty.string_of_uint];
    [constructor | constructor; [discriminate | done] ..].
Qed.

Lemma no_control_str (n : Z) : no_control (builtins.str n).
Proof.
  unfold builtins.str, NilZero.string_of_int, NilZero.string_of_uint.
  destruct (Z.to_int n) as [d|d].
  - destruct d; try apply no_control_uint. repeat constructor; discriminate.
  - constructor; [discriminate|].
    destruct d; try apply no_control_uint. repeat constructor; discriminate.
Qed.

Lemma no_control_join (sep : string) (items : list string) :
  no_control sep -> Forall no_control items ->
  no_control (builtins.join sep items).
Proof.
  intros Hsep. induction 1 as [|x items Hx Hitems IH]; [constructor|].
  destruct items as [|y items]; [done|].
  change (builtins.join sep (x :: y :: items))
    with (x +:+ sep +:+ builtins.join sep (y :: items)).
  by repeat apply no_control_app.
Qed.

(** Whatever the document, its text holds no control character: strings
    are written with their control characters escaped. *)
Lemma no_control_dumps (v : json.value) : no_control (json.dumps v).
Proof.
  induction v as [ |b|n|s|items IH|members IH] using value_induction.
  - repeat constructor; discriminate.
  - destruct b; repeat constructor; discriminate.
  - apply no_control_str.
  - apply no_control_encode_basestring.
  - cbn [json.dumps].
    apply no_control_app; [repeat constructor; discriminate|].
    apply no_control_app; [|repeat constructor; discriminate].
    apply no_control_join; [repeat constructor; discriminate|].
    by apply Forall_map.
  - cbn [json.dumps].
    apply no_control_app; [repeat constructor; discriminate|].
    apply no_control_app; [|repeat constructor; discriminate].
    apply no_control_join; [repeat constructor; discriminate|].
    apply Forall_map. eapply Forall_impl; [exact IH|].
    intros [k x] Hx. simpl in Hx.
    apply no_control_app; [apply no_control_encode_basestring|].
    by apply no_control_app; [repeat constructor; discriminate|].
Qed.

(** X21. A jsonl file holds one example per line whatever the text of the
    examples: the string [_ConvertOneExample] returns, and each line
    [AnnotateFiles] writes back, ends in a line feed and has no other
    control character before it, line feeds and carriage returns of the
    example text being written as escapes. *)
Theorem jsonl_lines_are_single_lines :
  (forall example_content : string,
     single_line (_ConvertOneExample example_content))
  /\ (forall (finditer : string -> string -> bool -> result (list re.Match))
            (loads : string -> outcome json.value)
            (MAX_ANNOTATION_TOKENS : option Z) (World : Type)
            (label_patterns : list LabelPattern) (line json_line : string)
            (s s1 : state World),
        annotate_line finditer loads MAX_ANNOTATION_TOKENS label_patterns line s
        = (Returns json_line, s1) ->
        single_line json_line).
Proof.
  split.
  - intros content. eexists. split; [reflexivity | apply no_control_dumps].
  - intros finditer loads limit World lps line json_line s s1.
    unfold annotate_line. unfold mbind, IO_bind, ask, mret, IO_ret.
    destruct (loads line) as [v|e]; [|done].
    destruct (example_of_value v) as [typed|e]; [|done].
    destruct (call _ _ _) as [[r|e] s2]; [|done].
    intros [= <- _]. eexists. split; [reflexivity | apply no_control_dumps].
Qed.

Lemma jsonl_lines_are_single_lines_witness :
  fst (annotate_line sre.finditer json.loads None
         [mkLabelPattern "(Paris)" "CITY" "e" ""]
         (_ConvertOneExample ("to" +:+ builtins.newline +:+ "Paris"))
         (memfs.initial []))
  = Returns
      (jsonl_line (example_of ("to" +:+ builtins.newline +:+ "Paris")
                     [annotation_record 3 8 "CITY"]))
  /\ single_line
       (jsonl_line (example_of ("to" +:+ builtins.newline +:+ "Paris")
                      [annotation_record 3 8 "CITY"])).
Proof.
  split; [vm_compute; reflexivity|].
  apply (proj2 jsonl_lines_are_single_lines sre.finditer json.loads None
           memfs.World [mkLabelPattern "(Paris)" "CITY" "e" ""]
           (_ConvertOneExample ("to" +:+ builtins.newline +:+ "Paris"))
           (jsonl_line (example_of ("to" +:+ builtins.newline +:+ "Paris")
                          [annotation_record 3 8 "CITY"]))
           (memfs.initial [])
           (snd (annotate_line sre.finditer json.loads None
                   [mkLabelPattern "(Paris)" "CITY" "e" ""]
                   (_ConvertOneExample ("to" +:+ builtins.newline +:+ "Paris"))
                   (memfs.initial [])))).
  apply run_returns. vm_compute. reflexivity.
Defined.

(** ** [json.loads] reads back what [json.dumps] wrote *)

(** One character of a string literal. *)
Lemma scanstring_escape (c : ascii) (rest : list ascii) :
  json.scanstring (list_ascii_of_string (json.escape c) ++ rest)
  = json.prepend c (json.scanstring rest).
Proof.
  destruct c as [[] [] [] [] [] [] [] []]; reflexivity.
Qed.

(** A string literal is read back as the string it was written from. *)
Lemma scanstring_escape_all (s : string) (rest : list ascii) :
  json.scanstring
    (list_ascii_of_string (json.escape_all s) ++ "034"%char :: rest)
  = json.Scanned s rest.
Proof.
  induction s as [|c s IH]; [reflexivity|].
  cbn [json.escape_all]. rewrite list_ascii_of_string_app, <- app_assoc.
  by rewrite scanstring_escape, IH.
Qed.

Lemma scan_encode_basestring (s : string) (rest : list ascii) :
  list_ascii_of_string (json.encode_basestring s) ++ rest
  = "034"%char
    :: list_ascii_of_string (json.escape_all s) ++ "034"%char :: rest.
Proof.
  unfold json.encode_basestring, builtins.quote.
  rewrite string_app_cons. cbn [list_ascii_of_string app].
  change ("" +:+ (json.escape_all s +:+ String "034" ""))
    with (json.escape_all s +:+ String "034" "").
  by rewrite list_ascii_of_string_app, <- app_assoc.
Qed.

Lemma closes_not_digit (rest : list ascii) :
  closes rest = true ->
  json.digits rest = ([], rest) /\ json.is_float_tail rest = false.
Proof.
  destruct rest as [|c rest]; [done|]. cbn [closes].
  rewrite !orb_true_iff.
  intros [[[->%Ascii.eqb_eq | ->%Ascii.eqb_eq] | ->%Ascii.eqb_eq] | ->%Ascii.eqb_eq];
    done.
Qed.

Lemma digits_uint (d : Decimal.uint) (rest : list ascii) :
  closes rest = true ->
  json.digits (uint_digits d ++ rest) = (uint_digits d, rest).
Proof.
  intros Hrest. unfold uint_digits.
  induction d as [|d IH|d IH|d IH|d IH|d IH|d IH|d IH|d IH|d IH|d IH];
    cbn [NilEmpty.string_of_uint list_ascii_of_string app];
    [by apply closes_not_digit | ..];
    cbn [json.digits]; change (Py.isdecimal _) with true; cbv iota;
    by rewrite IH.
Qed.

Lemma decimal_uint_acc (d : Decimal.uint) :
  forall acc : positive,
    json.decimal (uint_digits d) (Z.pos acc) = Z.pos (Pos.of_uint_acc d acc).
Proof.
  unfold uint_digits.
  induction d as [|d IH|d IH|d IH|d IH|d IH|d IH|d IH|d IH|d IH|d IH];
    intros acc; cbn [NilEmpty.string_of_uint list_ascii_of_string json.decimal
                       Pos.of_uint_acc]; [done | ..];
    rewrite <- IH; f_equal;
    match goal with
    | |- context [Py.ord ?c] =>
        let v := eval vm_compute in (Py.ord c) in change (Py.ord c) with v
    end; lia.
Qed.

Lemma decimal_uint (d : Decimal.uint) :
  json.decimal (uint_digits d) 0 = Z.of_N (Pos.of_uint d).
Proof.
  unfold uint_digits.
  induction d as [|d IH|d IH|d IH|d IH|d IH|d IH|d IH|d IH|d IH|d IH];
    cbn [NilEmpty.string_of_uint list_ascii_of_string json.decimal Pos.of_uint];
    [done | exact IH | ..];
    cbn [Z.of_N]; rewrite <- (decimal_uint_acc d); reflexivity.
Qed.

(** A positive number is written without a leading zero. *)
Lemma to_uint_head (p : positive) :
  match Pos.to_uint p with
  | Decimal.Nil | Decimal.D0 _ => False
  | _ => True
  end.
Proof.
  pose proof (DecimalPos.Unsigned.to_of (Pos.to_uint p)) as Hnorm.
  rewrite DecimalPos.Unsigned.of_to in Hnorm. cbn [N.to_uint] in Hnorm.
  pose proof (Unsigned.to_uint_nonnil p) as Hnil.
  pose proof (Unsigned.to_uint_nonzero p) as Hzero.
  destruct (Pos.to_uint p) as [|u| | | | | | | | | ]; try exact I; [done|].
  assert (u <> Decimal.Nil) as Hu by (intros ->; done).
  pose proof (nb_digits_unorm u Hu) as Hlen.
  change (Decimal.unorm (Decimal.D0 u)) with (Decimal.unorm u) in Hnorm.
  rewrite <- Hnorm in Hlen. cbn [Decimal.nb_digits] in Hlen. lia.
Qed.

Lemma uint_digits_head (d : Decimal.uint) :
  match d with Decimal.Nil | Decimal.D0 _ => False | _ => True end ->
  exists c ds,
    uint_digits d = c :: ds
    /\ Py.isdecimal c = true
    /\ Ascii.eqb c "0" = false
    /\ Ascii.eqb c "-" = false.
Proof.
  destruct d; try done; intros _; eexists _, _; repeat split; reflexivity.
Qed.

Lemma scan_number_uint (d : Decimal.uint) (rest : list ascii) :
  match d with Decimal.Nil | Decimal.D0 _ => False | _ => True end ->
  closes rest = true ->
  json.scan_number (uint_digits d ++ rest)
  = json.Scanned (json.Int (Z.of_N (Pos.of_uint d))) rest
  /\ json.scan_number ("-"%char :: uint_digits d ++ rest)
     = json.Scanned (json.Int (- Z.of_N (Pos.of_uint d))) rest.
Proof.
  intros Hhead Hrest.
  pose proof (digits_uint d rest Hrest) as Hdigits.
  pose proof (decimal_uint d) as Hvalue.
  destruct (closes_not_digit rest Hrest) as [_ Htail].
  destruct (uint_digits_head d Hhead) as [c [ds [Hd [Hdec [Hzero Hminus]]]]].
  rewrite Hd in *. cbn [app] in *. unfold json.scan_number. cbv zeta. split.
  - cbv iota. rewrite Hminus. cbv iota. rewrite Hdec, Hzero, Hdigits.
    cbn [fst snd]. by rewrite Htail, Hvalue, Z.mul_1_l.
  - cbv iota. change (Ascii.eqb "-" "-") with true. cbv iota. cbn [tl].
    rewrite Hdec, Hzero, Hdigits. cbn [fst snd]. rewrite Htail, Hvalue.
    do 2 f_equal; lia.
Qed.

(** The decimal digits of [str(n)] are read back as [n]. *)
Lemma scan_number_str (n : Z) (rest : list ascii) :
  closes rest = true ->
  json.scan_number (list_ascii_of_string (builtins.str n) ++ rest)
  = json.Scanned (json.Int n) rest.
Proof.
  intros Hrest. destruct n as [|p|p].
  - destruct (closes_not_digit rest Hrest) as [_ Htail].
    change (list_ascii_of_string (builtins.str 0) ++ rest) with ("0"%char :: rest).
    unfold json.scan_number. cbn [tl].
    change (Ascii.eqb "0" "-") with false. cbv iota.
    change (Py.isdecimal "0") with true. cbv iota.
    change (Ascii.eqb "0" "0") with true. cbv iota. cbn [fst snd].
    by rewrite Htail.
  - pose proof (to_uint_head p) as Hhead.
    destruct (scan_number_uint (Pos.to_uint p) rest Hhead Hrest) as [Hpos _].
    rewrite DecimalPos.Unsigned.of_to in Hpos. cbn [Z.of_N] in Hpos.
    rewrite <- Hpos. unfold builtins.str, Z.to_int, NilZero.string_of_int,
      NilZero.string_of_uint, uint_digits.
    by destruct (Pos.to_uint p).
  - pose proof (to_uint_head p) as Hhead.
    destruct (scan_number_uint (Pos.to_uint p) rest Hhead Hrest) as [_ Hneg].
    rewrite DecimalPos.Unsigned.of_to in Hneg.
    change (- Z.of_N (N.pos p)) with (Z.neg p) in Hneg.
    rewrite <- Hneg. unfold builtins.str, Z.to_int, NilZero.string_of_int,
      NilZero.string_of_uint, uint_digits.
    by destruct (Pos.to_uint p).
Qed.

(** A number starts the way the reader expects. *)
Lemma scan_once_digit (fuel : nat) (c : ascii) (tail : list ascii) :
  Py.isdecimal c = true ->
  json.scan_once (Datatypes.S fuel) (c :: tail) = json.scan_number (c :: tail)
  /\ opens (c :: tail) = true.
Proof.
  destruct c as [[] [] [] [] [] [] [] []]; intros Hc; vm_compute in Hc;
    try discriminate Hc; split; try reflexivity;
    lazy -[json.scan_number]; reflexivity.
Qed.

Lemma scan_once_minus (fuel : nat) (c : ascii) (tail : list ascii) :
  Py.isdecimal c = true ->
  json.scan_once (Datatypes.S fuel) ("-"%char :: c :: tail)
  = json.scan_number ("-"%char :: c :: tail).
Proof.
  destruct c as [[] [] [] [] [] [] [] []]; intros Hc; vm_compute in Hc;
    try discriminate Hc; lazy -[json.scan_number]; reflexivity.
Qed.

Lemma str_head (n : Z) :
  exists c tail,
    list_ascii_of_string (builtins.str n) = c :: tail
    /\ (Py.isdecimal c = true
        \/ c = "-"%char
           /\ exists c' tail', tail = c' :: tail' /\ Py.isdecimal c' = true).
Proof.
  destruct n as [|p|p].
  - eexists _, _. split; [reflexivity|]. by left.
  - destruct (uint_digits_head _ (to_uint_head p)) as [c [ds [Hd [Hc _]]]].
    exists c, ds. split; [|by left].
    rewrite <- Hd. unfold builtins.str, Z.to_int, NilZero.string_of_int,
      NilZero.string_of_uint, uint_digits. by destruct (Pos.to_uint p).
  - destruct (uint_digits_head _ (to_uint_head p)) as [c [ds [Hd [Hc _]]]].
    exists "-"%char, (c :: ds). split; [|right; eauto].
    rewrite <- Hd. unfold builtins.str, Z.to_int, NilZero.string_of_int,
      NilZero.string_of_uint, uint_digits. by destruct (Pos.to_uint p).
Qed.

Lemma reads_back_int (n : Z) : reads_back (json.Int n).
Proof.
  intros fuel rest Hfuel Hrest. destruct fuel as [|fuel]; [simpl in Hfuel; lia|].
  cbn [json.dumps]. rewrite <- (scan_number_str n rest Hrest).
  destruct (str_head n) as [c [tail [-> [Hc | [-> [c' [tail' [-> Hc']]]]]]]].
  - by apply scan_once_digit.
  - by apply scan_once_minus.
Qed.

Lemma reads_back_str (s : string) : reads_back (json.Str s).
Proof.
  intros fuel rest Hfuel Hrest. destruct fuel as [|fuel]; [simpl in Hfuel; lia|].
  cbn [json.dumps]. rewrite scan_encode_basestring. cbn [json.scan_once].
  change (Py.ord "034" =? 34) with true. cbv iota.
  by rewrite scanstring_escape_all.
Qed.

(** Every value starts with a character that opens a value. *)
Lemma opens_dumps (v : json.value) (rest : list ascii) :
  opens (list_ascii_of_string (json.dumps v) ++ rest) = true.
Proof.
  destruct v as [ |[]|n|s|items|members]; try reflexivity.
  - cbn [json.dumps].
    destruct (str_head n) as [c [tail [-> [Hc | [-> _]]]]]; [|reflexivity].
    by apply (scan_once_digit O).
Qed.

Lemma skip_whitespace_opens (s : list ascii) :
  opens s = true -> json.skip_whitespace s = s.
Proof.
  destruct s as [|c s]; [done|]. cbn [opens json.skip_whitespace].
  by destruct (json.is_whitespace c).
Qed.

Lemma store_fresh (members : list (string * json.value)) (key : string)
  (x : json.value) :
  key ∉ map fst members -> json.store members key x = members ++ [(key, x)].
Proof.
  induction members as [|[k y] members IH]; [done|].
  cbn [map fst]. rewrite not_elem_of_cons. intros [Hne Hnot].
  cbn [json.store app]. apply not_eq_sym, String.eqb_neq in Hne.
  by rewrite Hne, IH.
Qed.

Lemma chars_app (s1 s2 : string) :
  list_ascii_of_string (s1 +:+ s2)
  = list_ascii_of_string s1 ++ list_ascii_of_string s2.
Proof.
  induction s1 as [|c s1 IH]; [done|].
  rewrite string_app_cons. cbn [list_ascii_of_string app]. by rewrite IH.
Qed.

Lemma opens_join (v : json.value) (texts : list string) (rest : list ascii) :
  opens (list_ascii_of_string (builtins.join ", " (json.dumps v :: texts)) ++ rest)
  = true.
Proof.
  destruct texts as [|t texts]; [apply opens_dumps|].
  change (builtins.join ", " (json.dumps v :: t :: texts))
    with (json.dumps v +:+ ", " +:+ builtins.join ", " (t :: texts)).
  rewrite chars_app, <- app_assoc. apply opens_dumps.
Qed.

Lemma skip_whitespace_space (s : list ascii) :
  json.skip_whitespace (" "%char :: s) = json.skip_whitespace s.
Proof. reflexivity. Qed.

Lemma skip_whitespace_comma (s : list ascii) :
  json.skip_whitespace (","%char :: s) = ","%char :: s.
Proof. reflexivity. Qed.

(** The text of a non-empty list of items, followed by the bracket. *)
Lemma scan_items_reads_back (items : list json.value) :
  Forall reads_back items ->
  items <> [] ->
  forall (fuel : nat) (acc : list json.value) (rest : list ascii),
    (fold_right (fun x n => Datatypes.S (json_size x + n)) O items <= fuel)%nat ->
    closes rest = true ->
    json.scan_items fuel
      (list_ascii_of_string (builtins.join ", " (map json.dumps items))
       ++ "]"%char :: rest) acc
    = json.Scanned (json.Arr (acc ++ items)) rest.
Proof.
  induction 1 as [|x items Hx Hitems IH]; [done|]. intros _ fuel acc rest Hfuel Hrest.
  cbn [fold_right] in Hfuel. destruct fuel as [|fuel]; [lia|].
  destruct items as [|y items].
  - cbn [map builtins.join]. cbn [json.scan_items].
    rewrite (Hx fuel ("]"%char :: rest)); [|cbn [fold_right] in Hfuel; lia|done].
    reflexivity.
  - cbn [map]. cbn [map] in IH.
    change (builtins.join ", " (json.dumps x :: json.dumps y :: map json.dumps items))
      with (json.dumps x +:+ ", " +:+ builtins.join ", " (json.dumps y :: map json.dumps items)).
    rewrite !chars_app, <- !app_assoc. cbn [list_ascii_of_string app].
    cbn [json.scan_items].
    rewrite (Hx fuel); [|lia|done].
    rewrite skip_whitespace_comma.
    change (Ascii.eqb "," "]") with false. change (Ascii.eqb "," ",") with true.
    cbv iota.
    rewrite skip_whitespace_space, skip_whitespace_opens by apply opens_join.
    rewrite (IH ltac:(done) fuel (acc ++ [x]) rest); [|lia|done].
    by rewrite <- app_assoc.
Qed.

Lemma skip_whitespace_colon (s : list ascii) :
  json.skip_whitespace (":"%char :: s) = ":"%char :: s.
Proof. reflexivity. Qed.

Lemma skip_whitespace_brace (s : list ascii) :
  json.skip_whitespace ("}"%char :: s) = "}"%char :: s.
Proof. reflexivity. Qed.

Lemma opens_member (k : string) (x : json.value) (texts : list string)
  (rest : list ascii) :
  exists tail,
    list_ascii_of_string
      (builtins.join ", " ((json.encode_basestring k +:+ ": " +:+ json.dumps x) :: texts))
    ++ rest
    = "034"%char :: tail.
Proof.
  destruct texts as [|t texts].
  - cbn [builtins.join]. rewrite chars_app, <- app_assoc, scan_encode_basestring.
    eauto.
  - change (builtins.join ", " (?a :: t :: texts))
      with (a +:+ ", " +:+ builtins.join ", " (t :: texts)).
    rewrite !chars_app, <- !app_assoc, scan_encode_basestring. eauto.
Qed.

(** The text of a non-empty list of members, followed by the brace. *)
Lemma scan_members_reads_back (members : list (string * json.value)) :
  Forall (fun m => reads_back (snd m)) members ->
  members <> [] ->
  forall (fuel : nat) (acc : list (string * json.value)) (rest : list ascii),
    (fold_right (fun m n => match m with
                            | (_, x) => Datatypes.S (json_size x + n)
                            end) O members <= fuel)%nat ->
    NoDup (map fst (acc ++ members)) ->
    closes rest = true ->
    json.scan_members fuel
      (list_ascii_of_string
         (builtins.join ", "
            (map (fun m => match m with
                           | (k, x) => json.encode_basestring k +:+ ": " +:+ json.dumps x
                           end) members))
       ++ "}"%char :: rest) acc
    = json.Scanned (json.Obj (acc ++ members)) rest.
Proof.
  induction 1 as [|[k x] members Hx Hmembers IH]; [done|].
  intros _ fuel acc rest Hfuel Hkeys Hrest. cbn [snd] in Hx.
  cbn [fold_right] in Hfuel. destruct fuel as [|fuel]; [lia|].
  assert (Hfresh : k ∉ map fst acc).
  { rewrite map_app in Hkeys. apply NoDup_app in Hkeys as [_ [Hdisj _]].
    intros Hin. apply (Hdisj k Hin). cbn [map fst]. apply list_elem_of_here. }
  destruct members as [|[k' y] members].
  - cbn [map builtins.join].
    rewrite !chars_app, <- !app_assoc, scan_encode_basestring.
    cbn [json.scan_members].
    change (Py.ord "034" =? 34) with true. cbv iota.
    rewrite scanstring_escape_all.
    change (list_ascii_of_string ": " ++ ?t) with (":"%char :: " "%char :: t).
    rewrite skip_whitespace_colon. cbv iota.
    change (Ascii.eqb ":" ":") with true. cbv iota.
    rewrite skip_whitespace_space, skip_whitespace_opens by apply opens_dumps.
    rewrite (Hx fuel ("}"%char :: rest)); [|lia|done].
    rewrite skip_whitespace_brace. cbv iota.
    change (Ascii.eqb "}" "}") with true. cbv iota.
    by rewrite store_fresh.
  - cbn [map]. cbn [map] in IH.
    change (builtins.join ", " (?a :: ?b :: ?l))
      with (a +:+ ", " +:+ builtins.join ", " (b :: l)).
    rewrite !chars_app, <- !app_assoc, scan_encode_basestring.
    cbn [json.scan_members].
    change (Py.ord "034" =? 34) with true. cbv iota.
    rewrite scanstring_escape_all.
    change (list_ascii_of_string ": " ++ ?t) with (":"%char :: " "%char :: t).
    change (list_ascii_of_string ", " ++ ?t) with (","%char :: " "%char :: t).
    rewrite skip_whitespace_colon. cbv iota.
    change (Ascii.eqb ":" ":") with true. cbv iota.
    rewrite skip_whitespace_space, skip_whitespace_opens by apply opens_dumps.
    rewrite (Hx fuel); [|lia|done].
    rewrite skip_whitespace_comma. cbv iota.
    change (Ascii.eqb "," "}") with false. change (Ascii.eqb "," ",") with true.
    cbv iota. rewrite skip_whitespace_space.
    rewrite store_fresh by done.
    pose proof (opens_member k' y
      (map (fun m => match m with
                     | (k, x) => json.encode_basestring k +:+ ": " +:+ json.dumps x
                     end) members) ("}"%char :: rest)) as [tail Htail].
    rewrite skip_whitespace_opens by (rewrite Htail; reflexivity).
    rewrite (IH ltac:(done) fuel (acc ++ [(k, x)]) rest); [|lia| |done].
    + by rewrite <- app_assoc.
    + by rewrite <- app_assoc.
Qed.

Lemma unique_keys_items (items : list json.value) :
  fold_right (fun x P => unique_keys x /\ P) True items ->
  Forall unique_keys items.
Proof. induction items as [|x items IH]; [constructor|]. intros [? ?]. constructor; auto. Qed.

Lemma unique_keys_members (members : list (string * json.value)) :
  fold_right (fun m P => match m with
                         | (_, x) => unique_keys x /\ P
                         end) True members ->
  Forall (fun m => unique_keys (snd m)) members.
Proof.
  induction members as [|[k x] members IH]; [constructor|]. intros [? ?].
  constructor; auto.
Qed.

Lemma opens_cons (s : list ascii) :
  opens s = true ->
  exists c tail, s = c :: tail /\ Ascii.eqb c "]" = false /\ Ascii.eqb c "}" = false.
Proof.
  destruct s as [|c tail]; [done|]. cbn [opens]. intros H.
  apply andb_prop in H as [H H3]. apply andb_prop in H as [_ H2].
  apply negb_true_iff in H2. apply negb_true_iff in H3. eauto.
Qed.

(** What [json.dumps] writes for a value, [json.loads]'s scanner reads
    back as that value. *)
Lemma dumps_reads_back (v : json.value) : unique_keys v -> reads_back v.
Proof.
  induction v as [ |b|n|s|items IH|members IH] using value_induction; intros Hkeys.
  - intros [|fuel] rest Hfuel _; [simpl in Hfuel; lia|]. reflexivity.
  - intros [|fuel] rest Hfuel _; [simpl in Hfuel; lia|]. by destruct b.
  - apply reads_back_int.
  - apply reads_back_str.
  - intros [|fuel] rest Hfuel Hrest; [simpl in Hfuel; lia|].
    cbn [json_size] in Hfuel. cbn [unique_keys] in Hkeys.
    apply unique_keys_items in Hkeys.
    assert (Hitems : Forall reads_back items).
    { apply Forall_forall. intros x Hx.
      rewrite Forall_forall in IH, Hkeys. auto. }
    cbn [json.dumps]. rewrite string_app_cons.
    cbn [list_ascii_of_string app].
    change ("" +:+ ?t) with t. rewrite chars_app, <- app_assoc.
    change (list_ascii_of_string "]" ++ rest) with ("]"%char :: rest).
    cbn [json.scan_once].
    change (Py.ord "[" =? 34) with false. change (Ascii.eqb "[" "{") with false.
    change (Ascii.eqb "[" "[") with true. cbv iota.
    destruct items as [|x items]; [reflexivity|].
    cbn [map]. rewrite skip_whitespace_opens by apply opens_join.
    destruct (opens_cons _ (opens_join x (map json.dumps items) ("]"%char :: rest)))
      as [c [tail [Heq [Hc _]]]].
    rewrite Heq, Hc, <- Heq.
    apply (scan_items_reads_back (x :: items) Hitems ltac:(done) fuel [] rest);
      [lia|done].
  - intros [|fuel] rest Hfuel Hrest; [simpl in Hfuel; lia|].
    cbn [json_size] in Hfuel. cbn [unique_keys] in Hkeys.
    destruct Hkeys as [Hnodup Hkeys]. apply unique_keys_members in Hkeys.
    assert (Hmembers : Forall (fun m => reads_back (snd m)) members).
    { apply Forall_forall. intros x Hx.
      rewrite Forall_forall in IH, Hkeys. auto. }
    cbn [json.dumps]. rewrite string_app_cons.
    cbn [list_ascii_of_string app].
    change ("" +:+ ?t) with t. rewrite chars_app, <- app_assoc.
    change (list_ascii_of_string "}" ++ rest) with ("}"%char :: rest).
    cbn [json.scan_once].
    change (Py.ord "{" =? 34) with false. change (Ascii.eqb "{" "{") with true.
    cbv iota.
    destruct members as [|[k x] members]; [reflexivity|].
    cbn [map].
    destruct (opens_member k x
      (map (fun m => match m with
                     | (k, x) => json.encode_basestring k +:+ ": " +:+ json.dumps x
                     end) members) ("}"%char :: rest)) as [tail Htail].
    rewrite Htail. change (json.skip_whitespace ("034"%char :: tail))
      with ("034"%char :: tail). cbv iota.
    change (Ascii.eqb "034" "}") with false. cbv iota. rewrite <- Htail.
    apply (scan_members_reads_back ((k, x) :: members) Hmembers ltac:(done) fuel []
             rest); [lia|done|done].
Qed.

(** ** Lines written, lines read *)

Lemma chars_length (s : string) :
  length (list_ascii_of_string s) = String.length s.
Proof. induction s as [|c s IH]; [done|]. simpl. by rewrite IH. Qed.

Lemma join_size {A : Type} (text : A -> string) (size : A -> nat)
  (items : list A) :
  Forall (fun x => (size x <= String.length (text x))%nat) items ->
  (fold_right (fun x total => Datatypes.S (size x + total)) O items
   <= String.length (builtins.join ", " (map text items)) + 1)%nat.
Proof.
  induction 1 as [|x items Hx Hrest IH]; [simpl; lia|].
  destruct Hrest as [|y items Hy Hrest].
  - simpl. lia.
  - cbn [map] in *.
    change (builtins.join ", " (text x :: text y :: map text items))
      with (text x +:+ ", " +:+ builtins.join ", " (text y :: map text items)).
    rewrite !string_app_length. cbn [fold_right] in *.
    change (String.length ", ") with 2%nat. lia.
Qed.

(** The reader never needs more calls than the text has characters. *)
Lemma json_size_length (v : json.value) :
  (json_size v <= String.length (json.dumps v))%nat.
Proof.
  induction v as [ |b|n|s|items IH|members IH] using value_induction.
  - simpl. lia.
  - destruct b; simpl; lia.
  - cbn [json_size json.dumps]. rewrite <- chars_length.
    destruct (str_head n) as [c [tail [-> _]]]. simpl. lia.
  - cbn [json_size json.dumps]. rewrite <- chars_length.
    rewrite <- (app_nil_r (list_ascii_of_string _)), scan_encode_basestring.
    simpl. lia.
  - cbn [json_size json.dumps]. rewrite !string_app_length.
    change (String.length "[") with 1%nat. change (String.length "]") with 1%nat.
    pose proof (join_size json.dumps json_size items IH). lia.
  - cbn [json_size json.dumps]. rewrite !string_app_length.
    change (String.length "{") with 1%nat. change (String.length "}") with 1%nat.
    assert (Hall : Forall
      (fun m : string * json.value =>
         (json_size (snd m)
          <= String.length
               (match m with
                | (k, x) => json.encode_basestring k +:+ ": " +:+ json.dumps x
                end))%nat) members).
    { eapply Forall_impl; [exact IH|]. intros [k x] Hx. cbn [snd] in *.
      rewrite !string_app_length. lia. }
    pose proof (join_size _ _ members Hall) as Hjoin.
    assert (Hfold : forall ms : list (string * json.value),
      fold_right (fun m n => match m with
                             | (_, x) => Datatypes.S (json_size x + n)
                             end) O ms
      = fold_right (fun m total => Datatypes.S (json_size (snd m) + total)) O ms).
    { induction ms as [|[k x] ms IHms]; [done|]. simpl. by rewrite IHms. }
    rewrite Hfold. lia.
Qed.

(** [json.loads] reads back what [json.dumps] wrote, with or without the
    line feed that ends a line of a jsonl file. *)
Lemma loads_dumps (v : json.value) :
  unique_keys v ->
  json.loads (json.dumps v) = Returns v
  /\ json.loads (json.dumps v +:+ builtins.newline) = Returns v.
Proof.
  intros Hkeys. pose proof (json_size_length v) as Hsize. split.
  - unfold json.loads. cbv zeta.
    rewrite <- (app_nil_r (list_ascii_of_string (json.dumps v))) at 2.
    rewrite skip_whitespace_opens by apply opens_dumps.
    rewrite (dumps_reads_back v Hkeys); [done| |done].
    rewrite chars_length. lia.
  - unfold json.loads. cbv zeta. rewrite chars_app.
    rewrite skip_whitespace_opens by apply opens_dumps.
    rewrite (dumps_reads_back v Hkeys); [done| |done].
    rewrite length_app, chars_length. lia.
Qed.

Lemma annotation_of_value_of_annotation (a : annotation_json) :
  annotation_of_value (value_of_annotation a) = Returns a.
Proof. by destruct a as [[[s e]] l]. Qed.

Lemma traverse_annotations (anns : list annotation_json) :
  traverse annotation_of_value (map value_of_annotation anns) = Returns anns.
Proof.
  induction anns as [|a anns IH]; [done|].
  cbn [map traverse]. by rewrite annotation_of_value_of_annotation, IH.
Qed.

Lemma example_of_value_of_example (e : Example) :
  example_of_value (value_of_example e) = Returns e.
Proof.
  destruct e as [anns [text]]. unfold example_of_value, value_of_example.
  cbn -[traverse annotation_of_value value_of_annotation].
  by rewrite traverse_annotations.
Qed.

Lemma unique_keys_example (e : Example) : unique_keys (value_of_example e).
Proof.
  unfold value_of_example. cbn [unique_keys fold_right map fst].
  split; [apply (bool_decide_unpack _); vm_compute; reflexivity|].
  split; [|split; [|done]].
  - induction (annotations e) as [|a anns IH]; [done|].
    cbn [map fold_right]. split; [|done].
    unfold value_of_annotation. cbn [unique_keys fold_right map fst].
    repeat split; apply (bool_decide_unpack _); vm_compute; reflexivity.
  - split; [|done]. apply (bool_decide_unpack _); vm_compute; reflexivity.
Qed.

Lemma loads_jsonl_line (e : Example) :
  json.loads (jsonl_line e) = Returns (value_of_example e).
Proof. apply loads_dumps, unique_keys_example. Qed.

(** X22. A line of a jsonl file is read back as it was written: the line
    [_ConvertOneExample] returns for a text is the line of the example with
    that text and no annotation, and [json.loads] followed by the reads of
    [AnnotateFiles] and [export] gives back the example of any line in this
    format, whatever its text, labels and offsets. *)
Theorem jsonl_line_round_trip :
  (forall example_content : string,
     _ConvertOneExample example_content
     = jsonl_line {| annotations := [];
                     text_snippet := {| content := example_content |} |})
  /\ (forall e : Example,
        (example ← json.loads (jsonl_line e); example_of_value example)
        = Returns e).
Proof.
  split; [reflexivity|]. intros e.
  rewrite loads_jsonl_line. apply example_of_value_of_example.
Qed.

Section PipelineFacts.

Variable finditer : string -> string -> bool -> result (list re.Match).
Variable MAX_ANNOTATION_TOKENS : option Z.
Context {World Handle : Type} `{!OS World Handle}.

(** X23. [AnnotateFiles] maps a line in the format of [_ConvertOneExample]
    to a line in that format: on the line of an example, the loop body
    returns the line of the example [_AnnotateExample] makes of it, and
    raises what [_AnnotateExample] raises; the records of the call join
    the log and nothing else changes. *)
Theorem annotate_line_round_trip (label_patterns : list LabelPattern)
  (e : Example) (s : state World) :
  let out := _AnnotateExample finditer MAX_ANNOTATION_TOKENS label_patterns (e, []) in
  annotate_line finditer json.loads MAX_ANNOTATION_TOKENS label_patterns
    (jsonl_line e) s
  = (match fst out with
     | Ok e' => Returns (jsonl_line e')
     | Raise exc => Raises (Core exc)
     end,
     mkState (st_flags s) (st_world s) (st_log s ++ map Logged (snd (snd out)))).
Proof.
  cbv zeta. unfold annotate_line. unfold_IO.
  rewrite loads_jsonl_line, example_of_value_of_example. unfold call.
  destruct (_AnnotateExample_spec finditer MAX_ANNOTATION_TOKENS label_patterns e [])
    as [_ Hok].
  cbv zeta in Hok.
  destruct (_AnnotateExample finditer MAX_ANNOTATION_TOKENS label_patterns (e, []))
    as [[e'|exc] [object records]]; [|done].
  destruct (Hok e' eq_refl) as [Hobject [Htext _]]. simpl in Hobject. subst object.
  cbn [fst snd]. do 2 f_equal. unfold jsonl_line, value_of_example.
  by rewrite Htext.
Qed.


End PipelineFacts.
